(** * 3D_Druck_Rechner: the pricing engine of [preisrechner.py]

    A shallow embedding of [PricingInputs], [round_money] and [compute_cost],
    and of what the page does with their result: the price text, the detail
    table, the exported dictionary and the presets.

    Python's [float] is IEEE-754 binary64, which is what Rocq's primitive
    [float] is, so the arithmetic of the source is kept as it is: [+], [-],
    [*] and [/] are the primitive operations, with their rounding, their
    infinities and their NaN.  Python operations that can raise ([/] on a zero
    divisor, [round] on an overflowing result) live in a small error monad.
    The breakdown and meta dictionaries are association lists in insertion
    order, as a Python [dict] literal builds them.

    The fields are floats as the dataclass annotates them.  As Python does
    not enforce the annotation and the page passes the ints of its sliders,
    the engine is embedded a second time on fields that are ints or floats
    ([Dyn]), with Python's exact ints and the conversion of an int that
    meets a float.

    The file has four parts: the Python primitives and the source; the
    specification's reading of it and the statements compared with the code;
    the facts about binary64 rounding that the universal statements need
    (what [binary_round_aux] computes, the operations on non-negative floats
    as roundings of exact integers in units of [2^-1074], their
    monotonicity); and the statements themselves, followed by further
    properties of the engine and of the page with the lemmas they need. *)

From Stdlib Require Import ZArith Floats Bool List String Lia.
Import ListNotations.

Set Warnings "-inexact-float".

Local Open Scope string_scope.
Local Open Scope float_scope.

(** ** Python primitives used by the source *)

Module Py.

(** The exceptions that the float operations of the source can raise. *)
Inductive exn : Set := ZeroDivisionError | OverflowError.

(** A returned value or a raised exception. *)
Inductive result (A : Type) : Type :=
| Ok (a : A)
| Raise (e : exn).
Arguments Ok {A} a.
Arguments Raise {A} e.

Definition bind {A B : Type} (c : result A) (k : A -> result B) : result B :=
  match c with
  | Ok a => k a
  | Raise e => Raise e
  end.

(** [x / y] on floats: [ZeroDivisionError] when [y == 0.0]. *)
Definition truediv (x y : float) : result float :=
  if (y =? 0)%float then Raise ZeroDivisionError else Ok (x / y)%float.

(** [max(a, b)]: the first argument is kept unless the second compares
    strictly greater ([b > a]); a NaN first argument is therefore kept. *)
Definition max (a b : float) : float :=
  if (a <? b)%float then b else a.

(** Nearest integer to [p / q] for [0 < q], ties to the even integer. *)
Definition half_even (p q : Z) : Z :=
  let (d, r) := Z.div_eucl p q in
  match (2 * r ?= q)%Z with
  | Lt => d
  | Gt => (d + 1)%Z
  | Eq => if Z.even d then d else (d + 1)%Z
  end.

(** The decimal conversion inside [round(x, ndigits)] (dtoa, mode 3): the
    exact value [m * 2^e] rounded to [ndigits] places after the point, ties
    to even, as the integer count [n] of units of [10^-ndigits]. *)
Definition dtoa3 (ndigits : Z) (m : positive) (e : Z) : Z :=
  half_even (Zpos m * 2 ^ Z.max e 0 * 10 ^ Z.max ndigits 0)
            (2 ^ Z.max (- e) 0 * 10 ^ Z.max (- ndigits) 0).

(** The conversion back (strtod): the double nearest to
    [(-1)^s * n * 10^-ndigits], [OverflowError] when it is out of range. *)
Definition strtod (s : bool) (n : Z) (ndigits : Z) : result float :=
  match n with
  | Zpos p =>
      match SFdiv prec emax
              (S754_finite s (p * Z.to_pos (10 ^ Z.max (- ndigits) 0)) 0)
              (S754_finite false (Z.to_pos (10 ^ Z.max ndigits 0)) 0) with
      | S754_infinity _ => Raise OverflowError
      | r => Ok (SF2Prim r)
      end
  | _ => Ok (if s then neg_zero else zero)
  end.

(** [round(x, ndigits)] on a float, two-argument form: NaN, infinities
    and zeros round to themselves; beyond 323 digits [x] is returned, below
    -308 a zero of the sign of [x]; otherwise [x] is converted to decimal
    and back. *)
Definition round (x : float) (ndigits : Z) : result float :=
  match Prim2SF x with
  | S754_finite s m e =>
      if (323 <? ndigits)%Z then Ok x
      else if (ndigits <? -308)%Z then Ok (0 * x)%float
      else strtod s (dtoa3 ndigits m e) ndigits
  | _ => Ok x
  end.

(** A [dict] with string keys, in insertion order. *)
Definition dict : Type := list (string * float).

(** [d[k]], the first entry under the key [k]. *)
Fixpoint get (d : dict) (k : string) : option float :=
  match d with
  | [] => None
  | (k', v) :: d' => if String.eqb k k' then Some v else get d' k
  end.

End Py.

Import Py.

Notation "x <- c ;; k" := (Py.bind c (fun x => k))
  (at level 61, c at next level, right associativity).

(** ** Kern-Modelle & Logik *)

(** The dataclass, fields in the order of their declaration.  Every field
    is a [float], as annotated.  Python does not enforce the annotation: the
    record with an [int] or a [float] in every field, and the engine on it,
    are in [Dyn] below; on floats the two engines agree. *)
Record PricingInputs : Set := {
  filament_used_g : float;
  print_time_h : float;
  filament_eur_per_kg : float;
  electricity_eur_per_kwh : float;
  avg_power_w : float;
  depreciation_eur_per_h : float;
  consumables_ratio : float;
  labor_hours : float;
  labor_rate_eur_per_h : float;
  risk_ratio : float;
  markup_ratio : float;
  friend_discount_ratio : float;
  packaging_shipping_eur : float;
  min_fee_eur : float;
  purge_waste_g : float
}.

(** The dataclass constructor with its default values. *)
Definition PricingInputs_default (filament_used_g print_time_h : float) : PricingInputs :=
  {| filament_used_g := filament_used_g;
     print_time_h := print_time_h;
     filament_eur_per_kg := 22.0;
     electricity_eur_per_kwh := 0.25;
     avg_power_w := 80.0;
     depreciation_eur_per_h := 0.50;
     consumables_ratio := 0.05;
     labor_hours := 1.0;
     labor_rate_eur_per_h := 30.0;
     risk_ratio := 0.10;
     markup_ratio := 0.0;
     friend_discount_ratio := 0.20;
     packaging_shipping_eur := 0.0;
     min_fee_eur := 10.0;
     purge_waste_g := 0.0 |}.

Definition round_money (x : float) : result float :=
  Py.round (x + 1e-9) 2.

(** The local variables of [compute_cost], lines 50 to 66 of the source. *)
Record Locals : Set := {
  grams_total : float;
  material_eur : float;
  kwh : float;
  energy_eur : float;
  machine_eur : float;
  labor_eur : float;
  consumables_eur : float;
  risk_buffer_eur : float;
  subtotal_before_markup : float;
  markup_eur : float;
  pre_discount_total : float;
  friend_discount_eur : float;
  total : float;
  final_total_eur : float
}.

(** First half of [compute_cost]: the chain of assignments. *)
Definition compute_locals (inputs : PricingInputs) : result Locals :=
  let grams_total := inputs.(filament_used_g) + inputs.(purge_waste_g) in

  kg <- truediv grams_total 1000.0 ;;
  let material_eur := kg * inputs.(filament_eur_per_kg) in
  kwh <- truediv (inputs.(avg_power_w) * inputs.(print_time_h)) 1000.0 ;;
  let energy_eur := kwh * inputs.(electricity_eur_per_kwh) in
  let machine_eur := inputs.(print_time_h) * inputs.(depreciation_eur_per_h) in
  let labor_eur := inputs.(labor_hours) * inputs.(labor_rate_eur_per_h) in

  let consumables_eur := (material_eur + energy_eur) * inputs.(consumables_ratio) in
  let risk_buffer_eur := (material_eur + energy_eur + machine_eur) * inputs.(risk_ratio) in

  let subtotal_before_markup :=
    material_eur + energy_eur + machine_eur + labor_eur + consumables_eur + risk_buffer_eur in
  let markup_eur := subtotal_before_markup * inputs.(markup_ratio) in
  let pre_discount_total := subtotal_before_markup + markup_eur in
  let friend_discount_eur := pre_discount_total * inputs.(friend_discount_ratio) in
  let total := pre_discount_total - friend_discount_eur + inputs.(packaging_shipping_eur) in
  let final_total_eur := Py.max total inputs.(min_fee_eur) in
  Ok {| grams_total := grams_total;
        material_eur := material_eur;
        kwh := kwh;
        energy_eur := energy_eur;
        machine_eur := machine_eur;
        labor_eur := labor_eur;
        consumables_eur := consumables_eur;
        risk_buffer_eur := risk_buffer_eur;
        subtotal_before_markup := subtotal_before_markup;
        markup_eur := markup_eur;
        pre_discount_total := pre_discount_total;
        friend_discount_eur := friend_discount_eur;
        total := total;
        final_total_eur := final_total_eur |}.

(** Second half: the [breakdown] and [meta] dictionaries and the returned
    pair.  The entries are evaluated in the order of the dict literals. *)
Definition compute_cost (inputs : PricingInputs) : result (dict * dict) :=
  l <- compute_locals inputs ;;
  b1 <- round_money l.(material_eur) ;;
  b2 <- round_money l.(energy_eur) ;;
  b3 <- round_money l.(machine_eur) ;;
  b4 <- round_money l.(labor_eur) ;;
  b5 <- round_money l.(consumables_eur) ;;
  b6 <- round_money l.(risk_buffer_eur) ;;
  b7 <- round_money l.(subtotal_before_markup) ;;
  b8 <- round_money l.(markup_eur) ;;
  b9 <- round_money l.(pre_discount_total) ;;
  b10 <- round_money l.(friend_discount_eur) ;;
  b11 <- round_money inputs.(packaging_shipping_eur) ;;
  b12 <- round_money l.(final_total_eur) ;;
  let breakdown := [
    ("Material", b1);
    ("Energie", b2);
    ("Maschine/Verschleiß", b3);
    ("Arbeit", b4);
    ("Verbrauchsmaterial-Puffer", b5);
    ("Risiko-Puffer", b6);
    ("Zwischensumme", b7);
    ("Marge/Aufschlag", b8);
    ("Summe vor Rabatt", b9);
    ("Freundschaftsrabatt", b10);
    ("Verpackung/Versand", b11);
    ("Empfohlener Preis", b12)
  ] in

  m1 <- Py.round l.(kwh) 3 ;;
  m2 <- Py.round l.(grams_total) 1 ;;
  let meta := [
    ("kwh", m1);
    ("filament_total_g", m2)
  ] in
  Ok (breakdown, meta).

(** ** The specification's reading, for comparison with the code *)

Module Spec.

(** The fourteen quantities of the derivation, in the specification's names. *)
Record derivation : Set := {
  grams_total : float;
  material : float;
  kwh : float;
  energy : float;
  machine : float;
  labor : float;
  consumables : float;
  risk : float;
  subtotal : float;
  markup : float;
  pre_discount_total : float;
  friend_discount : float;
  total : float;
  final_total : float
}.

(** Steps 1 to 14, each from the inputs and the quantities before it. *)
Definition derive (i : PricingInputs) : derivation :=
  let grams_total := i.(filament_used_g) + i.(purge_waste_g) in
  let material := (grams_total / 1000) * i.(filament_eur_per_kg) in
  let kwh := (i.(avg_power_w) * i.(print_time_h)) / 1000 in
  let energy := kwh * i.(electricity_eur_per_kwh) in
  let machine := i.(print_time_h) * i.(depreciation_eur_per_h) in
  let labor := i.(labor_hours) * i.(labor_rate_eur_per_h) in
  let consumables := (material + energy) * i.(consumables_ratio) in
  let risk := (material + energy + machine) * i.(risk_ratio) in
  let subtotal := material + energy + machine + labor + consumables + risk in
  let markup := subtotal * i.(markup_ratio) in
  let pre_discount_total := subtotal + markup in
  let friend_discount := pre_discount_total * i.(friend_discount_ratio) in
  let total := pre_discount_total - friend_discount + i.(packaging_shipping_eur) in
  let final_total := Py.max total i.(min_fee_eur) in
  {| grams_total := grams_total; material := material; kwh := kwh;
     energy := energy; machine := machine; labor := labor;
     consumables := consumables; risk := risk; subtotal := subtotal;
     markup := markup; pre_discount_total := pre_discount_total;
     friend_discount := friend_discount; total := total;
     final_total := final_total |}.

(** Nearest integer to [p / q] for [0 < q], ties away from zero (upwards,
    as [p] and [q] are non-negative here). *)
Definition half_away (p q : Z) : Z :=
  let (d, r) := Z.div_eucl p q in
  match (2 * r ?= q)%Z with
  | Lt => d
  | _ => (d + 1)%Z
  end.

(** The magnitude of a finite non-zero [x] scaled by [10^ndigits], as the
    exact fraction [P / Q], with the sign of [x]. *)
Definition scaled (x : float) (ndigits : Z) : option (bool * Z * Z) :=
  match Prim2SF x with
  | S754_finite s m e =>
      Some (s, (Zpos m * 2 ^ Z.max e 0 * 10 ^ Z.max ndigits 0)%Z,
               (2 ^ Z.max (- e) 0 * 10 ^ Z.max (- ndigits) 0)%Z)
  | _ => None
  end.

(** "Round half away from zero at [ndigits] decimals": the magnitude is
    rounded to the nearest multiple of [10^-ndigits], a tie going to the
    larger magnitude, and the sign is kept. *)
Definition round_half_away (x : float) (ndigits : Z) : result float :=
  match scaled x ndigits with
  | Some (s, P, Q) => strtod s (half_away P Q) ndigits
  | None => Ok x
  end.

End Spec.

(** The derivation read as the code's local variables. *)
Definition locals_of_derivation (d : Spec.derivation) : Locals :=
  {| grams_total := d.(Spec.grams_total);
     material_eur := d.(Spec.material);
     kwh := d.(Spec.kwh);
     energy_eur := d.(Spec.energy);
     machine_eur := d.(Spec.machine);
     labor_eur := d.(Spec.labor);
     consumables_eur := d.(Spec.consumables);
     risk_buffer_eur := d.(Spec.risk);
     subtotal_before_markup := d.(Spec.subtotal);
     markup_eur := d.(Spec.markup);
     pre_discount_total := d.(Spec.pre_discount_total);
     friend_discount_eur := d.(Spec.friend_discount);
     total := d.(Spec.total);
     final_total_eur := d.(Spec.final_total) |}.

(** ** Inputs and predicates used in the statements *)

(** Python's [x >= 0]. *)
Definition nonneg (x : float) : Prop := (0 <=? x) = true.

Definition finite (x : float) : Prop := is_finite x = true.

Definition all_fields (P : float -> Prop) (i : PricingInputs) : Prop :=
  P i.(filament_used_g) /\ P i.(print_time_h) /\ P i.(filament_eur_per_kg) /\
  P i.(electricity_eur_per_kwh) /\ P i.(avg_power_w) /\
  P i.(depreciation_eur_per_h) /\ P i.(consumables_ratio) /\
  P i.(labor_hours) /\ P i.(labor_rate_eur_per_h) /\ P i.(risk_ratio) /\
  P i.(markup_ratio) /\ P i.(friend_discount_ratio) /\
  P i.(packaging_shipping_eur) /\ P i.(min_fee_eur) /\ P i.(purge_waste_g).

Definition with_filament_used_g (i : PricingInputs) (g : float) : PricingInputs :=
  {| filament_used_g := g;
     print_time_h := i.(print_time_h);
     filament_eur_per_kg := i.(filament_eur_per_kg);
     electricity_eur_per_kwh := i.(electricity_eur_per_kwh);
     avg_power_w := i.(avg_power_w);
     depreciation_eur_per_h := i.(depreciation_eur_per_h);
     consumables_ratio := i.(consumables_ratio);
     labor_hours := i.(labor_hours);
     labor_rate_eur_per_h := i.(labor_rate_eur_per_h);
     risk_ratio := i.(risk_ratio);
     markup_ratio := i.(markup_ratio);
     friend_discount_ratio := i.(friend_discount_ratio);
     packaging_shipping_eur := i.(packaging_shipping_eur);
     min_fee_eur := i.(min_fee_eur);
     purge_waste_g := i.(purge_waste_g) |}.

Definition with_min_fee_eur (i : PricingInputs) (fee : float) : PricingInputs :=
  {| filament_used_g := i.(filament_used_g);
     print_time_h := i.(print_time_h);
     filament_eur_per_kg := i.(filament_eur_per_kg);
     electricity_eur_per_kwh := i.(electricity_eur_per_kwh);
     avg_power_w := i.(avg_power_w);
     depreciation_eur_per_h := i.(depreciation_eur_per_h);
     consumables_ratio := i.(consumables_ratio);
     labor_hours := i.(labor_hours);
     labor_rate_eur_per_h := i.(labor_rate_eur_per_h);
     risk_ratio := i.(risk_ratio);
     markup_ratio := i.(markup_ratio);
     friend_discount_ratio := i.(friend_discount_ratio);
     packaging_shipping_eur := i.(packaging_shipping_eur);
     min_fee_eur := fee;
     purge_waste_g := i.(purge_waste_g) |}.

Definition with_friend_discount_ratio (i : PricingInputs) (r : float) : PricingInputs :=
  {| filament_used_g := i.(filament_used_g);
     print_time_h := i.(print_time_h);
     filament_eur_per_kg := i.(filament_eur_per_kg);
     electricity_eur_per_kwh := i.(electricity_eur_per_kwh);
     avg_power_w := i.(avg_power_w);
     depreciation_eur_per_h := i.(depreciation_eur_per_h);
     consumables_ratio := i.(consumables_ratio);
     labor_hours := i.(labor_hours);
     labor_rate_eur_per_h := i.(labor_rate_eur_per_h);
     risk_ratio := i.(risk_ratio);
     markup_ratio := i.(markup_ratio);
     friend_discount_ratio := r;
     packaging_shipping_eur := i.(packaging_shipping_eur);
     min_fee_eur := i.(min_fee_eur);
     purge_waste_g := i.(purge_waste_g) |}.

Definition with_filament_eur_per_kg (i : PricingInputs) (p : float) : PricingInputs :=
  {| filament_used_g := i.(filament_used_g);
     print_time_h := i.(print_time_h);
     filament_eur_per_kg := p;
     electricity_eur_per_kwh := i.(electricity_eur_per_kwh);
     avg_power_w := i.(avg_power_w);
     depreciation_eur_per_h := i.(depreciation_eur_per_h);
     consumables_ratio := i.(consumables_ratio);
     labor_hours := i.(labor_hours);
     labor_rate_eur_per_h := i.(labor_rate_eur_per_h);
     risk_ratio := i.(risk_ratio);
     markup_ratio := i.(markup_ratio);
     friend_discount_ratio := i.(friend_discount_ratio);
     packaging_shipping_eur := i.(packaging_shipping_eur);
     min_fee_eur := i.(min_fee_eur);
     purge_waste_g := i.(purge_waste_g) |}.



(** The concrete scenario of the specification's section 8. *)
Definition scenario : PricingInputs :=
  {| filament_used_g := 100;
     purge_waste_g := 0;
     print_time_h := 6.0;
     filament_eur_per_kg := 22.0;
     electricity_eur_per_kwh := 0.25;
     avg_power_w := 80;
     depreciation_eur_per_h := 0.5;
     consumables_ratio := 0.05;
     labor_hours := 1.0;
     labor_rate_eur_per_h := 30.0;
     risk_ratio := 0.10;
     markup_ratio := 0.0;
     friend_discount_ratio := 0.20;
     packaging_shipping_eur := 0.0;
     min_fee_eur := 10.0 |}.

(** ** Statements that are compared with the code *)

(** The stored recommended price is at least the minimum fee. *)
Definition price_at_least_min_fee (i : PricingInputs) : Prop :=
  exists breakdown meta p,
    compute_cost i = Ok (breakdown, meta) /\
    Py.get breakdown "Empfohlener Preis" = Some p /\
    (i.(min_fee_eur) <=? p) = true.

(** Every value stored in the breakdown is non-negative. *)
Definition breakdown_nonneg (i : PricingInputs) : Prop :=
  exists breakdown meta,
    compute_cost i = Ok (breakdown, meta) /\
    forall k v, In (k, v) breakdown -> nonneg v.

(** [round_money] is rounding half away from zero of [x + 1e-9]. *)
Definition round_money_is_half_away (x : float) : Prop :=
  round_money x = Spec.round_half_away (x + 1e-9) 2.


(** The scenario with a minimum fee above its total and with a third decimal. *)
Definition scenario_fee_30_004 : PricingInputs := with_min_fee_eur scenario 30.004.

(** Finite, non-negative inputs whose material cost exceeds the binary64 range. *)
Definition overflowing_inputs : PricingInputs :=
  with_filament_eur_per_kg (with_filament_used_g scenario 1e200) 1e200.







(** The scenario with a friend discount of 100 percent. *)
Definition full_discount : PricingInputs := with_friend_discount_ratio scenario 1.0.

(** What the specification's worked example expects of a returned pair. *)
Definition scenario_expected (r : result (dict * dict)) : Prop :=
  exists breakdown meta,
    r = Ok (breakdown, meta) /\
    Py.get breakdown "Material" = Some 2.20 /\
    Py.get breakdown "Energie" = Some 0.12 /\
    Py.get breakdown "Maschine/Verschleiß" = Some 3.00 /\
    Py.get breakdown "Arbeit" = Some 30.00 /\
    Py.get breakdown "Verbrauchsmaterial-Puffer" = Some 0.12 /\
    Py.get breakdown "Risiko-Puffer" = Some 0.53 /\
    Py.get breakdown "Zwischensumme" = Some 35.97 /\
    Py.get breakdown "Marge/Aufschlag" = Some 0.00 /\
    Py.get breakdown "Summe vor Rabatt" = Some 35.97 /\
    Py.get breakdown "Freundschaftsrabatt" = Some 7.19 /\
    Py.get breakdown "Verpackung/Versand" = Some 0.00 /\
    Py.get breakdown "Empfohlener Preis" = Some 28.78 /\
    Py.get meta "kwh" = Some 0.48.


(** ** The page around the engine *)

(** What the page does with the result of [compute_cost]: the header text
    of the price, the detail table, the dictionary behind the JSON export
    and the presets.  Streamlit, pandas and [json.dumps] themselves are not
    modelled: the definitions stop at the values handed to them. *)

Module Page.

(** A subscript [d[k]] either has a value or raises [KeyError(k)]. *)
Inductive outcome (A : Type) : Type :=
| Value (a : A)
| KeyError (key : string).
Arguments Value {A} a.
Arguments KeyError {A} key.

Definition and_then {A B : Type} (c : outcome A) (k : A -> outcome B) : outcome B :=
  match c with
  | Value a => k a
  | KeyError key => KeyError key
  end.

(** [d[k]] on a dictionary of floats. *)
Definition item (d : dict) (k : string) : outcome float :=
  match get d k with
  | Some v => Value v
  | None => KeyError k
  end.

(** The values the page stores in dictionaries: numbers and, for the
    export, a nested dictionary of floats. *)
Inductive value : Type :=
| VInt (n : Z)
| VFloat (x : float)
| VDict (d : dict).

(** A Python [dict] with string keys, in insertion order. *)
Definition object : Type := list (string * value).

(** [d[k]], [None] for a key that is absent. *)
Fixpoint lookup (d : object) (k : string) : option value :=
  match d with
  | [] => None
  | (k', v) :: d' => if String.eqb k k' then Some v else lookup d' k
  end.

(** [d[k] = v]: an existing key keeps its place and gets the new value, a
    new key goes to the end. *)
Fixpoint setitem (d : object) (k : string) (v : value) : object :=
  match d with
  | [] => [(k, v)]
  | (k', v') :: d' =>
      if String.eqb k k' then (k', v) :: d' else (k', v') :: setitem d' k v
  end.

(** [d.update(e)], also the meaning of [**e] inside a dict display: the
    entries of [e] are stored one after the other. *)
Definition update (d e : object) : object :=
  fold_left (fun acc kv => setitem acc (fst kv) (snd kv)) e d.

(** A dictionary of floats as an [object]. *)
Definition of_dict (d : dict) : object :=
  map (fun kv => (fst kv, VFloat (snd kv))) d.

(** The decimal digits of a non-negative integer. *)
Definition digit (d : Z) : Ascii.ascii := Ascii.ascii_of_N (48 + Z.to_N d).

Fixpoint digits_onto (fuel : nat) (n : Z) (acc : string) : string :=
  let acc' := String (digit (n mod 10)) acc in
  match fuel with
  | O => acc'
  | S fuel' => if (n <? 10)%Z then acc' else digits_onto fuel' (n / 10) acc'
  end.

Definition str_int (n : Z) : string :=
  digits_onto (Z.to_nat (Z.log2 n)) n EmptyString.

(** The last [nd] decimal digits of [n], with leading zeros. *)
Fixpoint last_digits (nd : nat) (n : Z) (acc : string) : string :=
  match nd with
  | O => acc
  | S nd' => last_digits nd' (n / 10) (String (digit (n mod 10)) acc)
  end.

(** What [format(x, ".<nd>f")] prints of a zero or finite [x]: the sign and
    the count of units of [10^-nd] nearest to the exact value of [x], ties
    to even (the same conversion as in [round]). *)
Definition decimal_of (nd : nat) (x : float) : option (bool * Z) :=
  match Prim2SF x with
  | S754_zero s => Some (s, 0%Z)
  | S754_finite s m e => Some (s, dtoa3 (Z.of_nat nd) m e)
  | _ => None
  end.

(** [format(x, ".<nd>f")], the [{x:.<nd>f}] of an f-string: a minus sign
    for a set sign bit (also on a zero), the integer digits, and the point
    with [nd] digits when [nd > 0]; [nan], [inf] and [-inf] otherwise. *)
Definition format_f (nd : nat) (x : float) : string :=
  match decimal_of nd x with
  | Some (s, n) =>
      (if s then "-" else EmptyString) ++
      str_int (n / 10 ^ Z.of_nat nd) ++
      match nd with
      | O => EmptyString
      | _ => "." ++ last_digits nd (n mod 10 ^ Z.of_nat nd) EmptyString
      end
  | None =>
      match Prim2SF x with
      | S754_infinity true => "-inf"
      | S754_infinity false => "inf"
      | _ => "nan"
      end
  end.

End Page.

Import Page.

Notation "x <~ c ;; k" := (Page.and_then c (fun x => k))
  (at level 61, c at next level, right associativity).

(** The value of the first header card, line 199:
    [f"€ {breakdown['Empfohlener Preis']:.2f}"]. *)
Definition price_text (breakdown : dict) : outcome string :=
  p <~ item breakdown "Empfohlener Preis" ;;
  Value ("€ " ++ format_f 2 p).

(** The rows of the detail table [df], lines 210 to 222: eleven entries of
    the breakdown, the discount shown as [-abs(...)]. *)
Definition df (breakdown : dict) : outcome dict :=
  v1 <~ item breakdown "Material" ;;
  v2 <~ item breakdown "Energie" ;;
  v3 <~ item breakdown "Maschine/Verschleiß" ;;
  v4 <~ item breakdown "Arbeit" ;;
  v5 <~ item breakdown "Verbrauchsmaterial-Puffer" ;;
  v6 <~ item breakdown "Risiko-Puffer" ;;
  v7 <~ item breakdown "Zwischensumme" ;;
  v8 <~ item breakdown "Marge/Aufschlag" ;;
  v9 <~ item breakdown "Summe vor Rabatt" ;;
  v10 <~ item breakdown "Freundschaftsrabatt" ;;
  v11 <~ item breakdown "Verpackung/Versand" ;;
  Value [
    ("Material", v1);
    ("Energie", v2);
    ("Maschine/Verschleiß", v3);
    ("Arbeit", v4);
    ("Verbrauchsmaterial-Puffer", v5);
    ("Risiko-Puffer", v6);
    ("Zwischensumme", v7);
    ("Marge/Aufschlag", v8);
    ("Summe vor Rabatt", v9);
    ("Freundschaftsrabatt", - abs v10);
    ("Verpackung/Versand", v11)
  ].

(** [asdict(inputs)]: the fields in the order of their declaration. *)
Definition asdict (inputs : PricingInputs) : object := [
  ("filament_used_g", VFloat inputs.(filament_used_g));
  ("print_time_h", VFloat inputs.(print_time_h));
  ("filament_eur_per_kg", VFloat inputs.(filament_eur_per_kg));
  ("electricity_eur_per_kwh", VFloat inputs.(electricity_eur_per_kwh));
  ("avg_power_w", VFloat inputs.(avg_power_w));
  ("depreciation_eur_per_h", VFloat inputs.(depreciation_eur_per_h));
  ("consumables_ratio", VFloat inputs.(consumables_ratio));
  ("labor_hours", VFloat inputs.(labor_hours));
  ("labor_rate_eur_per_h", VFloat inputs.(labor_rate_eur_per_h));
  ("risk_ratio", VFloat inputs.(risk_ratio));
  ("markup_ratio", VFloat inputs.(markup_ratio));
  ("friend_discount_ratio", VFloat inputs.(friend_discount_ratio));
  ("packaging_shipping_eur", VFloat inputs.(packaging_shipping_eur));
  ("min_fee_eur", VFloat inputs.(min_fee_eur));
  ("purge_waste_g", VFloat inputs.(purge_waste_g))
].

(** The dictionary given to [json.dumps], line 232:
    [{**asdict(inputs), **{"breakdown": breakdown, **meta}}]. *)
Definition export (inputs : PricingInputs) (breakdown meta : dict) : object :=
  update (update [] (asdict inputs))
         (update [("breakdown", VDict breakdown)] (of_dict meta)).

(** The three presets, lines 246 to 261, as functions of the session state. *)
Definition preset_pla (session_state : object) : object :=
  update session_state [
    ("Filament €/kg", VFloat 22.0); ("Strompreis €/kWh", VFloat 0.25);
    ("Ø Leistung (W)", VInt 80);
    ("Verschleiß/Abschreibung €/h", VFloat 0.5);
    ("Verbrauchsmaterial‑Anteil", VFloat 0.05)
  ].

Definition preset_petg (session_state : object) : object :=
  update session_state [
    ("Filament €/kg", VFloat 26.0); ("Ø Leistung (W)", VInt 90);
    ("Risiko‑Anteil", VFloat 0.12)
  ].

Definition preset_abs (session_state : object) : object :=
  update session_state [
    ("Filament €/kg", VFloat 28.0); ("Ø Leistung (W)", VInt 110);
    ("Risiko‑Anteil", VFloat 0.18)
  ].


(** The keys of the breakdown that the detail table reads. *)
Definition table_keys : list string := [
  "Material"; "Energie"; "Maschine/Verschleiß"; "Arbeit";
  "Verbrauchsmaterial-Puffer"; "Risiko-Puffer"; "Zwischensumme";
  "Marge/Aufschlag"; "Summe vor Rabatt"; "Freundschaftsrabatt";
  "Verpackung/Versand"
].

(** The six cost components that are added up to the subtotal. *)
Definition component_keys : list string := [
  "Material"; "Energie"; "Maschine/Verschleiß"; "Arbeit";
  "Verbrauchsmaterial-Puffer"; "Risiko-Puffer"
].

(** The record [i] with another packaging and shipping cost. *)
Definition with_packaging_shipping_eur (i : PricingInputs) (p : float) : PricingInputs :=
  {| filament_used_g := i.(filament_used_g);
     print_time_h := i.(print_time_h);
     filament_eur_per_kg := i.(filament_eur_per_kg);
     electricity_eur_per_kwh := i.(electricity_eur_per_kwh);
     avg_power_w := i.(avg_power_w);
     depreciation_eur_per_h := i.(depreciation_eur_per_h);
     consumables_ratio := i.(consumables_ratio);
     labor_hours := i.(labor_hours);
     labor_rate_eur_per_h := i.(labor_rate_eur_per_h);
     risk_ratio := i.(risk_ratio);
     markup_ratio := i.(markup_ratio);
     friend_discount_ratio := i.(friend_discount_ratio);
     packaging_shipping_eur := p;
     min_fee_eur := i.(min_fee_eur);
     purge_waste_g := i.(purge_waste_g) |}.

(** ** The engine on what Python passes: ints and floats *)

(** The dataclass annotates every field as [float], but Python does not
    enforce the annotation, and the page passes the [int] of a slider for
    [filament_used_g], [purge_waste_g] and [avg_power_w].  This is
    [compute_cost] once more, on fields that are ints or floats, with
    Python's arithmetic on the two: ints are exact and unbounded, and an int
    that meets a float is first converted to a float, which raises
    [OverflowError] when the int is beyond the range of binary64. *)

Module Dyn.

(** A Python number: an [int] or a [float]. *)
Inductive num : Set :=
| Int (n : Z)
| Float (x : float).

(** [float(n)] as the arithmetic does it: the nearest binary64 value, ties
    to even; [OverflowError] when that is beyond the largest float. *)
Definition to_float (n : Z) : result float :=
  match binary_normalize prec emax n 0 false with
  | S754_infinity _ => Raise OverflowError
  | r => Ok (SF2Prim r)
  end.

(** The operand of a float operation. *)
Definition as_float (a : num) : result float :=
  match a with
  | Int n => to_float n
  | Float x => Ok x
  end.

(** [a + b], [a - b] and [a * b]: exact on two ints, on floats otherwise. *)
Definition add (a b : num) : result num :=
  match a, b with
  | Int m, Int n => Ok (Int (m + n))
  | _, _ => x <- as_float a ;; y <- as_float b ;; Ok (Float (x + y))
  end.

Definition sub (a b : num) : result num :=
  match a, b with
  | Int m, Int n => Ok (Int (m - n))
  | _, _ => x <- as_float a ;; y <- as_float b ;; Ok (Float (x - y))
  end.

Definition mul (a b : num) : result num :=
  match a, b with
  | Int m, Int n => Ok (Int (m * n))
  | _, _ => x <- as_float a ;; y <- as_float b ;; Ok (Float (x * y))
  end.

(** [a / y] for a float divisor [y], as in [... / 1000.0]: a float. *)
Definition truediv (a : num) (y : float) : result float :=
  x <- as_float a ;; Py.truediv x y.

(** [x < n] and [n < x] for a float [x] and an int [n]: Python compares
    the exact values, without converting the int; a NaN is not less and not
    greater than anything. *)
Definition float_lt_int (x : float) (n : Z) : bool :=
  match Prim2SF x with
  | S754_nan => false
  | S754_infinity s => s
  | S754_zero _ => (0 <? n)%Z
  | S754_finite s m e =>
      ((if s then Zneg m else Zpos m) * 2 ^ Z.max e 0 <? n * 2 ^ Z.max (- e) 0)%Z
  end.

Definition int_lt_float (n : Z) (x : float) : bool :=
  match Prim2SF x with
  | S754_nan => false
  | S754_infinity s => negb s
  | S754_zero _ => (n <? 0)%Z
  | S754_finite s m e =>
      (n * 2 ^ Z.max (- e) 0 <? (if s then Zneg m else Zpos m) * 2 ^ Z.max e 0)%Z
  end.

(** [max(a, b)]: [b] when [b > a], otherwise [a], the object itself. *)
Definition max (a b : num) : num :=
  match a, b with
  | Int m, Int n => if (m <? n)%Z then b else a
  | Int m, Float y => if int_lt_float m y then b else a
  | Float x, Int n => if float_lt_int x n then b else a
  | Float x, Float y => if (x <? y)%float then b else a
  end.

(** [round(a, ndigits)] with [ndigits >= 0]: an int is returned as it is. *)
Definition round (a : num) (ndigits : Z) : result num :=
  match a with
  | Int n => Ok (Int n)
  | Float x => y <- Py.round x ndigits ;; Ok (Float y)
  end.

(** [round_money]: [x + 1e-9] is a float, whatever [x] is. *)
Definition round_money (x : num) : result float :=
  y <- as_float x ;; Py.round (y + 1e-9) 2.

(** The dataclass with fields of either type. *)
Record PricingInputs : Set := {
  filament_used_g : num;
  print_time_h : num;
  filament_eur_per_kg : num;
  electricity_eur_per_kwh : num;
  avg_power_w : num;
  depreciation_eur_per_h : num;
  consumables_ratio : num;
  labor_hours : num;
  labor_rate_eur_per_h : num;
  risk_ratio : num;
  markup_ratio : num;
  friend_discount_ratio : num;
  packaging_shipping_eur : num;
  min_fee_eur : num;
  purge_waste_g : num
}.

(** A dictionary of numbers, in insertion order. *)
Definition numdict : Type := list (string * num).

(** [compute_cost], lines 49 to 87, statement by statement; an operation
    that raises ends the call. *)
Definition compute_cost (inputs : PricingInputs) : result (dict * numdict) :=
  grams_total <- add inputs.(filament_used_g) inputs.(purge_waste_g) ;;

  kg <- truediv grams_total 1000.0 ;;
  material_eur <- mul (Float kg) inputs.(filament_eur_per_kg) ;;
  watt_hours <- mul inputs.(avg_power_w) inputs.(print_time_h) ;;
  kwh <- truediv watt_hours 1000.0 ;;
  energy_eur <- mul (Float kwh) inputs.(electricity_eur_per_kwh) ;;
  machine_eur <- mul inputs.(print_time_h) inputs.(depreciation_eur_per_h) ;;
  labor_eur <- mul inputs.(labor_hours) inputs.(labor_rate_eur_per_h) ;;

  c1 <- add material_eur energy_eur ;;
  consumables_eur <- mul c1 inputs.(consumables_ratio) ;;
  r1 <- add material_eur energy_eur ;;
  r2 <- add r1 machine_eur ;;
  risk_buffer_eur <- mul r2 inputs.(risk_ratio) ;;

  s1 <- add material_eur energy_eur ;;
  s2 <- add s1 machine_eur ;;
  s3 <- add s2 labor_eur ;;
  s4 <- add s3 consumables_eur ;;
  subtotal_before_markup <- add s4 risk_buffer_eur ;;
  markup_eur <- mul subtotal_before_markup inputs.(markup_ratio) ;;
  pre_discount_total <- add subtotal_before_markup markup_eur ;;
  friend_discount_eur <- mul pre_discount_total inputs.(friend_discount_ratio) ;;
  t1 <- sub pre_discount_total friend_discount_eur ;;
  total <- add t1 inputs.(packaging_shipping_eur) ;;
  let final_total_eur := max total inputs.(min_fee_eur) in

  b1 <- round_money material_eur ;;
  b2 <- round_money energy_eur ;;
  b3 <- round_money machine_eur ;;
  b4 <- round_money labor_eur ;;
  b5 <- round_money consumables_eur ;;
  b6 <- round_money risk_buffer_eur ;;
  b7 <- round_money subtotal_before_markup ;;
  b8 <- round_money markup_eur ;;
  b9 <- round_money pre_discount_total ;;
  b10 <- round_money friend_discount_eur ;;
  b11 <- round_money inputs.(packaging_shipping_eur) ;;
  b12 <- round_money final_total_eur ;;
  let breakdown := [
    ("Material", b1);
    ("Energie", b2);
    ("Maschine/Verschleiß", b3);
    ("Arbeit", b4);
    ("Verbrauchsmaterial-Puffer", b5);
    ("Risiko-Puffer", b6);
    ("Zwischensumme", b7);
    ("Marge/Aufschlag", b8);
    ("Summe vor Rabatt", b9);
    ("Freundschaftsrabatt", b10);
    ("Verpackung/Versand", b11);
    ("Empfohlener Preis", b12)
  ] in

  m1 <- Py.round kwh 3 ;;
  m2 <- round grams_total 1 ;;
  let meta := [
    ("kwh", Float m1);
    ("filament_total_g", m2)
  ] in
  Ok (breakdown, meta).

End Dyn.

(** A record of floats as a record of numbers. *)
Definition floats_as_numbers (i : PricingInputs) : Dyn.PricingInputs :=
  {| Dyn.filament_used_g := Dyn.Float i.(filament_used_g);
     Dyn.print_time_h := Dyn.Float i.(print_time_h);
     Dyn.filament_eur_per_kg := Dyn.Float i.(filament_eur_per_kg);
     Dyn.electricity_eur_per_kwh := Dyn.Float i.(electricity_eur_per_kwh);
     Dyn.avg_power_w := Dyn.Float i.(avg_power_w);
     Dyn.depreciation_eur_per_h := Dyn.Float i.(depreciation_eur_per_h);
     Dyn.consumables_ratio := Dyn.Float i.(consumables_ratio);
     Dyn.labor_hours := Dyn.Float i.(labor_hours);
     Dyn.labor_rate_eur_per_h := Dyn.Float i.(labor_rate_eur_per_h);
     Dyn.risk_ratio := Dyn.Float i.(risk_ratio);
     Dyn.markup_ratio := Dyn.Float i.(markup_ratio);
     Dyn.friend_discount_ratio := Dyn.Float i.(friend_discount_ratio);
     Dyn.packaging_shipping_eur := Dyn.Float i.(packaging_shipping_eur);
     Dyn.min_fee_eur := Dyn.Float i.(min_fee_eur);
     Dyn.purge_waste_g := Dyn.Float i.(purge_waste_g) |}.

(** A dictionary of floats as a dictionary of numbers. *)
Definition floats_as_numdict (d : dict) : Dyn.numdict :=
  map (fun kv => (fst kv, Dyn.Float (snd kv))) d.



(** The scenario with an int of 513 bits for the power and for the print
    time: their product, an exact int, is beyond the range of binary64. *)
Definition page_scenario_huge_product : Dyn.PricingInputs :=
  {| Dyn.filament_used_g := Dyn.Int 100;
     Dyn.print_time_h := Dyn.Int (2 ^ 512);
     Dyn.filament_eur_per_kg := Dyn.Float 22.0;
     Dyn.electricity_eur_per_kwh := Dyn.Float 0.25;
     Dyn.avg_power_w := Dyn.Int (2 ^ 512);
     Dyn.depreciation_eur_per_h := Dyn.Float 0.5;
     Dyn.consumables_ratio := Dyn.Float 0.05;
     Dyn.labor_hours := Dyn.Float 1.0;
     Dyn.labor_rate_eur_per_h := Dyn.Float 30.0;
     Dyn.risk_ratio := Dyn.Float 0.10;
     Dyn.markup_ratio := Dyn.Float 0.0;
     Dyn.friend_discount_ratio := Dyn.Float 0.20;
     Dyn.packaging_shipping_eur := Dyn.Float 0.0;
     Dyn.min_fee_eur := Dyn.Float 10.0;
     Dyn.purge_waste_g := Dyn.Int 0 |}.

(** A property of all fifteen fields of a record of numbers. *)
Definition all_number_fields (P : Dyn.num -> Prop) (i : Dyn.PricingInputs) : Prop :=
  P i.(Dyn.filament_used_g) /\ P i.(Dyn.print_time_h) /\
  P i.(Dyn.filament_eur_per_kg) /\ P i.(Dyn.electricity_eur_per_kwh) /\
  P i.(Dyn.avg_power_w) /\ P i.(Dyn.depreciation_eur_per_h) /\
  P i.(Dyn.consumables_ratio) /\ P i.(Dyn.labor_hours) /\
  P i.(Dyn.labor_rate_eur_per_h) /\ P i.(Dyn.risk_ratio) /\
  P i.(Dyn.markup_ratio) /\ P i.(Dyn.friend_discount_ratio) /\
  P i.(Dyn.packaging_shipping_eur) /\ P i.(Dyn.min_fee_eur) /\
  P i.(Dyn.purge_waste_g).


(** An int of magnitude at most [bound], or any float. *)
Definition within (bound : Z) (a : Dyn.num) : Prop :=
  match a with
  | Dyn.Int n => (Z.abs n <= bound)%Z
  | Dyn.Float _ => True
  end.


(** ** Auxiliary definitions for the binary64 rounding facts *)

Local Open Scope Z_scope.

Abbreviation fexp64 := (fexp prec emax).

(** Where [P / Q] lies in the unit interval above its floor [P / Q]. *)
Definition loc_of (P Q : Z) : location :=
  if P mod Q =? 0 then loc_Exact else loc_Inexact (2 * (P mod Q) ?= Q).

(** The outcome of the second, normalising pass of [binary_round_aux]. *)
Definition rne_result (s : bool) (M E : Z) : spec_float :=
  let k2 := fexp64 (Zdigits2 M + E) - E in
  let (M2, E2) := if 0 <? k2 then (M / 2 ^ k2, E + k2) else (M, E) in
  match M2 with
  | Z0 => S754_zero s
  | Zpos m => if E2 <=? emax - prec then S754_finite s m E2 else S754_infinity s
  | Zneg _ => S754_nan
  end.

(** [2^1024] in units of [2^-1074]: above every finite binary64 value. *)
Definition TOP : Z := 2 ^ 2098.

(** The non-negative rational [N / D], in units of [2^-1074], rounded to the
    nearest binary64 value (ties to even), in the same units; [TOP] stands
    for infinity. *)
Definition RN (N D : Z) : Z :=
  let k := Z.max (Zdigits2 (N / D) - 53) 0 in
  Z.min (half_even N (D * 2 ^ k) * 2 ^ k) TOP.

(** Zero of either sign, a positive finite number or plus infinity: the
    floats [x] with [x >= 0]. *)
Definition nn (f : spec_float) : bool :=
  match f with
  | S754_zero _ => true
  | S754_finite s _ _ => negb s
  | S754_infinity s => negb s
  | S754_nan => false
  end.

(** The value of a non-negative float in units of [2^-1074]. *)
Definition ord (f : spec_float) : Z :=
  match f with
  | S754_zero _ => 0
  | S754_finite _ m e => Z.pos m * 2 ^ (e + 1074)
  | S754_infinity _ => TOP
  | S754_nan => 0
  end.

(** Zeros and finite numbers. *)
Definition fin (f : spec_float) : bool :=
  match f with
  | S754_zero _ | S754_finite _ _ _ => true
  | _ => false
  end.

(** Anything but a NaN. *)
Definition notnan (f : spec_float) : bool :=
  match f with S754_nan => false | _ => true end.

(** [ord] on primitive floats. *)
Definition Ord (x : float) : Z := ord (Prim2SF x).

(** The value of [round(x, ndigits)] in units, from the value of [x]. *)
Definition round_units (ndigits : Z) (o : Z) : Z :=
  if o <? TOP
  then RN (half_even (o * 10 ^ ndigits) (2 ^ 1074) * 2 ^ 1074) (10 ^ ndigits)
  else TOP.

(** ** Results and options *)

(** The scenario is the dataclass with its defaults, 100 g and 6 hours. *)
Example scenario_is_default : scenario = PricingInputs_default 100 6.0.
Proof. reflexivity. Qed.

Lemma Ok_inj {A : Type} (a b : A) : Ok a = Ok b -> a = b.
Proof. intros H. exact (f_equal (fun r => match r with Ok x => x | Raise _ => a end) H). Qed.

Lemma Some_float_inj (a b : float) : Some a = Some b -> a = b.
Proof. intros H. exact (f_equal (fun r => match r with Some x => x | None => a end) H). Qed.

(** Two floats that [=?] tells apart are different. *)
Lemma eqb_false_neq (a b : float) : (a =? a)%float = true -> (a =? b)%float = false -> a <> b.
Proof. intros Ha Hab Heq. subst b. congruence. Qed.

Lemma Ok_eq {A : Type} (r : result A) (a b : A) : r = Ok a -> r = Ok b -> a = b.
Proof. intros H1 H2. rewrite H1 in H2. apply Ok_inj. exact H2. Qed.

(** ** Binary64 rounding facts *)

Lemma digits2_pos_size p : digits2_pos p = Pos.size p.
Proof. induction p; simpl; congruence. Qed.

Lemma Zdigits2_bounds m : 0 < m -> 2 ^ (Zdigits2 m - 1) <= m < 2 ^ Zdigits2 m.
Proof.
  destruct m as [|p|p]; try lia. intros _. simpl Zdigits2.
  rewrite digits2_pos_size.
  pose proof (Pos.size_gt p) as Hgt. pose proof (Pos.size_le p) as Hle.
  split.
  - assert (H : (2 ^ Z.pos (Pos.size p) <= 2 * Z.pos p)).
    { rewrite <- Pos2Z.inj_pow. change (2 * Z.pos p) with (Z.pos p~0). lia. }
    replace (Z.pos (Pos.size p)) with (Z.succ (Z.pos (Pos.size p) - 1)) in H by lia.
    rewrite Z.pow_succ_r in H by lia. lia.
  - rewrite <- Pos2Z.inj_pow. lia.
Qed.

Lemma Zdigits2_nonneg m : 0 <= Zdigits2 m.
Proof. destruct m; simpl; lia. Qed.

Lemma Zdigits2_pos m : 0 < m -> 0 < Zdigits2 m.
Proof. destruct m; simpl; lia. Qed.

Lemma Zdigits2_unique m d : 0 < m -> 2 ^ (d - 1) <= m < 2 ^ d -> Zdigits2 m = d.
Proof.
  intros Hm [Hlo Hhi]. pose proof (Zdigits2_bounds m Hm) as [Hlo' Hhi'].
  pose proof (Zdigits2_pos m Hm).
  assert (0 < d).
  { destruct (Z_lt_le_dec 0 d) as [|Hd]; auto.
    destruct (Z.eq_dec d 0) as [->|Hne]; [simpl in Hhi; lia|].
    rewrite Z.pow_neg_r in Hhi by lia. lia. }
  destruct (Z.lt_trichotomy (Zdigits2 m) d) as [Hlt|[Heq|Hgt]]; auto.
  - assert (2 ^ Zdigits2 m <= 2 ^ (d - 1)) by (apply Z.pow_le_mono_r; lia). lia.
  - assert (2 ^ d <= 2 ^ (Zdigits2 m - 1)) by (apply Z.pow_le_mono_r; lia). lia.
Qed.

Lemma shr_1_nonneg m r s :
  0 <= m -> shr_1 (Build_shr_record m r s) = Build_shr_record (m / 2) (Z.odd m) (r || s).
Proof.
  intros Hm. rewrite <- Z.div2_div.
  destruct m as [|[p|p|]|p]; try lia; reflexivity.
Qed.

Lemma shr_1_loc P Q :
  0 <= P -> 0 < Q ->
  shr_1 (shr_record_of_loc (P / Q) (loc_of P Q))
  = shr_record_of_loc (P / (2 * Q)) (loc_of P (2 * Q)).
Proof.
  intros HP HQ.
  assert (Hm : 0 <= P / Q) by (apply Z.div_pos; lia).
  pose proof (Z.mod_pos_bound P Q HQ) as Hr.
  assert (Hdiv : P / (2 * Q) = P / Q / 2) by (rewrite Z.div_div by lia; f_equal; lia).
  assert (Hmod : P mod (2 * Q) = P mod Q + Q * ((P / Q) mod 2)).
  { rewrite (Z.mul_comm 2 Q). apply Z.rem_mul_r; lia. }
  pose proof (Z.mod_pos_bound (P / Q) 2 ltac:(lia)) as Hb.
  pose proof (Zodd_mod (P / Q)) as Hodd.
  unfold loc_of at 2. rewrite Hmod, Hdiv.
  set (m := P / Q) in *. set (r := P mod Q) in *.
  assert (Hsh : forall l, shr_1 (shr_record_of_loc m l)
           = Build_shr_record (m / 2) (Z.odd m)
               (match l with loc_Exact => false | _ => true end)).
  { intros l. destruct l as [|[]]; unfold shr_record_of_loc;
      rewrite shr_1_nonneg by lia; reflexivity. }
  rewrite Hsh, Hodd. unfold loc_of. fold r.
  destruct (Z.eqb_spec (m mod 2) 1) as [H1|H1].
  - rewrite H1.
    destruct (Z.eqb_spec r 0) as [H0|H0].
    + destruct (Z.eqb_spec (r + Q * 1) 0); try lia.
      replace (2 * (r + Q * 1) ?= 2 * Q) with Eq by (symmetry; apply Z.compare_eq_iff; lia).
      reflexivity.
    + destruct (Z.eqb_spec (r + Q * 1) 0); try lia.
      replace (2 * (r + Q * 1) ?= 2 * Q) with Gt by (symmetry; apply Z.compare_gt_iff; lia).
      reflexivity.
  - assert (H2 : m mod 2 = 0) by lia. rewrite H2.
    replace (r + Q * 0) with r by lia.
    destruct (Z.eqb_spec r 0) as [H0|H0]; [reflexivity|].
    replace (2 * r ?= 2 * Q) with Lt by (symmetry; apply Z.compare_lt_iff; lia).
    reflexivity.
Qed.

Lemma iter_pos_nat {A} (f : A -> A) p x : iter_pos f p x = Nat.iter (Pos.to_nat p) f x.
Proof.
  revert x. induction p as [p IH|p IH|]; intros x; simpl iter_pos.
  - rewrite !IH, Pos2Nat.inj_xI. 
    replace (S (2 * Pos.to_nat p))%nat with (Pos.to_nat p + (Pos.to_nat p + 1))%nat by lia.
    rewrite !Nat.iter_add. reflexivity.
  - rewrite !IH, Pos2Nat.inj_xO.
    replace (2 * Pos.to_nat p)%nat with (Pos.to_nat p + Pos.to_nat p)%nat by lia.
    rewrite Nat.iter_add. reflexivity.
  - reflexivity.
Qed.

Lemma iter_shr_1_loc n P Q :
  0 <= P -> 0 < Q ->
  Nat.iter n shr_1 (shr_record_of_loc (P / Q) (loc_of P Q))
  = shr_record_of_loc (P / (2 ^ Z.of_nat n * Q)) (loc_of P (2 ^ Z.of_nat n * Q)).
Proof.
  intros HP HQ. induction n as [|n IH].
  - change (2 ^ Z.of_nat 0) with 1. rewrite Z.mul_1_l. reflexivity.
  - rewrite Nat.iter_succ, IH.
    assert (0 < 2 ^ Z.of_nat n) by (apply Z.pow_pos_nonneg; lia).
    rewrite shr_1_loc by nia.
    rewrite Nat2Z.inj_succ, Z.pow_succ_r by lia.
    rewrite !Z.mul_assoc. reflexivity.
Qed.

Lemma shr_loc P Q e k :
  0 <= P -> 0 < Q -> 0 <= k ->
  shr (shr_record_of_loc (P / Q) (loc_of P Q)) e k
  = (shr_record_of_loc (P / (2 ^ k * Q)) (loc_of P (2 ^ k * Q)), e + k).
Proof.
  intros HP HQ Hk. destruct k as [|p|p]; try lia.
  - change (2 ^ 0) with 1. rewrite Z.mul_1_l, Z.add_0_r. reflexivity.
  - unfold shr. rewrite iter_pos_nat, iter_shr_1_loc by assumption.
    rewrite positive_nat_Z. reflexivity.
Qed.

Lemma shr_m_of_loc m l : shr_m (shr_record_of_loc m l) = m.
Proof. destruct l as [|[]]; reflexivity. Qed.

Lemma loc_of_shr_record_of_loc m l : loc_of_shr_record (shr_record_of_loc m l) = l.
Proof. destruct l as [|[]]; reflexivity. Qed.

Lemma fexp64_eq e : fexp64 e = Z.max (e - 53) (-1074).
Proof. reflexivity. Qed.

Lemma fexp64_mono a b : a <= b -> fexp64 a <= fexp64 b.
Proof. rewrite !fexp64_eq. lia. Qed.

Lemma half_even_rne P Q :
  0 < Q -> round_nearest_even (P / Q) (loc_of P Q) = half_even P Q.
Proof.
  intros HQ. unfold half_even, loc_of, Z.div, Z.modulo.
  pose proof (Z_div_mod P Q ltac:(lia)) as H.
  destruct (Z.div_eucl P Q) as [d r]. destruct H as [_ Hr].
  destruct (Z.eqb_spec r 0) as [->|Hne].
  - destruct Q; try lia. reflexivity.
  - simpl. destruct (2 * r ?= Q); reflexivity.
Qed.

Lemma half_even_bounds P Q :
  0 < Q -> P / Q <= half_even P Q <= P / Q + 1.
Proof.
  intros HQ. rewrite <- half_even_rne by assumption.
  destruct (loc_of P Q) as [|[]]; simpl; try lia.
  destruct (Z.even (P / Q)); lia.
Qed.

Lemma loc_of_1 M : loc_of M 1 = loc_Exact.
Proof. unfold loc_of. rewrite Z.mod_1_r. reflexivity. Qed.

Lemma shr_fexp_loc P Q e :
  0 <= P -> 0 < Q ->
  shr_fexp prec emax (P / Q) e (loc_of P Q) =
  let k := fexp64 (Zdigits2 (P / Q) + e) - e in
  if 0 <? k then (shr_record_of_loc (P / (2 ^ k * Q)) (loc_of P (2 ^ k * Q)), e + k)
  else (shr_record_of_loc (P / Q) (loc_of P Q), e).
Proof.
  intros HP HQ. unfold shr_fexp. cbv zeta.
  destruct (Z.ltb_spec 0 (fexp64 (Zdigits2 (P / Q) + e) - e)) as [Hk|Hk].
  - apply shr_loc; lia.
  - unfold shr. destruct (fexp64 (Zdigits2 (P / Q) + e) - e); try reflexivity. lia.
Qed.

Lemma binary_round_aux_spec s P Q ex :
  0 <= P -> 0 < Q ->
  ex <= fexp64 (Zdigits2 (P / Q) + ex) ->
  binary_round_aux prec emax s (P / Q) ex (loc_of P Q)
  = rne_result s (half_even P (2 ^ (fexp64 (Zdigits2 (P / Q) + ex) - ex) * Q))
                 (fexp64 (Zdigits2 (P / Q) + ex)).
Proof.
  intros HP HQ Hpre. unfold binary_round_aux.
  rewrite shr_fexp_loc by assumption. cbv zeta.
  set (E := fexp64 (Zdigits2 (P / Q) + ex)) in *.
  assert (Hfirst : (if 0 <? E - ex
            then (shr_record_of_loc (P / (2 ^ (E - ex) * Q)) (loc_of P (2 ^ (E - ex) * Q)), ex + (E - ex))
            else (shr_record_of_loc (P / Q) (loc_of P Q), ex))
          = (shr_record_of_loc (P / (2 ^ (E - ex) * Q)) (loc_of P (2 ^ (E - ex) * Q)), E)).
  { destruct (Z.ltb_spec 0 (E - ex)).
    - f_equal. lia.
    - replace (E - ex) with 0 by lia. change (2 ^ 0) with 1. rewrite Z.mul_1_l.
      f_equal. lia. }
  rewrite Hfirst. clear Hfirst.
  rewrite shr_m_of_loc, loc_of_shr_record_of_loc.
  assert (HQ' : 0 < 2 ^ (E - ex) * Q).
  { apply Z.mul_pos_pos; [apply Z.pow_pos_nonneg; lia | lia]. }
  rewrite half_even_rne by assumption.
  set (M := half_even P (2 ^ (E - ex) * Q)).
  assert (HM : 0 <= M).
  { pose proof (half_even_bounds P _ HQ'). 
    assert (0 <= P / (2 ^ (E - ex) * Q)) by (apply Z.div_pos; lia). unfold M. lia. }
  rewrite <- (Z.div_1_r M) at 1 2. rewrite <- (loc_of_1 M).
  rewrite shr_fexp_loc by lia. cbv zeta.
  rewrite (Z.div_1_r M). unfold rne_result.
  destruct (Z.ltb_spec 0 (fexp64 (Zdigits2 M + E) - E)).
  - rewrite shr_m_of_loc, Z.mul_1_r. reflexivity.
  - rewrite shr_m_of_loc. reflexivity.
Qed.

Lemma Zdigits2_lt_pow m d : 0 <= m -> 0 <= d -> m < 2 ^ d -> Zdigits2 m <= d.
Proof.
  intros Hm Hd Hlt. destruct (Z.eq_dec m 0) as [->|Hne]; [simpl; lia|].
  pose proof (Zdigits2_bounds m ltac:(lia)) as [Hlo _].
  destruct (Z_le_gt_dec (Zdigits2 m) d) as [|Hgt]; auto.
  assert (2 ^ d <= 2 ^ (Zdigits2 m - 1)) by (apply Z.pow_le_mono_r; lia). lia.
Qed.

Lemma Zdigits2_ge_pow m d : 0 <= d -> 2 ^ d <= m -> d + 1 <= Zdigits2 m.
Proof.
  intros Hd Hle.
  assert (0 < 2 ^ d) by (apply Z.pow_pos_nonneg; lia).
  pose proof (Zdigits2_bounds m ltac:(lia)) as [_ Hhi].
  pose proof (Zdigits2_pos m ltac:(lia)).
  destruct (Z_le_gt_dec (d + 1) (Zdigits2 m)) as [|Hgt]; auto.
  assert (2 ^ Zdigits2 m <= 2 ^ d) by (apply Z.pow_le_mono_r; lia). lia.
Qed.

Lemma Zdigits2_mono a b : 0 <= a <= b -> Zdigits2 a <= Zdigits2 b.
Proof.
  intros [Ha Hab]. destruct (Z.eq_dec a 0) as [->|Hne].
  - apply Zdigits2_nonneg.
  - pose proof (Zdigits2_bounds a ltac:(lia)) as [Hlo _].
    pose proof (Zdigits2_pos a ltac:(lia)).
    pose proof (Zdigits2_ge_pow b (Zdigits2 a - 1) ltac:(lia) ltac:(lia)). lia.
Qed.

Lemma Zdigits2_div_pow2 m k :
  0 <= k -> 0 < m / 2 ^ k -> Zdigits2 (m / 2 ^ k) = Zdigits2 m - k.
Proof.
  intros Hk Hpos.
  assert (H2k : 0 < 2 ^ k) by (apply Z.pow_pos_nonneg; lia).
  assert (Hm : 0 < m).
  { destruct (Z_lt_le_dec 0 m); auto.
    assert (m / 2 ^ k <= 0) by (apply Z.div_le_upper_bound; lia). lia. }
  pose proof (Zdigits2_bounds m Hm) as [Hlo Hhi].
  assert (Hge : 2 ^ k <= m).
  { destruct (Z_le_gt_dec (2 ^ k) m); auto. rewrite Z.div_small in Hpos; lia. }
  pose proof (Zdigits2_ge_pow m k Hk Hge) as Hd.
  apply Zdigits2_unique; auto. split.
  - apply Z.div_le_lower_bound; auto.
    rewrite <- Z.pow_add_r by lia. replace (k + (Zdigits2 m - k - 1)) with (Zdigits2 m - 1) by lia.
    assumption.
  - apply Z.div_lt_upper_bound; auto.
    rewrite <- Z.pow_add_r by lia. replace (k + (Zdigits2 m - k)) with (Zdigits2 m) by lia.
    assumption.
Qed.

Lemma Zdigits2_pow2 j : 0 <= j -> Zdigits2 (2 ^ j) = j + 1.
Proof.
  intros Hj. apply Zdigits2_unique.
  - apply Z.pow_pos_nonneg; lia.
  - replace (j + 1 - 1) with j by lia. split; [lia|].
    apply Z.pow_lt_mono_r; lia.
Qed.

Lemma rne_result_shape s M E :
  0 <= M ->
  (rne_result s M E = S754_zero s) \/
  (exists m e, rne_result s M E = S754_finite s m e) \/
  (rne_result s M E = S754_infinity s).
Proof.
  intros HM. unfold rne_result.
  set (k2 := fexp64 (Zdigits2 M + E) - E).
  destruct (Z.ltb_spec 0 k2) as [Hk|Hk]; cbv iota beta.
  - assert (H : 0 <= M / 2 ^ k2).
    { apply Z.div_pos; auto. apply Z.pow_pos_nonneg; lia. }
    destruct (M / 2 ^ k2) as [|m|m]; try lia; auto.
    destruct (E + k2 <=? emax - prec); eauto.
  - destruct M as [|m|m]; try lia; auto.
    destruct (E <=? emax - prec); eauto.
Qed.

Lemma rne_result_valid s M E :
  0 <= M -> E <= fexp64 (Zdigits2 M + E) ->
  valid_binary (rne_result s M E) = true.
Proof.
  intros HM HE. unfold rne_result.
  set (k2 := fexp64 (Zdigits2 M + E) - E).
  destruct (Z.ltb_spec 0 k2) as [Hk|Hk].
  - destruct (M / 2 ^ k2) as [|m|m] eqn:HM2; try reflexivity.
    destruct (Z.leb_spec (E + k2) (emax - prec)) as [Hb|Hb]; try reflexivity.
    unfold valid_binary, bounded, canonical_mantissa.
    change (Z.pos (digits2_pos m)) with (Zdigits2 (Z.pos m)).
    rewrite <- HM2, Zdigits2_div_pow2 by lia.
    apply andb_true_intro. split; [apply Z.eqb_eq | apply Z.leb_le; lia].
    replace (Zdigits2 M - k2 + (E + k2)) with (Zdigits2 M + E) by lia. unfold k2. lia.
  - destruct M as [|m|m]; try reflexivity.
    destruct (Z.leb_spec E (emax - prec)) as [Hb|Hb]; try reflexivity.
    unfold valid_binary, bounded, canonical_mantissa.
    change (Z.pos (digits2_pos m)) with (Zdigits2 (Z.pos m)).
    apply andb_true_intro. split; [apply Z.eqb_eq | apply Z.leb_le; lia].
    unfold k2 in Hk. lia.
Qed.

Lemma rne_result_no_overflow s M E :
  0 <= M -> Zdigits2 M + E <= 1024 -> E <= 971 ->
  rne_result s M E <> S754_infinity s.
Proof.
  intros HM HD HE. unfold rne_result.
  set (k2 := fexp64 (Zdigits2 M + E) - E).
  assert (Hk2 : E + k2 <= 971) by (unfold k2; rewrite fexp64_eq; lia).
  destruct (Z.ltb_spec 0 k2) as [Hk|Hk].
  - destruct (M / 2 ^ k2) as [|m|m]; try discriminate.
    destruct (Z.leb_spec (E + k2) (emax - prec)) as [Hb|Hb]; try discriminate.
    change (emax - prec) with 971 in Hb. lia.
  - destruct M as [|m|m]; try discriminate.
    destruct (Z.leb_spec E (emax - prec)) as [Hb|Hb]; try discriminate.
    change (emax - prec) with 971 in Hb. lia.
Qed.

(** Facts on the rounded mantissa of [binary_round_aux_spec]. *)
Section RoundedMantissa.
Variables (P Q ex : Z).
Hypothesis HP : 0 <= P.
Hypothesis HQ : 0 < Q.
Hypothesis Hpre : ex <= fexp64 (Zdigits2 (P / Q) + ex).

Let E := fexp64 (Zdigits2 (P / Q) + ex).
Let M := half_even P (2 ^ (E - ex) * Q).

Lemma rounded_mantissa_nonneg : 0 <= M.
Proof.
  assert (0 < 2 ^ (E - ex) * Q).
  { apply Z.mul_pos_pos; [apply Z.pow_pos_nonneg; unfold E; lia | lia]. }
  pose proof (half_even_bounds P _ H).
  assert (0 <= P / (2 ^ (E - ex) * Q)) by (apply Z.div_pos; lia).
  unfold M. lia.
Qed.

Lemma rounded_mantissa_digits :
  E <= fexp64 (Zdigits2 M + E) /\ Zdigits2 M + E <= Z.max (Zdigits2 (P / Q) + ex + 1) (-1073).
Proof.
  assert (Hk : 0 <= E - ex) by (unfold E; lia).
  assert (H2k : 0 < 2 ^ (E - ex)) by (apply Z.pow_pos_nonneg; lia).
  assert (HQ' : 0 < 2 ^ (E - ex) * Q) by (apply Z.mul_pos_pos; lia).
  pose proof (half_even_bounds P _ HQ') as HM. fold M in HM.
  assert (Hdd : P / (2 ^ (E - ex) * Q) = P / Q / 2 ^ (E - ex)).
  { rewrite Z.div_div by lia. f_equal. lia. }
  rewrite Hdd in HM.
  assert (Hq : 0 <= P / Q) by (apply Z.div_pos; lia).
  set (q := P / Q) in *.
  assert (HM1 : 0 <= q / 2 ^ (E - ex)) by (apply Z.div_pos; lia).
  destruct (Z.eq_dec (q / 2 ^ (E - ex)) 0) as [H0|H0].
  - (* everything was shifted out: only the subnormal exponent is possible *)
    assert (Hlt : q < 2 ^ (E - ex)).
    { destruct (Z_lt_le_dec q (2 ^ (E - ex))); auto.
      assert (1 <= q / 2 ^ (E - ex)) by (apply Z.div_le_lower_bound; lia). lia. }
    pose proof (Zdigits2_lt_pow q (E - ex) Hq Hk Hlt) as Hd.
    assert (HE : E = -1074) by (unfold E in *; rewrite fexp64_eq in *; lia).
    assert (HMd : Zdigits2 M <= 1).
    { apply Zdigits2_lt_pow; try lia. }
    pose proof (Zdigits2_nonneg M).
    rewrite fexp64_eq. lia.
  - pose proof (Zdigits2_div_pow2 q (E - ex) Hk ltac:(lia)) as Hd.
    pose proof (Zdigits2_mono (q / 2 ^ (E - ex)) M ltac:(lia)) as Hmono.
    split.
    + transitivity (fexp64 (Zdigits2 (q / 2 ^ (E - ex)) + E)).
      * rewrite Hd. replace (Zdigits2 q - (E - ex) + E) with (Zdigits2 q + ex) by lia.
        unfold E. lia.
      * apply fexp64_mono. lia.
    + assert (Zdigits2 M <= Zdigits2 q - (E - ex) + 1).
      { pose proof (Zdigits2_bounds (q / 2 ^ (E - ex)) ltac:(lia)) as [_ Hhi].
        rewrite Hd in Hhi.
        pose proof (Zdigits2_pos (q / 2 ^ (E - ex)) ltac:(lia)).
        destruct (Z.eq_dec M (2 ^ (Zdigits2 q - (E - ex)))) as [->|Hne].
        - rewrite Zdigits2_pow2 by lia. lia.
        - assert (Zdigits2 M <= Zdigits2 q - (E - ex)); [|lia].
          apply Zdigits2_lt_pow; lia. }
      lia.
Qed.
End RoundedMantissa.

Lemma binary_round_aux_shape s P Q ex :
  0 <= P -> 0 < Q -> ex <= fexp64 (Zdigits2 (P / Q) + ex) ->
  let r := binary_round_aux prec emax s (P / Q) ex (loc_of P Q) in
  r = S754_zero s \/ (exists m e, r = S754_finite s m e) \/ r = S754_infinity s.
Proof.
  intros HP HQ Hpre. cbv zeta. rewrite binary_round_aux_spec by assumption.
  apply rne_result_shape. apply rounded_mantissa_nonneg; assumption.
Qed.

Lemma binary_round_aux_valid s P Q ex :
  0 <= P -> 0 < Q -> ex <= fexp64 (Zdigits2 (P / Q) + ex) ->
  valid_binary (binary_round_aux prec emax s (P / Q) ex (loc_of P Q)) = true.
Proof.
  intros HP HQ Hpre. rewrite binary_round_aux_spec by assumption.
  apply rne_result_valid.
  - apply rounded_mantissa_nonneg; assumption.
  - apply rounded_mantissa_digits; assumption.
Qed.

Lemma binary_round_aux_no_overflow s P Q ex :
  0 <= P -> 0 < Q -> ex <= fexp64 (Zdigits2 (P / Q) + ex) ->
  Zdigits2 (P / Q) + ex <= 1023 ->
  binary_round_aux prec emax s (P / Q) ex (loc_of P Q) <> S754_infinity s.
Proof.
  intros HP HQ Hpre Hd. rewrite binary_round_aux_spec by assumption.
  pose proof (rounded_mantissa_digits P Q ex HP HQ Hpre) as [_ H].
  apply rne_result_no_overflow.
  - apply rounded_mantissa_nonneg; assumption.
  - lia.
  - rewrite fexp64_eq. lia.
Qed.

(** ** Division *)

Lemma new_location_loc_of Q r :
  0 < Q -> 0 <= r < Q ->
  new_location Q r = if r =? 0 then loc_Exact else loc_Inexact (2 * r ?= Q).
Proof.
  intros HQ Hr. unfold new_location, new_location_even, new_location_odd.
  destruct (Z.even Q) eqn:Hev; destruct (Z.eqb_spec r 0) as [->|Hne]; try reflexivity.
  f_equal.
  assert (Hodd : Z.odd Q = true) by (rewrite <- Z.negb_even, Hev; reflexivity).
  apply Z.odd_spec in Hodd. destruct Hodd as [j Hj].
  destruct (Z.compare_spec (2 * r + 1) Q) as [H|H|H];
    symmetry; [apply Z.compare_lt_iff | apply Z.compare_lt_iff | apply Z.compare_gt_iff]; lia.
Qed.

Lemma SFdiv_core_binary_spec m1 e1 m2 e2 :
  0 < m1 -> 0 < m2 ->
  let e' := Z.min (fexp64 (Zdigits2 m1 + e1 - (Zdigits2 m2 + e2))) (e1 - e2) in
  let P := m1 * 2 ^ (e1 - e2 - e') in
  SFdiv_core_binary prec emax m1 e1 m2 e2 = (P / m2, e', loc_of P m2)
  /\ e' <= fexp64 (Zdigits2 (P / m2) + e').
Proof.
  intros H1 H2 e' P.
  assert (Hs : 0 <= e1 - e2 - e') by (unfold e'; lia).
  assert (H2s : 0 < 2 ^ (e1 - e2 - e')) by (apply Z.pow_pos_nonneg; lia).
  assert (HP : 0 < P) by (unfold P; nia).
  split.
  - unfold SFdiv_core_binary. fold e'.
    assert (Hm' : match e1 - e2 - e' with
                  | Z.pos _ => Z.shiftl m1 (e1 - e2 - e')
                  | 0 => m1
                  | Z.neg _ => 0
                  end = P).
    { unfold P. destruct (e1 - e2 - e') as [|p|p] eqn:Hsd; [ | | lia].
      - change (2 ^ 0) with 1. lia.
      - rewrite Z.shiftl_mul_pow2 by lia. reflexivity. }
    rewrite Hm'. unfold Z.div, Z.modulo, loc_of.
    pose proof (Z_div_mod P m2 ltac:(lia)) as Hdm.
    unfold Z.modulo. destruct (Z.div_eucl P m2) as [q r]. destruct Hdm as [_ Hr].
    rewrite new_location_loc_of by lia. reflexivity.
  - pose proof (Zdigits2_bounds m1 H1) as [Hlo1 Hhi1].
    pose proof (Zdigits2_bounds m2 H2) as [Hlo2 Hhi2].
    pose proof (Zdigits2_pos m1 H1) as Hd1. pose proof (Zdigits2_pos m2 H2) as Hd2.
    set (d1 := Zdigits2 m1) in *. set (d2 := Zdigits2 m2) in *.
    set (s := e1 - e2 - e') in *.
    assert (HPlo : 2 ^ (d1 - 1 + s) <= P).
    { unfold P. rewrite Z.pow_add_r by lia. nia. }
    assert (Hq : 0 <= P / m2) by (apply Z.div_pos; lia).
    destruct (Z_lt_le_dec (d1 + s) (d2 + 1)) as [Hsmall|Hbig].
    + (* the quotient may vanish: then [e'] is below the subnormal exponent *)
      pose proof (Zdigits2_nonneg (P / m2)).
      assert (He' : e' = Z.min (Z.max (d1 + e1 - (d2 + e2) - 53) (-1074)) (e1 - e2))
        by reflexivity.
      rewrite fexp64_eq. unfold s in *. clearbody e'. lia.
    + assert (Hql : 2 ^ (d1 + s - d2 - 1) <= P / m2).
      { apply Z.div_le_lower_bound; [lia|].
        transitivity (2 ^ d2 * 2 ^ (d1 + s - d2 - 1)).
        - apply Z.mul_le_mono_nonneg_r; [apply Z.pow_nonneg|]; lia.
        - rewrite <- Z.pow_add_r by lia.
          replace (d2 + (d1 + s - d2 - 1)) with (d1 - 1 + s) by lia. assumption. }
      pose proof (Zdigits2_ge_pow (P / m2) (d1 + s - d2 - 1) ltac:(lia) Hql) as Hdq.
      transitivity (fexp64 (d1 + e1 - (d2 + e2))); [unfold e'; lia|].
      apply fexp64_mono. unfold s in *. lia.
Qed.

Lemma SFdiv_finite_spec sx mx ex sy my ey :
  exists P e',
    0 < P /\ e' <= fexp64 (Zdigits2 (P / Z.pos my) + e') /\
    e' <= ex - ey /\ P = Z.pos mx * 2 ^ (ex - ey - e') /\
    SFdiv prec emax (S754_finite sx mx ex) (S754_finite sy my ey)
    = binary_round_aux prec emax (xorb sx sy) (P / Z.pos my) e' (loc_of P (Z.pos my)).
Proof.
  pose proof (SFdiv_core_binary_spec (Z.pos mx) ex (Z.pos my) ey ltac:(lia) ltac:(lia)) as H.
  cbv zeta in H. destruct H as [Hcore Hpre].
  eexists _, _. split; [|split; [exact Hpre|split; [|split; [reflexivity|]]]].
  - apply Z.mul_pos_pos; [lia|]. apply Z.pow_pos_nonneg; lia.
  - lia.
  - unfold SFdiv. rewrite Hcore. reflexivity.
Qed.

(** ** [round] never raises for a non-negative number of digits *)

Lemma half_even_exact a b : 0 < b -> half_even (a * b) b = a.
Proof.
  intros Hb. rewrite <- half_even_rne by assumption.
  unfold loc_of. rewrite Z.mod_mul, Z.div_mul by lia. reflexivity.
Qed.

Lemma half_even_1 a : half_even a 1 = a.
Proof. rewrite <- (Z.mul_1_r a) at 1. apply half_even_exact. lia. Qed.

Lemma Zdigits2_mul_pow2 m j : 0 < m -> 0 <= j -> Zdigits2 (m * 2 ^ j) = Zdigits2 m + j.
Proof.
  intros Hm Hj. pose proof (Zdigits2_bounds m Hm) as [Hlo Hhi].
  pose proof (Zdigits2_pos m Hm).
  assert (0 < 2 ^ j) by (apply Z.pow_pos_nonneg; lia).
  apply Zdigits2_unique; [nia|].
  replace (Zdigits2 m + j - 1) with (Zdigits2 m - 1 + j) by lia.
  rewrite !Z.pow_add_r by lia. nia.
Qed.

Lemma bounded_inv m e :
  bounded prec emax m e = true ->
  fexp64 (Zdigits2 (Z.pos m) + e) = e /\ e <= 971 /\ Z.pos m < 2 ^ 53 /\ -1074 <= e.
Proof.
  unfold bounded, canonical_mantissa. intros H.
  apply andb_prop in H. destruct H as [Hc Hb].
  apply Z.eqb_eq in Hc. apply Z.leb_le in Hb. change (emax - prec) with 971 in Hb.
  change (Z.pos (digits2_pos m)) with (Zdigits2 (Z.pos m)) in Hc.
  pose proof (Zdigits2_bounds (Z.pos m) ltac:(lia)) as [_ Hhi].
  rewrite fexp64_eq in *.
  assert (Zdigits2 (Z.pos m) <= 53) by lia.
  assert (2 ^ Zdigits2 (Z.pos m) <= 2 ^ 53) by (apply Z.pow_le_mono_r; lia).
  repeat split; lia.
Qed.

Lemma rne_result_canonical s m e :
  bounded prec emax m e = true -> rne_result s (Z.pos m) e = S754_finite s m e.
Proof.
  intros Hb. pose proof (bounded_inv m e Hb) as (Hc & He & _).
  unfold rne_result. rewrite Hc, Z.sub_diag. cbn [Z.ltb Z.compare].
  change (emax - prec) with 971.
  destruct (Z.leb_spec e 971); [reflexivity | lia].
Qed.

Lemma strtod_exact s m e nd :
  bounded prec emax m e = true -> 0 <= e -> 0 <= nd ->
  strtod s (Z.pos m * 2 ^ e * 10 ^ nd) nd = Ok (SF2Prim (S754_finite s m e)).
Proof.
  intros Hb He Hnd. pose proof (bounded_inv m e Hb) as (Hc & Hle & _).
  assert (H2e : 0 < 2 ^ e) by (apply Z.pow_pos_nonneg; lia).
  assert (H10 : 0 < 10 ^ nd) by (apply Z.pow_pos_nonneg; lia).
  assert (Hn : 0 < Z.pos m * 2 ^ e * 10 ^ nd) by nia.
  unfold strtod. destruct (Z.pos m * 2 ^ e * 10 ^ nd) as [|p|p] eqn:Hp; try lia.
  replace (Z.max (- nd) 0) with 0 by lia. replace (Z.max nd 0) with nd by lia.
  change (Z.to_pos (10 ^ 0)) with 1%positive.
  rewrite Pos.mul_1_r.
  destruct (SFdiv_finite_spec s p 0 false (Z.to_pos (10 ^ nd)) 0)
    as (P & e' & HP & Hpre & He' & HPeq & Hdiv).
  rewrite Hdiv. rewrite Z2Pos.id in * by lia.
  assert (HPm : P = Z.pos m * 2 ^ (e - e') * 10 ^ nd).
  { rewrite HPeq, <- Hp. replace (0 - 0 - e') with (- e') by lia.
    replace (e - e') with (e + - e') by lia. rewrite Z.pow_add_r by lia. ring. }
  assert (Hq : P / 10 ^ nd = Z.pos m * 2 ^ (e - e')).
  { rewrite HPm. apply Z.div_mul. lia. }
  rewrite binary_round_aux_spec by lia.
  rewrite Hq in *. rewrite Zdigits2_mul_pow2 by lia.
  replace (Zdigits2 (Z.pos m) + (e - e') + e') with (Zdigits2 (Z.pos m) + e) by lia.
  rewrite Hc.
  replace (half_even P (2 ^ (e - e') * 10 ^ nd)) with (Z.pos m).
  2:{ rewrite HPm, <- Z.mul_assoc. symmetry. apply half_even_exact.
      apply Z.mul_pos_pos; [apply Z.pow_pos_nonneg|]; lia. }
  rewrite xorb_false_r, rne_result_canonical by assumption. reflexivity.
Qed.

Lemma strtod_small s n nd :
  0 <= nd -> 0 <= n < 2 ^ 53 * 10 ^ nd ->
  exists r, strtod s n nd = Ok (SF2Prim r) /\ valid_binary r = true /\
            (r = S754_zero s \/ exists m e, r = S754_finite s m e).
Proof.
  intros Hnd Hn. unfold strtod. destruct n as [|p|p]; try lia.
  - exists (S754_zero s). split; [destruct s; reflexivity | split; [reflexivity | auto]].
  - replace (Z.max (- nd) 0) with 0 by lia. replace (Z.max nd 0) with nd by lia.
    change (Z.to_pos (10 ^ 0)) with 1%positive. rewrite Pos.mul_1_r.
    assert (H10 : 0 < 10 ^ nd) by (apply Z.pow_pos_nonneg; lia).
    destruct (SFdiv_finite_spec s p 0 false (Z.to_pos (10 ^ nd)) 0)
      as (P & e' & HP & Hpre & He' & HPeq & Hdiv).
    rewrite Hdiv. rewrite Z2Pos.id in * by lia. rewrite xorb_false_r.
    replace (0 - 0 - e') with (- e') in HPeq by lia.
    assert (H2e : 0 < 2 ^ (- e')) by (apply Z.pow_pos_nonneg; lia).
    assert (Hq : P / 10 ^ nd < 2 ^ (53 - e')).
    { apply Z.div_lt_upper_bound; [lia|].
      replace (53 - e') with (53 + - e') by lia. rewrite Z.pow_add_r by lia.
      rewrite HPeq. nia. }
    assert (Hq0 : 0 <= P / 10 ^ nd) by (apply Z.div_pos; lia).
    pose proof (Zdigits2_lt_pow _ (53 - e') Hq0 ltac:(lia) Hq) as Hd.
    pose proof (binary_round_aux_valid s P (10 ^ nd) e' ltac:(lia) H10 Hpre) as Hv.
    pose proof (binary_round_aux_no_overflow s P (10 ^ nd) e' ltac:(lia) H10 Hpre ltac:(lia)) as Hno.
    pose proof (binary_round_aux_shape s P (10 ^ nd) e' ltac:(lia) H10 Hpre) as Hsh.
    cbv zeta in Hsh.
    destruct Hsh as [Hz|[(m & e & Hf)|Hi]]; [| |contradiction].
    + rewrite Hz in *. exists (S754_zero s). auto.
    + rewrite Hf in *. exists (S754_finite s m e). eauto 6.
Qed.

Lemma round_finite x s m e nd :
  Prim2SF x = S754_finite s m e -> 0 <= nd ->
  exists r, Py.round x nd = Ok (SF2Prim r) /\ valid_binary r = true /\
            (r = S754_zero s \/ exists m' e', r = S754_finite s m' e').
Proof.
  intros Hx Hnd. unfold Py.round. rewrite Hx.
  pose proof (Prim2SF_valid x) as Hv. rewrite Hx in Hv.
  destruct (Z.ltb_spec 323 nd) as [Hbig|Hbig].
  - exists (S754_finite s m e). rewrite <- Hx, SF2Prim_Prim2SF, Hx. eauto 6.
  - destruct (Z.ltb_spec nd (-308)) as [|_]; [lia|].
    cbn [valid_binary] in Hv. pose proof (bounded_inv m e Hv) as (Hc & Hle & Hm & Hlo).
    assert (H10 : 0 < 10 ^ nd) by (apply Z.pow_pos_nonneg; lia).
    unfold dtoa3. replace (Z.max (- nd) 0) with 0 by lia.
    replace (Z.max nd 0) with nd by lia. change (10 ^ 0) with 1. rewrite Z.mul_1_r.
    destruct (Z_le_gt_dec 0 e) as [He|He].
    + replace (Z.max (- e) 0) with 0 by lia. replace (Z.max e 0) with e by lia.
      change (2 ^ 0) with 1.
      rewrite half_even_1, strtod_exact by assumption.
      exists (S754_finite s m e). eauto 6.
    + replace (Z.max (- e) 0) with (- e) by lia. replace (Z.max e 0) with 0 by lia.
      change (2 ^ 0) with 1. rewrite Z.mul_1_r.
      apply strtod_small; [assumption|].
      assert (H2 : 2 <= 2 ^ (- e)).
      { change 2 with (2 ^ 1) at 1. apply Z.pow_le_mono_r; lia. }
      pose proof (half_even_bounds (Z.pos m * 10 ^ nd) (2 ^ (- e)) ltac:(lia)) as [Hlo' Hhi'].
      assert (0 <= Z.pos m * 10 ^ nd / 2 ^ (- e)) by (apply Z.div_pos; nia).
      assert (Z.pos m * 10 ^ nd / 2 ^ (- e) <= Z.pos m * 10 ^ nd / 2)
        by (apply Z.div_le_compat_l; nia).
      assert (HX : 1 <= Z.pos m * 10 ^ nd) by nia.
      assert (HXm : Z.pos m * 10 ^ nd < 2 ^ 53 * 10 ^ nd) by nia.
      set (X := Z.pos m * 10 ^ nd) in *. clearbody X.
      assert (X / 2 + 1 <= X) by (pose proof (Z.div_mod X 2); pose proof (Z.mod_pos_bound X 2); lia).
      lia.
Qed.

(** [round(x, ndigits)] returns for every float and every [ndigits >= 0];
    non-finite values and zeros round to themselves. *)
Lemma round_total x nd : 0 <= nd -> exists y, Py.round x nd = Ok y.
Proof.
  intros Hnd. destruct (Prim2SF x) as [s|s| |s m e] eqn:Hx.
  1-3: unfold Py.round; rewrite Hx; eauto.
  destruct (round_finite x s m e nd Hx Hnd) as (r & Hr & _). eauto.
Qed.

(** ** Rounding in units of the smallest subnormal *)

Lemma half_even_mono N1 D1 N2 D2 :
  0 < D1 -> 0 < D2 -> N1 * D2 <= N2 * D1 -> half_even N1 D1 <= half_even N2 D2.
Proof.
  intros H1 H2 Hle.
  unfold half_even, Z.div, Z.modulo.
  pose proof (Z_div_mod N1 D1 ltac:(lia)) as E1.
  pose proof (Z_div_mod N2 D2 ltac:(lia)) as E2.
  destruct (Z.div_eucl N1 D1) as [q1 r1]. destruct (Z.div_eucl N2 D2) as [q2 r2].
  destruct E1 as [E1 B1]. destruct E2 as [E2 B2]. subst N1 N2.
  assert (Hq : q1 <= q2).
  { destruct (Z_le_gt_dec q1 q2) as [|Hgt]; auto. exfalso.
    assert (D1 * D2 * (q2 + 1) <= D1 * D2 * q1) by (apply Z.mul_le_mono_nonneg_l; nia).
    nia. }
  destruct (Z.eq_dec q1 q2) as [->|Hne].
  - assert (Hr : r1 * D2 <= r2 * D1) by nia.
    destruct (Z.compare_spec (2 * r1) D1) as [C1|C1|C1];
      destruct (Z.compare_spec (2 * r2) D2) as [C2|C2|C2];
      try destruct (Z.even q2); try lia; exfalso; nia.
  - assert (q1 + 1 <= q2) by lia.
    destruct (2 * r1 ?= D1); destruct (2 * r2 ?= D2);
      try destruct (Z.even q1); try destruct (Z.even q2); lia.
Qed.

Lemma half_even_ext N1 D1 N2 D2 :
  0 < D1 -> 0 < D2 -> N1 * D2 = N2 * D1 -> half_even N1 D1 = half_even N2 D2.
Proof.
  intros H1 H2 Heq. apply Z.le_antisymm; apply half_even_mono; lia.
Qed.

Lemma half_even_le_bound N D B : 0 < D -> N <= B * D -> half_even N D <= B.
Proof.
  intros HD H. rewrite <- (half_even_exact B D HD).
  apply half_even_mono; try lia. apply Z.mul_le_mono_nonneg_r; lia.
Qed.

Lemma half_even_ge_bound N D B : 0 < D -> B * D <= N -> B <= half_even N D.
Proof.
  intros HD H. rewrite <- (half_even_exact B D HD).
  apply half_even_mono; try lia. apply Z.mul_le_mono_nonneg_r; lia.
Qed.

Lemma div_le_cross N1 D1 N2 D2 :
  0 < D1 -> 0 < D2 -> N1 * D2 <= N2 * D1 -> N1 / D1 <= N2 / D2.
Proof.
  intros H1 H2 Hle.
  apply Z.div_le_lower_bound; [lia|].
  pose proof (Z.mul_div_le N1 D1 H1).
  assert (D1 * (D2 * (N1 / D1)) <= D1 * N2) by nia.
  apply Z.mul_le_mono_pos_l with (p := D1); lia.
Qed.

Lemma RN_mono N1 D1 N2 D2 :
  0 <= N1 -> 0 < D1 -> 0 < D2 -> N1 * D2 <= N2 * D1 -> RN N1 D1 <= RN N2 D2.
Proof.
  intros HN1 H1 H2 Hle. unfold RN.
  assert (HN2 : 0 <= N2) by nia.
  pose proof (div_le_cross _ _ _ _ H1 H2 Hle) as HF.
  assert (HF1 : 0 <= N1 / D1) by (apply Z.div_pos; lia).
  pose proof (Zdigits2_mono _ _ (conj HF1 HF)) as Hd.
  set (F1 := N1 / D1) in *. set (F2 := N2 / D2) in *.
  set (k1 := Z.max (Zdigits2 F1 - 53) 0). set (k2 := Z.max (Zdigits2 F2 - 53) 0).
  assert (Hk1 : 0 <= k1) by (unfold k1; lia).
  assert (Hk2 : 0 <= k2) by (unfold k2; lia).
  assert (P1 : 0 < 2 ^ k1) by (apply Z.pow_pos_nonneg; lia).
  assert (P2 : 0 < 2 ^ k2) by (apply Z.pow_pos_nonneg; lia).
  apply Z.min_le_compat_r.
  destruct (Z.eq_dec k1 k2) as [Heq|Hne].
  - rewrite <- Heq. apply Z.mul_le_mono_nonneg_r; [lia|].
    apply half_even_mono; nia.
  - assert (Hlt : k1 < k2) by (unfold k1, k2 in *; lia).
    assert (Hd2 : Zdigits2 F2 = k2 + 53) by (unfold k1, k2 in *; lia).
    assert (Hd1 : Zdigits2 F1 <= k2 + 52) by (unfold k1, k2 in *; lia).
    pose proof (Zdigits2_nonneg F1) as Hd1n.
    (* the first result is at most [2 ^ (k2 + 52)], the second at least that *)
    transitivity (2 ^ (k2 + 52)).
    + assert (HF1lt : F1 < 2 ^ (k2 + 52 - k1) * 2 ^ k1).
      { rewrite <- Z.pow_add_r by lia. replace (k2 + 52 - k1 + k1) with (k2 + 52) by lia.
        destruct (Z.eq_dec F1 0) as [->|Hnz]; [apply Z.pow_pos_nonneg; lia|].
        pose proof (Zdigits2_bounds F1 ltac:(lia)) as [_ Hhi].
        assert (2 ^ Zdigits2 F1 <= 2 ^ (k2 + 52)) by (apply Z.pow_le_mono_r; lia). lia. }
      assert (HN1lt : N1 < 2 ^ (k2 + 52 - k1) * 2 ^ k1 * D1).
      { unfold F1 in HF1lt.
        pose proof (Z.mul_succ_div_gt N1 D1 H1). 
        assert (N1 / D1 + 1 <= 2 ^ (k2 + 52 - k1) * 2 ^ k1) by lia. nia. }
      replace (2 ^ (k2 + 52)) with (2 ^ (k2 + 52 - k1) * 2 ^ k1).
      2:{ rewrite <- Z.pow_add_r by lia. f_equal. lia. }
      apply Z.mul_le_mono_nonneg_r; [lia|].
      apply half_even_le_bound; nia.
    + assert (HF2ge : 2 ^ (k2 + 52) <= F2).
      { pose proof (Zdigits2_pos F2). destruct (Z.eq_dec F2 0) as [H0|H0].
        - rewrite H0 in Hd2. simpl in Hd2. lia.
        - pose proof (Zdigits2_bounds F2 ltac:(lia)) as [Hlo _].
          rewrite Hd2 in Hlo. replace (k2 + 53 - 1) with (k2 + 52) in Hlo by lia. lia. }
      assert (HN2ge : 2 ^ (k2 + 52) * D2 <= N2).
      { unfold F2 in HF2ge. pose proof (Z.mul_div_le N2 D2 H2). nia. }
      replace (2 ^ (k2 + 52)) with (2 ^ 52 * 2 ^ k2) in *.
      2:{ rewrite <- Z.pow_add_r by lia. f_equal. lia. }
      apply Z.mul_le_mono_nonneg_r; [lia|].
      apply half_even_ge_bound; nia.
Qed.

Lemma RN_ext N1 D1 N2 D2 :
  0 <= N1 -> 0 < D1 -> 0 < D2 -> N1 * D2 = N2 * D1 -> RN N1 D1 = RN N2 D2.
Proof.
  intros HN H1 H2 Heq. assert (0 <= N2) by nia.
  apply Z.le_antisymm; apply RN_mono; lia.
Qed.

Lemma RN_le_TOP N D : RN N D <= TOP.
Proof. unfold RN. apply Z.le_min_r. Qed.

Lemma RN_nonneg N D : 0 <= N -> 0 < D -> 0 <= RN N D.
Proof.
  intros HN HD. unfold RN.
  set (k := Z.max (Zdigits2 (N / D) - 53) 0).
  assert (0 < 2 ^ k) by (apply Z.pow_pos_nonneg; unfold k; lia).
  assert (0 <= half_even N (D * 2 ^ k)) by (apply half_even_ge_bound; nia).
  apply Z.min_glb; [nia | unfold TOP; apply Z.pow_nonneg; lia].
Qed.

(** ** Non-negative floats as integers *)

Lemma bounded_ord m e :
  bounded prec emax m e = true -> 0 < Z.pos m * 2 ^ (e + 1074) < TOP.
Proof.
  intros Hb. destruct (bounded_inv m e Hb) as (Hc & He & Hm & Hlo).
  assert (0 < 2 ^ (e + 1074)) by (apply Z.pow_pos_nonneg; lia).
  split; [nia|].
  assert (2 ^ (e + 1074) <= 2 ^ 2045) by (apply Z.pow_le_mono_r; lia).
  unfold TOP. change (2 ^ 2098) with (2 ^ 53 * 2 ^ 2045). nia.
Qed.

Lemma bounded_lt_exp m1 e1 m2 e2 :
  bounded prec emax m1 e1 = true -> bounded prec emax m2 e2 = true ->
  e1 < e2 -> Z.pos m1 * 2 ^ (e1 + 1074) < Z.pos m2 * 2 ^ (e2 + 1074).
Proof.
  intros H1 H2 Hlt.
  destruct (bounded_inv m1 e1 H1) as (Hc1 & He1 & Hm1 & Hlo1).
  destruct (bounded_inv m2 e2 H2) as (Hc2 & He2 & Hm2 & Hlo2).
  rewrite fexp64_eq in Hc2.
  assert (Hd2 : Zdigits2 (Z.pos m2) = 53) by (clear - Hc2 Hlt Hlo1; lia).
  pose proof (Zdigits2_bounds (Z.pos m2) ltac:(lia)) as [Hlo _].
  rewrite Hd2 in Hlo. change (2 ^ (53 - 1)) with (2 ^ 52) in Hlo.
  assert (P1 : 0 < 2 ^ (e1 + 1074)) by (apply Z.pow_pos_nonneg; lia).
  replace (e2 + 1074) with ((e2 - e1 - 1) + 1 + (e1 + 1074)) by lia.
  rewrite (Z.pow_add_r 2 (e2 - e1 - 1 + 1) (e1 + 1074)) by lia.
  rewrite (Z.pow_add_r 2 (e2 - e1 - 1) 1) by lia. change (2 ^ 1) with 2.
  assert (0 < 2 ^ (e2 - e1 - 1)) by (apply Z.pow_pos_nonneg; lia).
  change (2 ^ 53) with (2 * 2 ^ 52) in Hm1.
  set (A := 2 ^ (e1 + 1074)) in *. set (B := 2 ^ (e2 - e1 - 1)) in *.
  set (K := 2 ^ 52) in *.
  assert (0 < K) by (unfold K; lia).
  assert (Z.pos m1 * A < 2 * K * A) by (apply Z.mul_lt_mono_pos_r; lia).
  assert (K * (2 * A) <= Z.pos m2 * (2 * A)) by (apply Z.mul_le_mono_nonneg_r; lia).
  assert (Z.pos m2 * (2 * A) * 1 <= Z.pos m2 * (2 * A) * B)
    by (apply Z.mul_le_mono_nonneg_l; lia).
  replace (Z.pos m2 * (B * 2 * A)) with (Z.pos m2 * (2 * A) * B) by ring.
  lia.
Qed.

Lemma SFcompare_ord a b :
  valid_binary a = true -> valid_binary b = true -> nn a = true -> nn b = true ->
  SFcompare a b = Some (ord a ?= ord b).
Proof.
  intros Va Vb Na Nb.
  destruct a as [sa|sa| |sa ma ea]; try discriminate;
  destruct b as [sb|sb| |sb mb eb]; try discriminate;
  cbn [nn] in Na, Nb; try (destruct sa; try discriminate);
  try (destruct sb; try discriminate); cbn [valid_binary] in Va, Vb; cbn [SFcompare ord].
  all: try (pose proof (bounded_ord _ _ Va) as Ba).
  all: try (pose proof (bounded_ord _ _ Vb) as Bb).
  all: try reflexivity.
  all: try (f_equal; symmetry; first [apply Z.compare_lt_iff | apply Z.compare_gt_iff]; lia).
  (* two positive finite numbers: exponents first, then mantissas *)
  f_equal. destruct (Z.compare_spec ea eb) as [Heq|Hlt|Hgt].
  - subst eb. rewrite Pos.compare_cont_spec. cbn [Pos.switch_Eq].
    assert (0 < 2 ^ (ea + 1074)) by (apply Z.pow_pos_nonneg; destruct (bounded_inv _ _ Va); lia).
    change (ma ?= mb)%positive with (Z.pos ma ?= Z.pos mb).
    destruct (Z.compare_spec (Z.pos ma) (Z.pos mb)) as [E|E|E]; symmetry;
      [apply Z.compare_eq_iff | apply Z.compare_lt_iff | apply Z.compare_gt_iff]; nia.
  - symmetry. apply Z.compare_lt_iff. apply bounded_lt_exp; assumption.
  - symmetry. apply Z.compare_gt_iff. apply bounded_lt_exp; assumption.
Qed.

Lemma SFleb_ord a b :
  valid_binary a = true -> valid_binary b = true -> nn a = true -> nn b = true ->
  SFleb a b = (ord a <=? ord b).
Proof.
  intros Va Vb Na Nb. unfold SFleb. rewrite SFcompare_ord by assumption.
  unfold Z.leb. destruct (ord a ?= ord b); reflexivity.
Qed.

Lemma SFltb_ord a b :
  valid_binary a = true -> valid_binary b = true -> nn a = true -> nn b = true ->
  SFltb a b = (ord a <? ord b).
Proof.
  intros Va Vb Na Nb. unfold SFltb. rewrite SFcompare_ord by assumption.
  unfold Z.ltb. destruct (ord a ?= ord b); reflexivity.
Qed.

Lemma ord_range a :
  valid_binary a = true -> 0 <= ord a <= TOP.
Proof.
  destruct a as [s|s| |s m e]; cbn [valid_binary ord]; intros H;
    try (unfold TOP; split; [lia | apply Z.pow_nonneg; lia]).
  - unfold TOP. split; [apply Z.pow_nonneg|]; lia.
  - pose proof (bounded_ord m e H). lia.
Qed.

Lemma pow2_53_split E :
  -1074 <= E -> 2 ^ 53 * 2 ^ (E + 1074) = 2 ^ 52 * 2 ^ (E + 1 + 1074).
Proof.
  intros HE. rewrite <- !Z.pow_add_r by lia. f_equal. lia.
Qed.

Lemma ord_rne_result M E :
  0 <= M <= 2 ^ 53 -> -1074 <= E -> E <= fexp64 (Zdigits2 M + E) ->
  ord (rne_result false M E) = Z.min (M * 2 ^ (E + 1074)) TOP /\
  nn (rne_result false M E) = true.
Proof.
  intros [HM0 HM] HE Hc. rewrite fexp64_eq in Hc.
  assert (P2 : 0 < 2 ^ (E + 1074)) by (apply Z.pow_pos_nonneg; lia).
  assert (HTOP : TOP = 2 ^ 53 * 2 ^ 2045) by reflexivity.
  unfold rne_result. rewrite fexp64_eq.
  destruct (Z.eq_dec M (2 ^ 53)) as [->|Hne].
  - (* the rounding carried into the next binade *)
    rewrite Zdigits2_pow2 by lia.
    replace (Z.max (53 + 1 + E - 53) (-1074) - E) with 1 by lia.
    cbn [Z.ltb Z.compare]. change (2 ^ 53 / 2 ^ 1) with (2 ^ 52).
    change (2 ^ 52) with (Z.pos (Z.to_pos (2 ^ 52))) at 1.
    cbv iota beta. change (emax - prec) with 971.
    destruct (Z.leb_spec (E + 1) 971) as [Hb|Hb]; cbn [ord nn negb]; split; try reflexivity.
    + rewrite Z2Pos.id by lia. rewrite <- pow2_53_split by lia.
      rewrite Z.min_l; [reflexivity|].
      assert (2 ^ (E + 1074) <= 2 ^ 2045) by (apply Z.pow_le_mono_r; lia). nia.
    + rewrite Z.min_r; [reflexivity|].
      assert (2 ^ 2045 <= 2 ^ (E + 1074)) by (apply Z.pow_le_mono_r; lia). nia.
  - assert (HMlt : M < 2 ^ 53) by lia.
    pose proof (Zdigits2_lt_pow M 53 HM0 ltac:(lia) HMlt) as Hd.
    destruct (Z.ltb_spec 0 (Z.max (Zdigits2 M + E - 53) (-1074) - E)) as [Hk|Hk]; [lia|].
    destruct M as [|m|m]; try lia.
    + cbn [ord nn]. split; [|reflexivity]. rewrite Z.mul_0_l, Z.min_l; [reflexivity|].
      unfold TOP. apply Z.pow_nonneg. lia.
    + change (emax - prec) with 971.
      destruct (Z.leb_spec E 971) as [Hb|Hb]; cbn [ord nn negb]; split; try reflexivity.
      * rewrite Z.min_l; [reflexivity|].
        assert (2 ^ (E + 1074) <= 2 ^ 2045) by (apply Z.pow_le_mono_r; lia). nia.
      * rewrite Z.min_r; [reflexivity|].
        assert (Hd53 : Zdigits2 (Z.pos m) = 53) by lia.
        pose proof (Zdigits2_bounds (Z.pos m) ltac:(lia)) as [Hlo _].
        rewrite Hd53 in Hlo. change (2 ^ (53 - 1)) with (2 ^ 52) in Hlo.
        assert (2 ^ 2046 <= 2 ^ (E + 1074)) by (apply Z.pow_le_mono_r; lia).
        rewrite HTOP. change (2 ^ 53 * 2 ^ 2045) with (2 ^ 52 * 2 ^ 2046).
        transitivity (2 ^ 52 * 2 ^ (E + 1074)).
        -- apply Z.mul_le_mono_nonneg_l; lia.
        -- apply Z.mul_le_mono_nonneg_r; lia.
Qed.

Lemma Zdigits2_scaled_div P Q j :
  0 < Q -> 0 <= j -> 0 < P / Q ->
  Zdigits2 (P * 2 ^ j / Q) = Zdigits2 (P / Q) + j.
Proof.
  intros HQ Hj HF.
  pose proof (Zdigits2_bounds (P / Q) HF) as [Hlo Hhi].
  pose proof (Zdigits2_pos (P / Q) HF) as Hd.
  set (d := Zdigits2 (P / Q)) in *.
  assert (P2 : 0 < 2 ^ j) by (apply Z.pow_pos_nonneg; lia).
  pose proof (Z.mul_div_le P Q HQ). pose proof (Z.mul_succ_div_gt P Q HQ).
  assert (HlP : 2 ^ (d - 1) * Q <= P) by nia.
  assert (HhP : P < 2 ^ d * Q) by nia.
  assert (Hpos : 0 < P * 2 ^ j / Q).
  { apply Z.div_str_pos. split; [lia|]. 
    assert (0 < 2 ^ (d - 1)) by (apply Z.pow_pos_nonneg; lia). nia. }
  apply Zdigits2_unique; [assumption|]. split.
  - apply Z.div_le_lower_bound; [lia|].
    replace (d + j - 1) with (d - 1 + j) by lia. rewrite Z.pow_add_r by lia. nia.
  - apply Z.div_lt_upper_bound; [lia|].
    rewrite Z.pow_add_r by lia. nia.
Qed.

Lemma Zdigits2_div_pow2_max m k :
  0 <= m -> 0 <= k -> Zdigits2 (m / 2 ^ k) = Z.max (Zdigits2 m - k) 0.
Proof.
  intros Hm Hk.
  assert (P2 : 0 < 2 ^ k) by (apply Z.pow_pos_nonneg; lia).
  assert (H0 : 0 <= m / 2 ^ k) by (apply Z.div_pos; lia).
  destruct (Z.eq_dec (m / 2 ^ k) 0) as [Hz|Hnz].
  - rewrite Hz. cbn [Zdigits2].
    assert (Hlt : m < 2 ^ k).
    { destruct (Z_lt_le_dec m (2 ^ k)); auto.
      assert (1 <= m / 2 ^ k) by (apply Z.div_le_lower_bound; lia). lia. }
    pose proof (Zdigits2_lt_pow m k Hm Hk Hlt). lia.
  - rewrite Zdigits2_div_pow2 by lia.
    pose proof (Zdigits2_pos (m / 2 ^ k) ltac:(lia)) as Hp.
    rewrite Zdigits2_div_pow2 in Hp by lia. lia.
Qed.

(** The rational [(P / Q) * 2^ex] rounded by [binary_round_aux], seen in
    units of [2^-1074]. *)
Section RoundUnits.
Variables (P Q ex : Z).
Hypothesis HP : 0 <= P.
Hypothesis HQ : 0 < Q.
Hypothesis Hpre : ex <= fexp64 (Zdigits2 (P / Q) + ex).

Let N := P * 2 ^ Z.max (ex + 1074) 0.
Let D := Q * 2 ^ Z.max (- (ex + 1074)) 0.
Let E := fexp64 (Zdigits2 (P / Q) + ex).

Lemma units_shift : Z.max (Zdigits2 (N / D) - 53) 0 = E + 1074.
Proof.
  unfold N, D, E. rewrite fexp64_eq in *.
  assert (HF : 0 <= P / Q) by (apply Z.div_pos; lia).
  pose proof (Zdigits2_nonneg (P / Q)) as Hdn.
  destruct (Z_le_gt_dec 0 (ex + 1074)) as [Hex|Hex].
  - replace (Z.max (- (ex + 1074)) 0) with 0 by lia.
    replace (Z.max (ex + 1074) 0) with (ex + 1074) by lia.
    change (2 ^ 0) with 1. rewrite Z.mul_1_r.
    destruct (Z.eq_dec (P / Q) 0) as [Hz|Hnz].
    + rewrite Hz in *. cbn [Zdigits2] in *.
      assert (ex = -1074) by lia. subst ex. change (2 ^ (-1074 + 1074)) with 1.
      rewrite Z.mul_1_r, Hz. cbn [Zdigits2]. lia.
    + rewrite Zdigits2_scaled_div by lia. lia.
  - replace (Z.max (- (ex + 1074)) 0) with (- (ex + 1074)) by lia.
    replace (Z.max (ex + 1074) 0) with 0 by lia.
    change (2 ^ 0) with 1. rewrite Z.mul_1_r.
    rewrite <- Z.div_div by (try apply Z.pow_pos_nonneg; lia).
    rewrite Zdigits2_div_pow2_max by lia. lia.
Qed.

Lemma units_mantissa :
  half_even N (D * 2 ^ (E + 1074)) = half_even P (2 ^ (E - ex) * Q).
Proof.
  assert (HE : -1074 <= E) by (unfold E; rewrite fexp64_eq; lia).
  assert (HEx : 0 <= E - ex) by (unfold E; lia).
  assert (0 < 2 ^ (E + 1074)) by (apply Z.pow_pos_nonneg; lia).
  assert (0 < 2 ^ (E - ex)) by (apply Z.pow_pos_nonneg; lia).
  assert (0 < 2 ^ Z.max (- (ex + 1074)) 0) by (apply Z.pow_pos_nonneg; lia).
  apply half_even_ext; unfold N, D; try nia.
  destruct (Z_le_gt_dec 0 (ex + 1074)) as [Hex|Hex].
  - replace (Z.max (- (ex + 1074)) 0) with 0 by lia.
    replace (Z.max (ex + 1074) 0) with (ex + 1074) by lia.
    change (2 ^ 0) with 1.
    replace (E + 1074) with ((ex + 1074) + (E - ex)) by lia.
    rewrite (Z.pow_add_r 2 (ex + 1074) (E - ex)) by lia. ring.
  - replace (Z.max (- (ex + 1074)) 0) with (- (ex + 1074)) by lia.
    replace (Z.max (ex + 1074) 0) with 0 by lia.
    change (2 ^ 0) with 1.
    replace (E - ex) with (- (ex + 1074) + (E + 1074)) by lia.
    rewrite (Z.pow_add_r 2 (- (ex + 1074)) (E + 1074)) by lia. ring.
Qed.

Lemma rounded_mantissa_le : half_even P (2 ^ (E - ex) * Q) <= 2 ^ 53.
Proof.
  assert (HEx : 0 <= E - ex) by (unfold E; lia).
  assert (0 < 2 ^ (E - ex)) by (apply Z.pow_pos_nonneg; lia).
  apply half_even_le_bound; [nia|].
  assert (HF : 0 <= P / Q) by (apply Z.div_pos; lia).
  pose proof (Z.mul_succ_div_gt P Q HQ) as Hgt.
  assert (Hlt : P / Q < 2 ^ (53 + (E - ex))).
  { destruct (Z.eq_dec (P / Q) 0) as [->|Hnz]; [apply Z.pow_pos_nonneg; lia|].
    pose proof (Zdigits2_bounds (P / Q) ltac:(lia)) as [_ Hhi].
    assert (2 ^ Zdigits2 (P / Q) <= 2 ^ (53 + (E - ex))).
    { apply Z.pow_le_mono_r; [lia|]. unfold E. rewrite fexp64_eq. lia. }
    lia. }
  rewrite Z.pow_add_r in Hlt by lia. nia.
Qed.

Lemma binary_round_aux_units :
  let r := binary_round_aux prec emax false (P / Q) ex (loc_of P Q) in
  ord r = RN N D /\ nn r = true /\ valid_binary r = true.
Proof.
  cbv zeta. split; [|split].
  - rewrite binary_round_aux_spec by assumption. fold E.
    unfold RN. rewrite units_shift, units_mantissa.
    apply ord_rne_result.
    + split; [apply rounded_mantissa_nonneg; assumption | apply rounded_mantissa_le].
    + unfold E. rewrite fexp64_eq. lia.
    + apply rounded_mantissa_digits; assumption.
  - rewrite binary_round_aux_spec by assumption. fold E.
    apply ord_rne_result.
    + split; [apply rounded_mantissa_nonneg; assumption | apply rounded_mantissa_le].
    + unfold E. rewrite fexp64_eq. lia.
    + apply rounded_mantissa_digits; assumption.
  - apply binary_round_aux_valid; assumption.
Qed.
End RoundUnits.

(** ** The operations on non-negative floats, in units *)

Lemma RN_0 D : 0 < D -> RN 0 D = 0.
Proof.
  intros HD. unfold RN. rewrite Z.div_0_l by lia. cbn [Zdigits2].
  change (Z.max (0 - 53) 0) with 0. change (2 ^ 0) with 1.
  pose proof (half_even_exact 0 (D * 1) ltac:(lia)) as H. cbn [Z.mul] in H.
  rewrite H. reflexivity.
Qed.

Lemma RN_TOP : RN TOP 1 = TOP.
Proof. vm_compute. reflexivity. Qed.

Lemma RN_ge_TOP N D : 0 < D -> TOP * D <= N -> RN N D = TOP.
Proof.
  intros HD H. apply Z.le_antisymm; [apply RN_le_TOP|].
  rewrite <- RN_TOP at 1. apply RN_mono; try lia. unfold TOP. apply Z.pow_nonneg. lia.
Qed.

(** A binary64 value rounds to itself. *)
Lemma RN_representable m e :
  bounded prec emax m e = true ->
  RN (Z.pos m * 2 ^ (e + 1074)) 1 = Z.pos m * 2 ^ (e + 1074).
Proof.
  intros Hb. destruct (bounded_inv m e Hb) as (Hc & He & Hm & Hlo).
  pose proof (bounded_ord m e Hb) as Ho.
  unfold RN. rewrite Z.div_1_r, Zdigits2_mul_pow2 by lia.
  rewrite fexp64_eq in Hc.
  replace (Z.max (Zdigits2 (Z.pos m) + (e + 1074) - 53) 0) with (e + 1074) by lia.
  rewrite Z.mul_1_l, half_even_exact by (apply Z.pow_pos_nonneg; lia).
  apply Z.min_l. lia.
Qed.

Lemma iter_xO m d : Z.pos (Pos.iter xO m d) = Z.pos m * 2 ^ Z.pos d.
Proof.
  rewrite Pos2Nat.inj_iter, <- (positive_nat_Z d).
  induction (Pos.to_nat d) as [|n IH].
  - simpl. lia.
  - rewrite Nat2Z.inj_succ, Z.pow_succ_r by lia. cbn [nat_rect].
    rewrite Pos2Z.inj_xO, IH. ring.
Qed.

Lemma shl_align_spec m e e' :
  let '(mz, ez) := shl_align m e e' in
  ez = Z.min e e' /\ Z.pos mz = Z.pos m * 2 ^ (e - ez).
Proof.
  unfold shl_align. destruct (e' - e) as [|d|d] eqn:Hd.
  - split; [lia|]. rewrite Z.sub_diag. lia.
  - split; [lia|]. rewrite Z.sub_diag. lia.
  - split; [lia|]. rewrite iter_xO. f_equal. f_equal. lia.
Qed.

Lemma binary_round_units m e :
  -1074 <= e ->
  let r := binary_round prec emax false m e in
  ord r = RN (Z.pos m * 2 ^ (e + 1074)) 1 /\ nn r = true /\ valid_binary r = true.
Proof.
  intros He. cbv zeta. unfold binary_round.
  pose proof (shl_align_spec m e (fexp64 (Z.pos (digits2_pos m) + e))) as Hs.
  change (Z.pos (digits2_pos m)) with (Zdigits2 (Z.pos m)) in *.
  destruct (shl_align m e (fexp64 (Zdigits2 (Z.pos m) + e))) as [mz ez].
  destruct Hs as [Hez Hmz].
  assert (Hez' : -1074 <= ez) by (rewrite fexp64_eq in Hez; lia).
  assert (Hpre : ez <= fexp64 (Zdigits2 (Z.pos mz / 1) + ez)).
  { rewrite Z.div_1_r, Hmz, Zdigits2_mul_pow2 by lia.
    replace (Zdigits2 (Z.pos m) + (e - ez) + ez) with (Zdigits2 (Z.pos m) + e) by lia. lia. }
  pose proof (binary_round_aux_units (Z.pos mz) 1 ez ltac:(lia) ltac:(lia) Hpre) as H.
  cbv zeta in H. rewrite Z.div_1_r, loc_of_1 in H.
  destruct H as (Ho & Hn & Hv). split; [|split]; try assumption.
  rewrite Ho. replace (Z.max (- (ez + 1074)) 0) with 0 by lia.
  replace (Z.max (ez + 1074) 0) with (ez + 1074) by lia.
  change (1 * 2 ^ 0) with 1. f_equal. rewrite Hmz, <- Z.mul_assoc, <- Z.pow_add_r by lia.
  f_equal. f_equal. lia.
Qed.

Lemma valid_exp_ge s m e : valid_binary (S754_finite s m e) = true -> -1074 <= e.
Proof. intros H. apply bounded_inv in H. lia. Qed.

Lemma SFadd_units a b :
  valid_binary a = true -> valid_binary b = true -> nn a = true -> nn b = true ->
  let r := SFadd prec emax a b in
  ord r = RN (ord a + ord b) 1 /\ nn r = true /\ valid_binary r = true.
Proof.
  intros Va Vb Na Nb. cbv zeta.
  pose proof (ord_range a Va) as Ra. pose proof (ord_range b Vb) as Rb.
  destruct a as [sa|sa| |sa ma ea]; try discriminate;
  destruct b as [sb|sb| |sb mb eb]; try discriminate;
  cbn [nn] in Na, Nb; try (destruct sa; try discriminate);
  try (destruct sb; try discriminate); cbn [SFadd ord] in *.
  all: try (split; [|split; reflexivity]; cbn [ord];
            first [ rewrite RN_0 by lia; reflexivity
                  | rewrite RN_ge_TOP by lia; reflexivity ]).
  all: try (split; [|split; [reflexivity | assumption]]; cbn [ord];
            rewrite ?Z.add_0_l, ?Z.add_0_r; symmetry; apply RN_representable; assumption).
  (* two positive finite numbers *)
  pose proof (valid_exp_ge _ _ _ Va) as Hea. pose proof (valid_exp_ge _ _ _ Vb) as Heb.
  pose proof (shl_align_spec ma ea (Z.min ea eb)) as Sa.
  pose proof (shl_align_spec mb eb (Z.min ea eb)) as Sb.
  destruct (shl_align ma ea (Z.min ea eb)) as [ma' ea'].
  destruct (shl_align mb eb (Z.min ea eb)) as [mb' eb'].
  destruct Sa as [Hea' Hma]. destruct Sb as [Heb' Hmb].
  cbn [fst cond_Zopp]. cbn [Z.add binary_normalize].
  pose proof (binary_round_units (ma' + mb') (Z.min ea eb) ltac:(lia)) as H.
  cbv zeta in H. destruct H as (Ho & Hn & Hv).
  split; [|split]; try assumption.
  rewrite Ho. f_equal. rewrite Pos2Z.inj_add, Hma, Hmb, Z.mul_add_distr_r.
  rewrite <- !Z.mul_assoc, <- !Z.pow_add_r by lia.
  f_equal; f_equal; f_equal; lia.
Qed.

Lemma SFmul_precondition ma ea mb eb :
  bounded prec emax ma ea = true -> bounded prec emax mb eb = true ->
  ea + eb <= fexp64 (Zdigits2 (Z.pos (ma * mb) / 1) + (ea + eb)).
Proof.
  intros Ha Hb.
  destruct (bounded_inv _ _ Ha) as (Hca & _ & _ & Hla).
  destruct (bounded_inv _ _ Hb) as (Hcb & _ & _ & Hlb).
  rewrite Z.div_1_r, Pos2Z.inj_mul. rewrite fexp64_eq in *.
  pose proof (Zdigits2_bounds (Z.pos ma) ltac:(lia)) as [La _].
  pose proof (Zdigits2_bounds (Z.pos mb) ltac:(lia)) as [Lb _].
  pose proof (Zdigits2_pos (Z.pos ma) ltac:(lia)) as Pa.
  pose proof (Zdigits2_pos (Z.pos mb) ltac:(lia)) as Pb.
  assert (Hd : Zdigits2 (Z.pos ma) + Zdigits2 (Z.pos mb) - 1 <= Zdigits2 (Z.pos ma * Z.pos mb)).
  { pose proof (Zdigits2_ge_pow (Z.pos ma * Z.pos mb)
                  (Zdigits2 (Z.pos ma) - 1 + (Zdigits2 (Z.pos mb) - 1)) ltac:(lia)) as H.
    rewrite Z.pow_add_r in H by lia.
    assert (0 < 2 ^ (Zdigits2 (Z.pos ma) - 1)) by (apply Z.pow_pos_nonneg; lia).
    assert (0 < 2 ^ (Zdigits2 (Z.pos mb) - 1)) by (apply Z.pow_pos_nonneg; lia).
    specialize (H ltac:(nia)). lia. }
  lia.
Qed.

Lemma SFmul_units a b :
  valid_binary a = true -> valid_binary b = true -> nn a = true -> nn b = true ->
  fin a = true -> fin b = true ->
  let r := SFmul prec emax a b in
  ord r = RN (ord a * ord b) (2 ^ 1074) /\ nn r = true /\ valid_binary r = true.
Proof.
  intros Va Vb Na Nb Fa Fb. cbv zeta.
  destruct a as [sa|sa| |sa ma ea]; try discriminate;
  destruct b as [sb|sb| |sb mb eb]; try discriminate;
  cbn [nn] in Na, Nb; try (destruct sa; try discriminate);
  try (destruct sb; try discriminate); cbn [SFmul ord xorb] in *.
  all: try (split; [|split; reflexivity]; cbn [ord];
            rewrite ?Z.mul_0_l, ?Z.mul_0_r, RN_0 by lia; reflexivity).
  pose proof (valid_exp_ge _ _ _ Va) as Hea. pose proof (valid_exp_ge _ _ _ Vb) as Heb.
  cbn [valid_binary] in Va, Vb.
  pose proof (binary_round_aux_units (Z.pos (ma * mb)) 1 (ea + eb) ltac:(lia) ltac:(lia)
                (SFmul_precondition _ _ _ _ Va Vb)) as H.
  cbv zeta in H. rewrite Z.div_1_r, loc_of_1 in H.
  destruct H as (Ho & Hn & Hv). split; [|split]; try assumption.
  rewrite Ho.
  assert (P1 : 0 < 2 ^ Z.max (ea + eb + 1074) 0) by (apply Z.pow_pos_nonneg; lia).
  assert (P2 : 0 < 2 ^ Z.max (- (ea + eb + 1074)) 0) by (apply Z.pow_pos_nonneg; lia).
  apply RN_ext; [nia | lia | apply Z.pow_pos_nonneg; lia | ].
  rewrite Pos2Z.inj_mul.
  assert (H : 2 ^ Z.max (ea + eb + 1074) 0 * 2 ^ 1074
              = 2 ^ (ea + 1074) * 2 ^ (eb + 1074) * 2 ^ Z.max (- (ea + eb + 1074)) 0).
  { rewrite <- !Z.pow_add_r by lia. f_equal. lia. }
  transitivity (Z.pos ma * Z.pos mb * (2 ^ Z.max (ea + eb + 1074) 0 * 2 ^ 1074)); [ring|].
  rewrite H. ring.
Qed.

Lemma SFdiv_units ma ea mb eb :
  -1074 <= ea -> -1074 <= eb ->
  let r := SFdiv prec emax (S754_finite false ma ea) (S754_finite false mb eb) in
  ord r = RN (Z.pos ma * 2 ^ (ea + 1074) * 2 ^ 1074) (Z.pos mb * 2 ^ (eb + 1074)) /\
  nn r = true /\ valid_binary r = true.
Proof.
  intros Hea Heb. cbv zeta.
  destruct (SFdiv_finite_spec false ma ea false mb eb) as (P & e' & HP & Hpre & He' & HPeq & Hdiv).
  rewrite Hdiv. cbn [xorb].
  pose proof (binary_round_aux_units P (Z.pos mb) e' ltac:(lia) ltac:(lia) Hpre) as H.
  cbv zeta in H. destruct H as (Ho & Hn & Hv). split; [|split]; try assumption.
  rewrite Ho.
  assert (P1 : 0 < 2 ^ Z.max (e' + 1074) 0) by (apply Z.pow_pos_nonneg; lia).
  assert (P2 : 0 < 2 ^ Z.max (- (e' + 1074)) 0) by (apply Z.pow_pos_nonneg; lia).
  assert (P3 : 0 < 2 ^ (eb + 1074)) by (apply Z.pow_pos_nonneg; lia).
  apply RN_ext; [nia | nia | nia | ].
  rewrite HPeq.
  assert (H : 2 ^ (ea - eb - e') * 2 ^ Z.max (e' + 1074) 0 * 2 ^ (eb + 1074)
              = 2 ^ (ea + 1074) * 2 ^ 1074 * 2 ^ Z.max (- (e' + 1074)) 0).
  { rewrite <- !Z.pow_add_r by lia. f_equal. lia. }
  transitivity (Z.pos ma * Z.pos mb *
                (2 ^ (ea - eb - e') * 2 ^ Z.max (e' + 1074) 0 * 2 ^ (eb + 1074))); [ring|].
  rewrite H. ring.
Qed.

(** ** Finiteness and NaN *)

Lemma SFadd_fin_inv a b : fin (SFadd prec emax a b) = true -> fin a = true /\ fin b = true.
Proof.
  destruct a as [sa|sa| |sa ma ea], b as [sb|sb| |sb mb eb]; cbn [SFadd fin];
    try (intros H; split; (reflexivity || exact H || discriminate)).
  all: destruct sa, sb; cbn [fin]; intros H; split; (reflexivity || discriminate).
Qed.

Lemma SFmul_fin_inv a b : fin (SFmul prec emax a b) = true -> fin a = true /\ fin b = true.
Proof.
  destruct a as [sa|sa| |sa ma ea], b as [sb|sb| |sb mb eb]; cbn [SFmul fin];
    intros H; split; (reflexivity || exact H || discriminate).
Qed.


Lemma binary_round_shape s m e :
  let r := binary_round prec emax s m e in
  r = S754_zero s \/ (exists m' e', r = S754_finite s m' e') \/ r = S754_infinity s.
Proof.
  cbv zeta. unfold binary_round.
  pose proof (shl_align_spec m e (fexp64 (Z.pos (digits2_pos m) + e))) as Hs.
  change (Z.pos (digits2_pos m)) with (Zdigits2 (Z.pos m)) in *.
  destruct (shl_align m e (fexp64 (Zdigits2 (Z.pos m) + e))) as [mz ez].
  destruct Hs as [Hez Hmz].
  assert (Hpre : ez <= fexp64 (Zdigits2 (Z.pos mz / 1) + ez)).
  { rewrite Z.div_1_r, Hmz, Zdigits2_mul_pow2 by lia.
    replace (Zdigits2 (Z.pos m) + (e - ez) + ez) with (Zdigits2 (Z.pos m) + e) by lia. lia. }
  pose proof (binary_round_aux_shape s (Z.pos mz) 1 ez ltac:(lia) ltac:(lia) Hpre) as H.
  cbv zeta in H. rewrite Z.div_1_r, loc_of_1 in H. exact H.
Qed.

Lemma binary_normalize_notnan m e sz : notnan (binary_normalize prec emax m e sz) = true.
Proof.
  destruct m as [|p|p]; cbn [binary_normalize]; [reflexivity| |].
  - destruct (binary_round_shape false p e) as [H|[(m' & e' & H)|H]]; rewrite H; reflexivity.
  - destruct (binary_round_shape true p e) as [H|[(m' & e' & H)|H]]; rewrite H; reflexivity.
Qed.

Lemma SFsub_notnan a b :
  fin a = true -> notnan b = true -> notnan (SFsub prec emax a b) = true.
Proof.
  destruct a as [sa|sa| |sa ma ea], b as [sb|sb| |sb mb eb]; cbn [SFsub fin notnan];
    try discriminate; intros _ _; try reflexivity.
  - destruct sa, sb; reflexivity.
  - apply binary_normalize_notnan.
Qed.

Lemma SFadd_notnan a b :
  notnan a = true -> fin b = true -> notnan (SFadd prec emax a b) = true.
Proof.
  destruct a as [sa|sa| |sa ma ea], b as [sb|sb| |sb mb eb]; cbn [SFadd fin notnan];
    try discriminate; intros _ _; try reflexivity.
  - destruct sa, sb; reflexivity.
  - apply binary_normalize_notnan.
Qed.

(** When [a < b] is false, [a] is not a NaN and [b >= 0], then [a >= 0]. *)
Lemma SFltb_false_nn a b :
  notnan a = true -> nn b = true -> SFltb a b = false -> nn a = true.
Proof.
  destruct a as [sa|sa| |sa ma ea], b as [sb|sb| |sb mb eb]; cbn [nn notnan];
    try discriminate; intros _ Hb; try reflexivity;
    unfold SFltb; cbn [SFcompare];
    try (destruct sb; try discriminate); destruct sa; try reflexivity; discriminate.
Qed.

(** ** Lifting to primitive floats *)

Lemma nonneg_nn x : nonneg x <-> nn (Prim2SF x) = true.
Proof.
  unfold nonneg. rewrite FloatAxioms.leb_spec. change (Prim2SF 0) with (S754_zero false).
  destruct (Prim2SF x) as [s|s| |s m e]; unfold SFleb; cbn [SFcompare nn];
    try destruct s; cbn [negb]; split; intros H; (reflexivity || discriminate).
Qed.

Lemma finite_fin x : finite x <-> fin (Prim2SF x) = true.
Proof.
  unfold finite, is_finite, is_nan, is_infinity.
  rewrite !FloatAxioms.eqb_spec, abs_spec. change (Prim2SF infinity) with (S754_infinity false).
  destruct (Prim2SF x) as [s|s| |s m e]; unfold SFeqb; cbn [SFabs SFcompare fin].
  - cbn [negb orb]. split; reflexivity.
  - destruct s; cbn [negb orb]; split; discriminate.
  - cbn [negb orb]. split; discriminate.
  - rewrite Z.compare_refl, Pos.compare_cont_refl. destruct s; cbn [negb orb]; split; reflexivity.
Qed.

Lemma is_nan_notnan x : is_nan x = negb (notnan (Prim2SF x)).
Proof.
  unfold is_nan. rewrite FloatAxioms.eqb_spec.
  destruct (Prim2SF x) as [s|s| |s m e]; unfold SFeqb; cbn [SFcompare notnan negb];
    try reflexivity.
  - destruct s; reflexivity.
  - rewrite Z.compare_refl, Pos.compare_cont_refl. destruct s; reflexivity.
Qed.

Lemma leb_Ord x y : nonneg x -> nonneg y -> (x <=? y)%float = (Ord x <=? Ord y).
Proof.
  intros Hx Hy. rewrite FloatAxioms.leb_spec. apply SFleb_ord; try apply Prim2SF_valid;
    apply nonneg_nn; assumption.
Qed.

Lemma ltb_Ord x y : nonneg x -> nonneg y -> (x <? y)%float = (Ord x <? Ord y).
Proof.
  intros Hx Hy. rewrite FloatAxioms.ltb_spec. apply SFltb_ord; try apply Prim2SF_valid;
    apply nonneg_nn; assumption.
Qed.

Lemma Ord_range x : 0 <= Ord x <= TOP.
Proof. apply ord_range, Prim2SF_valid. Qed.

Lemma finite_Ord x : nonneg x -> (finite x <-> Ord x < TOP).
Proof.
  intros Hx. apply nonneg_nn in Hx. rewrite finite_fin. unfold Ord.
  pose proof (Prim2SF_valid x) as Hv.
  destruct (Prim2SF x) as [s|s| |s m e]; cbn [fin ord nn] in *; try discriminate.
  - split; [intros _; unfold TOP; apply Z.pow_pos_nonneg; lia | reflexivity].
  - split; [discriminate | lia].
  - pose proof (bounded_ord m e Hv). split; [lia | reflexivity].
Qed.

Lemma add_Ord x y :
  nonneg x -> nonneg y ->
  nonneg (x + y) /\ Ord (x + y) = RN (Ord x + Ord y) 1.
Proof.
  intros Hx Hy. apply nonneg_nn in Hx, Hy.
  pose proof (SFadd_units _ _ (Prim2SF_valid x) (Prim2SF_valid y) Hx Hy) as H.
  cbv zeta in H. destruct H as (Ho & Hn & _).
  unfold Ord. rewrite nonneg_nn, add_spec. split; assumption.
Qed.

Lemma mul_Ord x y :
  nonneg x -> nonneg y -> finite x -> finite y ->
  nonneg (x * y) /\ Ord (x * y) = RN (Ord x * Ord y) (2 ^ 1074).
Proof.
  intros Hx Hy Fx Fy. apply nonneg_nn in Hx, Hy. apply finite_fin in Fx, Fy.
  pose proof (SFmul_units _ _ (Prim2SF_valid x) (Prim2SF_valid y) Hx Hy Fx Fy) as H.
  cbv zeta in H. destruct H as (Ho & Hn & _).
  unfold Ord. rewrite nonneg_nn, mul_spec. split; assumption.
Qed.

Lemma Prim2SF_1000 : Prim2SF 1000 = S754_finite false 8796093022208000 (-43).
Proof. reflexivity. Qed.

Lemma Ord_1000 : Ord 1000 = 1000 * 2 ^ 1074.
Proof. unfold Ord. rewrite Prim2SF_1000. cbn [ord]. vm_compute. reflexivity. Qed.

Lemma div_1000_Ord x :
  nonneg x ->
  nonneg (x / 1000) /\
  Ord (x / 1000) = if Ord x <? TOP then RN (Ord x) 1000 else TOP.
Proof.
  intros Hx. apply nonneg_nn in Hx. unfold Ord. rewrite nonneg_nn, div_spec, Prim2SF_1000.
  unfold SF64div.
  pose proof (Prim2SF_valid x) as Hv.
  destruct (Prim2SF x) as [s|s| |s m e]; cbn [nn] in Hx; try discriminate.
  - cbn [SFdiv ord xorb nn]. split; [reflexivity|].
    change (0 <? TOP) with true. cbv iota. rewrite RN_0 by lia. reflexivity.
  - destruct s; try discriminate. cbn [SFdiv ord xorb nn negb]. split; [reflexivity|].
    rewrite Z.ltb_irrefl. reflexivity.
  - destruct s; try discriminate. cbn [valid_binary] in Hv.
    pose proof (bounded_ord m e Hv) as Hb. pose proof (valid_exp_ge false m e Hv) as He.
    pose proof (SFdiv_units m e 8796093022208000 (-43) He ltac:(lia)) as H.
    cbv zeta in H. destruct H as (Ho & Hn & _). split; [assumption|].
    cbn [ord]. destruct (Z.ltb_spec (Z.pos m * 2 ^ (e + 1074)) TOP); [|lia].
    rewrite Ho. apply RN_ext; lia.
Qed.

(** ** [round] on non-negative floats, and monotonicity *)

Lemma half_even_0 q : 0 < q -> half_even 0 q = 0.
Proof. intros Hq. exact (half_even_exact 0 q Hq). Qed.

Lemma strtod_Ord n nd y :
  0 <= n -> 0 <= nd -> strtod false n nd = Ok y ->
  nonneg y /\ Ord y = RN (n * 2 ^ 1074) (10 ^ nd).
Proof.
  intros Hn Hnd. unfold strtod.
  assert (H10 : 0 < 10 ^ nd) by (apply Z.pow_pos_nonneg; lia).
  destruct n as [|p|p]; try lia.
  - intros H. apply Ok_inj in H. subst y. split; [reflexivity|].
    rewrite RN_0 by lia. reflexivity.
  - replace (Z.max (- nd) 0) with 0 by lia. replace (Z.max nd 0) with nd by lia.
    change (Z.to_pos (10 ^ 0)) with 1%positive. rewrite Pos.mul_1_r.
    pose proof (SFdiv_units p 0 (Z.to_pos (10 ^ nd)) 0 ltac:(lia) ltac:(lia)) as H.
    cbv zeta in H. rewrite Z2Pos.id in H by lia. change (0 + 1074) with 1074 in H.
    destruct H as (Ho & Hnn & Hv).
    assert (Hr : RN (Z.pos p * 2 ^ 1074 * 2 ^ 1074) (10 ^ nd * 2 ^ 1074)
                 = RN (Z.pos p * 2 ^ 1074) (10 ^ nd)).
    { assert (0 < 2 ^ 1074) by (apply Z.pow_pos_nonneg; lia).
      apply RN_ext; nia. }
    rewrite Hr in Ho.
    destruct (SFdiv prec emax (S754_finite false p 0)
                (S754_finite false (Z.to_pos (10 ^ nd)) 0)) as [s|s| |s m e] eqn:Hd;
      intros H; try discriminate; apply Ok_inj in H; subst y;
      unfold Ord; rewrite nonneg_nn, Prim2SF_SF2Prim by assumption; split; assumption.
Qed.

Lemma round_Ord x nd :
  nonneg x -> 0 <= nd <= 323 ->
  exists y, Py.round x nd = Ok y /\ nonneg y /\ Ord y = round_units nd (Ord x).
Proof.
  intros Hx Hnd. destruct (round_total x nd ltac:(lia)) as [y Hy].
  exists y. split; [assumption|].
  pose proof (proj1 (nonneg_nn x) Hx) as Hn.
  pose proof (Prim2SF_valid x) as Hv.
  unfold round_units, Ord. unfold Py.round in Hy.
  assert (H10 : 0 < 10 ^ nd) by (apply Z.pow_pos_nonneg; lia).
  destruct (Prim2SF x) as [s|s| |s m e] eqn:Hp; cbn [nn] in Hn; try discriminate.
  - apply Ok_inj in Hy. subst y. split; [assumption|]. rewrite Hp. cbn [ord].
    change (0 <? TOP) with true. cbv iota.
    replace (0 * 10 ^ nd) with 0 by lia. rewrite half_even_0 by lia.
    replace (0 * 2 ^ 1074) with 0 by lia. rewrite RN_0 by lia. reflexivity.
  - apply Ok_inj in Hy. subst y. split; [assumption|]. rewrite Hp. cbn [ord].
    rewrite Z.ltb_irrefl. reflexivity.
  - destruct s; try discriminate. cbn [valid_binary] in Hv.
    pose proof (bounded_ord m e Hv) as Hb. pose proof (valid_exp_ge false m e Hv) as He.
    destruct (Z.ltb_spec 323 nd) as [|_]; [lia|].
    destruct (Z.ltb_spec nd (-308)) as [|_]; [lia|].
    assert (Hd : dtoa3 nd m e
                 = half_even (Z.pos m * 2 ^ (e + 1074) * 10 ^ nd) (2 ^ 1074)).
    { unfold dtoa3. replace (Z.max (- nd) 0) with 0 by lia.
      replace (Z.max nd 0) with nd by lia. change (10 ^ 0) with 1.
      assert (0 < 2 ^ Z.max (- e) 0) by (apply Z.pow_pos_nonneg; lia).
      apply half_even_ext; try lia.
      assert (Hp2 : 2 ^ Z.max e 0 * 2 ^ 1074 = 2 ^ (e + 1074) * 2 ^ Z.max (- e) 0).
      { rewrite <- !Z.pow_add_r by lia. f_equal. lia. }
      transitivity (Z.pos m * 10 ^ nd * (2 ^ Z.max e 0 * 2 ^ 1074)); [ring|].
      rewrite Hp2. ring. }
    rewrite Hd in Hy.
    apply strtod_Ord in Hy; try lia.
    + destruct Hy as [Hny Hoy]. split; [assumption|].
      unfold Ord in Hoy. rewrite Hoy. cbn [ord].
      destruct (Z.ltb_spec (Z.pos m * 2 ^ (e + 1074)) TOP); [reflexivity | lia].
    + apply half_even_ge_bound; [lia|].
      assert (0 < 2 ^ (e + 1074)) by (apply Z.pow_pos_nonneg; lia). nia.
Qed.

Lemma round_units_mono nd o1 o2 :
  0 <= nd -> 0 <= o1 <= o2 -> round_units nd o1 <= round_units nd o2.
Proof.
  intros Hnd Ho. unfold round_units.
  assert (H10 : 0 < 10 ^ nd) by (apply Z.pow_pos_nonneg; lia).
  assert (H2 : 0 < 2 ^ 1074) by (apply Z.pow_pos_nonneg; lia).
  destruct (Z.ltb_spec o2 TOP) as [H2t|H2t].
  - destruct (Z.ltb_spec o1 TOP) as [H1t|H1t]; [|lia].
    assert (Hh : half_even (o1 * 10 ^ nd) (2 ^ 1074) <= half_even (o2 * 10 ^ nd) (2 ^ 1074)).
    { apply half_even_mono; try lia. apply Z.mul_le_mono_nonneg_r; [lia|].
      apply Z.mul_le_mono_nonneg_r; lia. }
    assert (0 <= half_even (o1 * 10 ^ nd) (2 ^ 1074)).
    { apply half_even_ge_bound; [lia|]. nia. }
    apply RN_mono; try lia.
    apply Z.mul_le_mono_nonneg_r; [lia|]. apply Z.mul_le_mono_nonneg_r; lia.
  - destruct (o1 <? TOP); [apply RN_le_TOP | lia].
Qed.

Lemma le_Ord x y : nonneg x -> nonneg y -> ((x <=? y)%float = true <-> Ord x <= Ord y).
Proof. intros Hx Hy. rewrite leb_Ord by assumption. apply Z.leb_le. Qed.

Lemma round_mono x y nd rx ry :
  nonneg x -> nonneg y -> (x <=? y)%float = true -> 0 <= nd <= 323 ->
  Py.round x nd = Ok rx -> Py.round y nd = Ok ry ->
  nonneg rx /\ nonneg ry /\ (rx <=? ry)%float = true.
Proof.
  intros Hx Hy Hle Hnd Hrx Hry.
  destruct (round_Ord x nd Hx Hnd) as (rx' & Hrx' & Hnx & Hox).
  destruct (round_Ord y nd Hy Hnd) as (ry' & Hry' & Hny & Hoy).
  rewrite (Ok_eq _ _ _ Hrx Hrx'), (Ok_eq _ _ _ Hry Hry').
  split; [assumption|]. split; [assumption|].
  apply le_Ord; try assumption. rewrite Hox, Hoy.
  apply round_units_mono; [lia|]. split; [apply Ord_range|].
  apply le_Ord; assumption.
Qed.

Lemma nonneg_eps : nonneg 1e-9.
Proof. reflexivity. Qed.

Lemma add_mono a b c d :
  nonneg a -> nonneg b -> nonneg c -> nonneg d ->
  (a <=? b)%float = true -> (c <=? d)%float = true ->
  (a + c <=? b + d)%float = true.
Proof.
  intros Ha Hb Hc Hd Hab Hcd.
  destruct (add_Ord a c Ha Hc) as [Hn1 Ho1]. destruct (add_Ord b d Hb Hd) as [Hn2 Ho2].
  apply le_Ord; try assumption. rewrite Ho1, Ho2.
  apply le_Ord in Hab; try assumption. apply le_Ord in Hcd; try assumption.
  pose proof (Ord_range a). pose proof (Ord_range c).
  apply RN_mono; lia.
Qed.

Lemma mul_mono a b c d :
  nonneg a -> nonneg b -> nonneg c -> nonneg d ->
  finite b -> finite d ->
  (a <=? b)%float = true -> (c <=? d)%float = true ->
  (a * c <=? b * d)%float = true /\ finite a /\ finite c.
Proof.
  intros Ha Hb Hc Hd Fb Fd Hab Hcd.
  apply le_Ord in Hab; try assumption. apply le_Ord in Hcd; try assumption.
  assert (Fa : finite a) by (apply finite_Ord; [assumption|]; apply finite_Ord in Fb; [lia|assumption]).
  assert (Fc : finite c) by (apply finite_Ord; [assumption|]; apply finite_Ord in Fd; [lia|assumption]).
  split; [|split; assumption].
  destruct (mul_Ord a c Ha Hc Fa Fc) as [Hn1 Ho1].
  destruct (mul_Ord b d Hb Hd Fb Fd) as [Hn2 Ho2].
  apply le_Ord; try assumption. rewrite Ho1, Ho2.
  pose proof (Ord_range a). pose proof (Ord_range c).
  assert (0 < 2 ^ 1074) by (apply Z.pow_pos_nonneg; lia).
  apply RN_mono; [nia | lia | lia |].
  apply Z.mul_le_mono_nonneg_r; [lia|]. apply Z.mul_le_mono_nonneg; lia.
Qed.


Lemma round_money_mono x y rx ry :
  nonneg x -> nonneg y -> (x <=? y)%float = true ->
  round_money x = Ok rx -> round_money y = Ok ry ->
  nonneg rx /\ nonneg ry /\ (rx <=? ry)%float = true.
Proof.
  intros Hx Hy Hle. unfold round_money.
  apply round_mono; try lia.
  - apply add_Ord; [assumption | apply nonneg_eps].
  - apply add_Ord; [assumption | apply nonneg_eps].
  - apply add_mono; try assumption; try apply nonneg_eps; reflexivity.
Qed.

Lemma round_money_nonneg x r : nonneg x -> round_money x = Ok r -> nonneg r.
Proof.
  intros Hx Hr. 
  assert (Hxx : (x <=? x)%float = true) by (apply le_Ord; [assumption..|lia]).
  apply (round_money_mono x x r r Hx Hx Hxx Hr Hr).
Qed.

(** ** Signs, finiteness and [max] on primitive floats *)

Local Open Scope float_scope.

Lemma leb_refl_nonneg x : nonneg x -> (x <=? x) = true.
Proof. intros Hx. apply le_Ord; [assumption..|lia]. Qed.

Lemma add_nonneg x y : nonneg x -> nonneg y -> nonneg (x + y).
Proof. intros Hx Hy. apply add_Ord; assumption. Qed.

Lemma mul_nonneg x y : nonneg x -> nonneg y -> finite x -> finite y -> nonneg (x * y).
Proof. intros Hx Hy Fx Fy. apply mul_Ord; assumption. Qed.

Lemma div_1000_nonneg x : nonneg x -> nonneg (x / 1000).
Proof. intros Hx. apply div_1000_Ord; assumption. Qed.

Lemma add_finite_inv x y : finite (x + y) -> finite x /\ finite y.
Proof. rewrite !finite_fin, add_spec. apply SFadd_fin_inv. Qed.

Lemma mul_finite_inv x y : finite (x * y) -> finite x /\ finite y.
Proof. rewrite !finite_fin, mul_spec. apply SFmul_fin_inv. Qed.


Lemma nonneg_not_nan x : nonneg x -> is_nan x = false.
Proof.
  intros Hx. apply nonneg_nn in Hx. rewrite is_nan_notnan.
  destruct (Prim2SF x); try discriminate; reflexivity.
Qed.

Lemma finite_not_nan x : finite x -> is_nan x = false.
Proof.
  intros Hx. apply finite_fin in Hx. rewrite is_nan_notnan.
  destruct (Prim2SF x); try discriminate; reflexivity.
Qed.

Lemma sub_not_nan x y : finite x -> is_nan y = false -> is_nan (x - y) = false.
Proof.
  rewrite !is_nan_notnan, finite_fin, sub_spec. intros Fx Ny.
  apply negb_false_iff in Ny. apply negb_false_iff. apply SFsub_notnan; assumption.
Qed.

Lemma add_not_nan x y : is_nan x = false -> finite y -> is_nan (x + y) = false.
Proof.
  rewrite !is_nan_notnan, finite_fin, add_spec. intros Nx Fy.
  apply negb_false_iff in Nx. apply negb_false_iff. apply SFadd_notnan; assumption.
Qed.

(** [max(a, b)] for a non-NaN [a] and [b >= 0]: the result is [>= b] and
    [>= 0], and it is [b] or an [a] that is [>= b]. *)
Lemma max_floor a b :
  is_nan a = false -> nonneg b ->
  nonneg (Py.max a b) /\ (b <=? Py.max a b) = true /\
  (Py.max a b = b \/ (Py.max a b = a /\ nonneg a /\ (b <=? a) = true)).
Proof.
  intros Na Hb. unfold Py.max. destruct (a <? b) eqn:Hlt.
  - split; [assumption|]. split; [apply leb_refl_nonneg; assumption | left; reflexivity].
  - assert (Ha : nonneg a).
    { apply nonneg_nn. rewrite is_nan_notnan in Na. apply negb_false_iff in Na.
      rewrite FloatAxioms.ltb_spec in Hlt.
      apply (SFltb_false_nn _ (Prim2SF b)); [assumption | apply nonneg_nn; assumption | assumption]. }
    assert (Hle : (b <=? a) = true).
    { rewrite ltb_Ord in Hlt by assumption. apply le_Ord; [assumption..|].
      apply Z.ltb_ge in Hlt. exact Hlt. }
    split; [assumption|]. split; [assumption|]. right. auto.
Qed.

(** ** Non-negative inputs *)

Ltac split_fields H :=
  destruct H as (?Hg & ?Ht & ?Hprice & ?Hel & ?Hpw & ?Hdep & ?Hcr & ?Hlh & ?Hlr
                 & ?Hrr & ?Hmr & ?Hfr & ?Hpack & ?Hfee & ?Hpurge).

(** With non-negative finite fields and a finite pre-discount total, all
    twelve quantities behind the breakdown are non-negative. *)
Lemma locals_nonneg (i : PricingInputs) :
  all_fields nonneg i -> all_fields finite i ->
  let l := locals_of_derivation (Spec.derive i) in
  finite l.(pre_discount_total) ->
  nonneg l.(material_eur) /\ nonneg l.(energy_eur) /\ nonneg l.(machine_eur) /\
  nonneg l.(labor_eur) /\ nonneg l.(consumables_eur) /\ nonneg l.(risk_buffer_eur) /\
  nonneg l.(subtotal_before_markup) /\ nonneg l.(markup_eur) /\
  nonneg l.(pre_discount_total) /\ nonneg l.(friend_discount_eur) /\
  nonneg i.(packaging_shipping_eur) /\ nonneg l.(final_total_eur).
Proof.
  intros HN HF l. subst l.
  cbn [locals_of_derivation Spec.derive material_eur energy_eur machine_eur labor_eur
       consumables_eur risk_buffer_eur subtotal_before_markup markup_eur
       pre_discount_total friend_discount_eur final_total_eur
       Spec.material Spec.energy Spec.machine Spec.labor Spec.consumables Spec.risk
       Spec.subtotal Spec.markup Spec.pre_discount_total Spec.friend_discount
       Spec.final_total].
  split_fields HN. split_fields HF.
  set (kg := (filament_used_g i + purge_waste_g i) / 1000).
  set (mat := kg * filament_eur_per_kg i).
  set (kwh := avg_power_w i * print_time_h i / 1000).
  set (en := kwh * electricity_eur_per_kwh i).
  set (mach := print_time_h i * depreciation_eur_per_h i).
  set (lab := labor_hours i * labor_rate_eur_per_h i).
  set (cons := (mat + en) * consumables_ratio i).
  set (risk := (mat + en + mach) * risk_ratio i).
  set (sub := mat + en + mach + lab + cons + risk).
  set (markup := sub * markup_ratio i).
  set (pre := sub + markup).
  set (friend := pre * friend_discount_ratio i).
  intros Fpre.
  destruct (add_finite_inv _ _ Fpre) as [Fsub Fmarkup].
  destruct (add_finite_inv _ _ Fsub) as [F5 Frisk].
  destruct (add_finite_inv _ _ F5) as [F4 Fcons].
  destruct (add_finite_inv _ _ F4) as [F3 Flab].
  destruct (add_finite_inv _ _ F3) as [F2 Fmach].
  destruct (add_finite_inv _ _ F2) as [Fmat Fen].
  destruct (mul_finite_inv _ _ Fmat) as [Fkg _].
  destruct (mul_finite_inv _ _ Fen) as [Fkwh _].
  assert (Nkg : nonneg kg) by (apply div_1000_nonneg, add_nonneg; assumption).
  assert (Nmat : nonneg mat) by (apply mul_nonneg; assumption).
  assert (Nkwh : nonneg kwh) by (apply div_1000_nonneg, mul_nonneg; assumption).
  assert (Nen : nonneg en) by (apply mul_nonneg; assumption).
  assert (Nmach : nonneg mach) by (apply mul_nonneg; assumption).
  assert (Nlab : nonneg lab) by (apply mul_nonneg; assumption).
  assert (N2 : nonneg (mat + en)) by (apply add_nonneg; assumption).
  assert (Ncons : nonneg cons) by (apply mul_nonneg; assumption).
  assert (N3 : nonneg (mat + en + mach)) by (apply add_nonneg; assumption).
  assert (Nrisk : nonneg risk) by (apply mul_nonneg; assumption).
  assert (Nsub : nonneg sub) by (repeat apply add_nonneg; assumption).
  assert (Nmarkup : nonneg markup) by (apply mul_nonneg; assumption).
  assert (Npre : nonneg pre) by (apply add_nonneg; assumption).
  assert (Nfriend : nonneg friend) by (apply mul_nonneg; assumption).
  assert (Ntotal : is_nan (pre - friend + packaging_shipping_eur i) = false).
  { apply add_not_nan; [|assumption]. apply sub_not_nan; [assumption|].
    apply nonneg_not_nan; assumption. }
  repeat (split; [assumption|]).
  apply max_floor; assumption.
Qed.

(** ** More filament *)


(** ** The shape of what [compute_cost] returns *)

Lemma truediv_1000 x : truediv x 1000 = Ok (x / 1000).
Proof. reflexivity. Qed.

Lemma compute_locals_eq i :
  compute_locals i = Ok (locals_of_derivation (Spec.derive i)).
Proof. unfold compute_locals. rewrite !truediv_1000. reflexivity. Qed.

Lemma round_money_total x : exists y, round_money x = Ok y.
Proof. apply round_total. lia. Qed.

Lemma compute_cost_returns i :
  let l := locals_of_derivation (Spec.derive i) in
  exists b1 b2 b3 b4 b5 b6 b7 b8 b9 b10 b11 b12 m1 m2,
    compute_cost i =
      Ok ([("Material", b1); ("Energie", b2); ("Maschine/Verschleiß", b3);
           ("Arbeit", b4); ("Verbrauchsmaterial-Puffer", b5);
           ("Risiko-Puffer", b6); ("Zwischensumme", b7);
           ("Marge/Aufschlag", b8); ("Summe vor Rabatt", b9);
           ("Freundschaftsrabatt", b10); ("Verpackung/Versand", b11);
           ("Empfohlener Preis", b12)]%string,
          [("kwh", m1); ("filament_total_g", m2)]%string) /\
    round_money l.(material_eur) = Ok b1 /\
    round_money l.(energy_eur) = Ok b2 /\
    round_money l.(machine_eur) = Ok b3 /\
    round_money l.(labor_eur) = Ok b4 /\
    round_money l.(consumables_eur) = Ok b5 /\
    round_money l.(risk_buffer_eur) = Ok b6 /\
    round_money l.(subtotal_before_markup) = Ok b7 /\
    round_money l.(markup_eur) = Ok b8 /\
    round_money l.(pre_discount_total) = Ok b9 /\
    round_money l.(friend_discount_eur) = Ok b10 /\
    round_money i.(packaging_shipping_eur) = Ok b11 /\
    round_money l.(final_total_eur) = Ok b12 /\
    Py.round l.(kwh) 3 = Ok m1 /\
    Py.round l.(grams_total) 1 = Ok m2.
Proof.
  intros l. unfold compute_cost. rewrite compute_locals_eq. fold l.
  cbn [bind].
  destruct (round_money_total l.(material_eur)) as [b1 H1].
  destruct (round_money_total l.(energy_eur)) as [b2 H2].
  destruct (round_money_total l.(machine_eur)) as [b3 H3].
  destruct (round_money_total l.(labor_eur)) as [b4 H4].
  destruct (round_money_total l.(consumables_eur)) as [b5 H5].
  destruct (round_money_total l.(risk_buffer_eur)) as [b6 H6].
  destruct (round_money_total l.(subtotal_before_markup)) as [b7 H7].
  destruct (round_money_total l.(markup_eur)) as [b8 H8].
  destruct (round_money_total l.(pre_discount_total)) as [b9 H9].
  destruct (round_money_total l.(friend_discount_eur)) as [b10 H10].
  destruct (round_money_total i.(packaging_shipping_eur)) as [b11 H11].
  destruct (round_money_total l.(final_total_eur)) as [b12 H12].
  destruct (round_total l.(kwh) 3 ltac:(lia)) as [m1 Hm1].
  destruct (round_total l.(grams_total) 1 ltac:(lia)) as [m2 Hm2].
  exists b1, b2, b3, b4, b5, b6, b7, b8, b9, b10, b11, b12, m1, m2.
  rewrite H1, H2, H3, H4, H5, H6, H7, H8, H9, H10, H11, H12, Hm1, Hm2.
  cbn [bind]. repeat split; reflexivity.
Qed.

(** ** Ints and floats *)

Local Open Scope Z_scope.
















Local Open Scope float_scope.

(** On floats the two models of [round_money] and [max] agree. *)
Lemma dyn_round_money_float x : Dyn.round_money (Dyn.Float x) = round_money x.
Proof. reflexivity. Qed.

Lemma dyn_round_money_max x y :
  Dyn.round_money (Dyn.max (Dyn.Float x) (Dyn.Float y)) = round_money (Py.max x y).
Proof. unfold Dyn.max, Py.max. destruct (x <? y); reflexivity. Qed.

(** On a record of floats the engine on numbers is the engine on floats. *)
Lemma dyn_compute_cost_on_floats (i : PricingInputs) :
  Dyn.compute_cost (floats_as_numbers i)
  = match compute_cost i with
    | Ok (breakdown, meta) => Ok (breakdown, floats_as_numdict meta)
    | Raise e => Raise e
    end.
Proof.
  destruct (compute_cost_returns i)
    as (b1 & b2 & b3 & b4 & b5 & b6 & b7 & b8 & b9 & b10 & b11 & b12 & m1 & m2
        & H & H1 & H2 & H3 & H4 & H5 & H6 & H7 & H8 & H9 & H10 & H11 & H12 & Hk & Hg).
  rewrite H.
  cbn [locals_of_derivation Spec.derive material_eur energy_eur machine_eur labor_eur
       consumables_eur risk_buffer_eur subtotal_before_markup markup_eur
       pre_discount_total friend_discount_eur final_total_eur kwh grams_total
       Spec.material Spec.energy Spec.machine Spec.labor Spec.consumables Spec.risk
       Spec.subtotal Spec.markup Spec.pre_discount_total Spec.friend_discount
       Spec.final_total Spec.total Spec.kwh Spec.grams_total] in *.
  unfold Dyn.compute_cost.
  cbn [floats_as_numbers Dyn.filament_used_g Dyn.print_time_h Dyn.filament_eur_per_kg
       Dyn.electricity_eur_per_kwh Dyn.avg_power_w Dyn.depreciation_eur_per_h
       Dyn.consumables_ratio Dyn.labor_hours Dyn.labor_rate_eur_per_h Dyn.risk_ratio
       Dyn.markup_ratio Dyn.friend_discount_ratio Dyn.packaging_shipping_eur
       Dyn.min_fee_eur Dyn.purge_waste_g
       Dyn.add Dyn.sub Dyn.mul Dyn.as_float Dyn.truediv bind].
  rewrite ?truediv_1000.
  cbn [Dyn.add Dyn.sub Dyn.mul Dyn.as_float Dyn.truediv bind].
  rewrite ?truediv_1000.
  cbn [Dyn.add Dyn.sub Dyn.mul Dyn.as_float Dyn.truediv bind].
  rewrite dyn_round_money_max, !dyn_round_money_float.
  rewrite H1. cbn [bind]. rewrite H2. cbn [bind]. rewrite H3. cbn [bind].
  rewrite H4. cbn [bind]. rewrite H5. cbn [bind]. rewrite H6. cbn [bind].
  rewrite H7. cbn [bind]. rewrite H8. cbn [bind]. rewrite H9. cbn [bind].
  rewrite H10. cbn [bind]. rewrite H11. cbn [bind]. rewrite H12. cbn [bind].
  rewrite Hk. cbn [bind Dyn.round]. rewrite Hg. cbn [bind]. reflexivity.
Qed.

(** ** The claims *)

(** C1 (as stated, refuted): on the scenario of section 8 the code does not
    return the listed values; the recommended price it stores is not 28.78. *)
Lemma scenario_not_as_listed : ~ scenario_expected (compute_cost scenario).
Proof.
  intros (b & m & H & _ & _ & _ & _ & _ & _ & _ & _ & _ & _ & _ & Hp & _).
  apply Ok_inj in H. apply (f_equal fst) in H. cbn [fst] in H. subst b.
  vm_compute in Hp. apply Some_float_inj in Hp.
  revert Hp. apply eqb_false_neq; vm_compute; reflexivity.
Qed.

(** C1 (amended): on the scenario of section 8, [compute_cost] returns
    Material 2.20, Energie 0.12, Maschine/Verschleiß 3.00, Arbeit 30.00,
    Verbrauchsmaterial-Puffer 0.12, Risiko-Puffer 0.53, Zwischensumme 35.97,
    Marge/Aufschlag 0.00, Summe vor Rabatt 35.97, Freundschaftsrabatt 7.19,
    Verpackung/Versand 0.00 and Empfohlener Preis 28.77 (the unrounded price
    35.968 - 7.1936 = 28.7744 is rounded, not the difference of the rounded
    lines), with meta kwh 0.48 and filament_total_g 100. *)
Theorem scenario_breakdown :
  compute_cost scenario =
    Ok ([("Material", 2.20); ("Energie", 0.12); ("Maschine/Verschleiß", 3.00);
         ("Arbeit", 30.00); ("Verbrauchsmaterial-Puffer", 0.12);
         ("Risiko-Puffer", 0.53); ("Zwischensumme", 35.97);
         ("Marge/Aufschlag", 0.00); ("Summe vor Rabatt", 35.97);
         ("Freundschaftsrabatt", 7.19); ("Verpackung/Versand", 0.00);
         ("Empfohlener Preis", 28.77)]%string,
        [("kwh", 0.48); ("filament_total_g", 100)]%string).
Proof. vm_compute. reflexivity. Qed.

(** C2 (as stated, refuted): with a minimum fee of 30.004 on the scenario,
    all fields are non-negative and the stored price, 30.0, is below the fee. *)
Lemma price_below_min_fee :
  all_fields nonneg scenario_fee_30_004 /\
  ~ price_at_least_min_fee scenario_fee_30_004.
Proof.
  split; [repeat split; reflexivity|].
  intros (b & m & p & H & Hp & Hle).
  apply Ok_inj in H. apply (f_equal fst) in H. cbn [fst] in H. subst b.
  vm_compute in Hp. apply Some_float_inj in Hp. subst p.
  vm_compute in Hle. discriminate.
Qed.

(** C2 (amended): for every record with non-negative fields whose pre-floor
    total is not a NaN, the unrounded final price is at least min_fee_eur,
    and the stored Empfohlener Preis, its [round_money], is at least
    [round_money(min_fee_eur)], the fee rounded to cents. *)
Theorem price_at_least_rounded_min_fee (i : PricingInputs) (l : Locals) :
  all_fields nonneg i ->
  compute_locals i = Ok l -> is_nan l.(total) = false ->
  (i.(min_fee_eur) <=? l.(final_total_eur)) = true /\
  exists breakdown meta p q,
    compute_cost i = Ok (breakdown, meta) /\
    Py.get breakdown "Empfohlener Preis" = Some p /\
    round_money l.(final_total_eur) = Ok p /\
    round_money i.(min_fee_eur) = Ok q /\
    (q <=? p) = true.
Proof.
  intros HN Hl Hnan.
  pose proof (Ok_eq _ _ _ Hl (compute_locals_eq i)) as El. subst l.
  split_fields HN.
  destruct (compute_cost_returns i)
    as (b1 & b2 & b3 & b4 & b5 & b6 & b7 & b8 & b9 & b10 & b11 & b12 & m1 & m2
        & H & _ & _ & _ & _ & _ & _ & _ & _ & _ & _ & _ & H12 & _).
  destruct (round_money_total (min_fee_eur i)) as [q Hq].
  cbn [locals_of_derivation Spec.derive final_total_eur total Spec.total Spec.final_total] in *.
  destruct (max_floor _ (min_fee_eur i) Hnan Hfee) as (Nmax & Hle & Hcase).
  split; [exact Hle|].
  eexists _, _, b12, q. split; [exact H|]. split; [reflexivity|].
  split; [exact H12|]. split; [exact Hq|].
  eapply round_money_mono; [exact Hfee | exact Nmax | exact Hle | exact Hq | exact H12].
Qed.

(** The statement above at the scenario with a fee of 30.004. *)
Lemma price_at_least_rounded_min_fee_witness :
  all_fields nonneg scenario_fee_30_004 /\
  compute_locals scenario_fee_30_004
    = Ok (locals_of_derivation (Spec.derive scenario_fee_30_004)) /\
  is_nan (locals_of_derivation (Spec.derive scenario_fee_30_004)).(total) = false /\
  (scenario_fee_30_004.(min_fee_eur)
     <=? (locals_of_derivation (Spec.derive scenario_fee_30_004)).(final_total_eur)) = true /\
  exists breakdown meta p q,
    compute_cost scenario_fee_30_004 = Ok (breakdown, meta) /\
    Py.get breakdown "Empfohlener Preis" = Some p /\
    round_money (locals_of_derivation (Spec.derive scenario_fee_30_004)).(final_total_eur)
      = Ok p /\
    round_money scenario_fee_30_004.(min_fee_eur) = Ok q /\
    (q <=? p) = true.
Proof.
  split; [repeat split; reflexivity|]. split; [reflexivity|]. split; [reflexivity|].
  apply (price_at_least_rounded_min_fee scenario_fee_30_004
           (locals_of_derivation (Spec.derive scenario_fee_30_004))).
  - repeat split; reflexivity.
  - reflexivity.
  - reflexivity.
Defined.

(** C3: [compute_cost] derives its quantities by the fourteen steps of the
    specification, in that order.  Each quantity below is written out from
    the inputs and the quantities before it, with the float operations
    themselves; the last one is the larger of the total and the minimum
    fee, the total when neither is larger.  The local variables of the code
    are these quantities, and every breakdown entry is its quantity plus
    1e-9 rounded to two decimals by [round], under the listed keys in the
    listed order. *)
Theorem compute_cost_follows_derivation (i : PricingInputs) :
  let grams := i.(filament_used_g) + i.(purge_waste_g) in
  let material := (grams / 1000) * i.(filament_eur_per_kg) in
  let kilowatt_hours := (i.(avg_power_w) * i.(print_time_h)) / 1000 in
  let energy := kilowatt_hours * i.(electricity_eur_per_kwh) in
  let machine := i.(print_time_h) * i.(depreciation_eur_per_h) in
  let labor := i.(labor_hours) * i.(labor_rate_eur_per_h) in
  let consumables := (material + energy) * i.(consumables_ratio) in
  let risk := (material + energy + machine) * i.(risk_ratio) in
  let subtotal := material + energy + machine + labor + consumables + risk in
  let markup := subtotal * i.(markup_ratio) in
  let pre_discount := subtotal + markup in
  let friend_discount := pre_discount * i.(friend_discount_ratio) in
  let total_eur := pre_discount - friend_discount + i.(packaging_shipping_eur) in
  let final_total := if total_eur <? i.(min_fee_eur) then i.(min_fee_eur) else total_eur in
  compute_locals i =
    Ok {| grams_total := grams; material_eur := material; kwh := kilowatt_hours;
          energy_eur := energy; machine_eur := machine; labor_eur := labor;
          consumables_eur := consumables; risk_buffer_eur := risk;
          subtotal_before_markup := subtotal; markup_eur := markup;
          pre_discount_total := pre_discount;
          friend_discount_eur := friend_discount; total := total_eur;
          final_total_eur := final_total |} /\
  exists b1 b2 b3 b4 b5 b6 b7 b8 b9 b10 b11 b12 meta,
    compute_cost i =
      Ok ([("Material", b1); ("Energie", b2); ("Maschine/Verschleiß", b3);
           ("Arbeit", b4); ("Verbrauchsmaterial-Puffer", b5);
           ("Risiko-Puffer", b6); ("Zwischensumme", b7);
           ("Marge/Aufschlag", b8); ("Summe vor Rabatt", b9);
           ("Freundschaftsrabatt", b10); ("Verpackung/Versand", b11);
           ("Empfohlener Preis", b12)]%string, meta) /\
    Py.round (material + 1e-9) 2 = Ok b1 /\
    Py.round (energy + 1e-9) 2 = Ok b2 /\
    Py.round (machine + 1e-9) 2 = Ok b3 /\
    Py.round (labor + 1e-9) 2 = Ok b4 /\
    Py.round (consumables + 1e-9) 2 = Ok b5 /\
    Py.round (risk + 1e-9) 2 = Ok b6 /\
    Py.round (subtotal + 1e-9) 2 = Ok b7 /\
    Py.round (markup + 1e-9) 2 = Ok b8 /\
    Py.round (pre_discount + 1e-9) 2 = Ok b9 /\
    Py.round (friend_discount + 1e-9) 2 = Ok b10 /\
    Py.round (i.(packaging_shipping_eur) + 1e-9) 2 = Ok b11 /\
    Py.round (final_total + 1e-9) 2 = Ok b12.
Proof.
  cbv zeta. split; [apply compute_locals_eq|].
  destruct (compute_cost_returns i)
    as (b1 & b2 & b3 & b4 & b5 & b6 & b7 & b8 & b9 & b10 & b11 & b12 & m1 & m2
        & H & H1 & H2 & H3 & H4 & H5 & H6 & H7 & H8 & H9 & H10 & H11 & H12 & _).
  exists b1, b2, b3, b4, b5, b6, b7, b8, b9, b10, b11, b12.
  eexists. split; [exact H|]. repeat split; assumption.
Qed.

(** C4 (as stated, refuted): 0.124999999 + 1e-9 is exactly 0.125 in binary64;
    [round_money] gives 0.12 (ties to even), rounding half away gives 0.13. *)
Lemma round_money_not_half_away : ~ round_money_is_half_away 0.124999999.
Proof.
  unfold round_money_is_half_away. intros H.
  apply Ok_inj in H. revert H. apply eqb_false_neq; vm_compute; reflexivity.
Qed.

(** An exact .xx5 boundary that is not rounded away from zero: 1e-9 is
    absorbed by the addition and the tie goes to the even cent. *)
Example round_money_16777216_125 : round_money 16777216.125 = Ok 16777216.12.
Proof. vm_compute. reflexivity. Qed.

(** A negative .xx5 boundary is rounded towards zero. *)
Example round_money_minus_0_125 : round_money (-0.125) = Ok (-0.12).
Proof. vm_compute. reflexivity. Qed.

(** C4 (amended): [round_money x] is rounding half away from zero of the
    binary64 sum [x + 1e-9] at two decimals, except when that sum lies
    exactly half-way between two cents: then the cent with the even last
    digit is taken (Python's round-half-to-even).  NaN, infinities and a
    zero sum are returned as they are. *)
Theorem round_money_half_away_off_ties (x : float) :
  let y := x + 1e-9 in
  match Spec.scaled y 2 with
  | Some (s, P, Q) =>
      if (2 * (P mod Q) =? Q)%Z
      then round_money x = strtod s (if Z.even (P / Q) then P / Q else P / Q + 1)%Z 2
      else round_money x = Spec.round_half_away y 2
  | None => round_money x = Ok y
  end.
Proof.
  intros y. unfold Spec.round_half_away, Spec.scaled, round_money, Py.round. fold y.
  destruct (Prim2SF y) as [s|s| |s m e]; try reflexivity.
  change (323 <? 2)%Z with false. change (2 <? -308)%Z with false. cbv iota.
  unfold dtoa3.
  set (P := (Z.pos m * 2 ^ Z.max e 0 * 10 ^ Z.max 2 0)%Z).
  set (Q := (2 ^ Z.max (- e) 0 * 10 ^ Z.max (- (2)) 0)%Z).
  unfold half_even, Spec.half_away, Z.div, Z.modulo.
  destruct (Z.div_eucl P Q) as [d r].
  destruct (Z.eqb_spec (2 * r) Q) as [Heq|Hne].
  - rewrite (proj2 (Z.compare_eq_iff _ _) Heq). reflexivity.
  - destruct (2 * r ?= Q)%Z eqn:Hc; try reflexivity.
    apply Z.compare_eq_iff in Hc. contradiction.
Qed.

(** C5 (as stated, refuted): finite non-negative inputs whose material
    cost overflows; Marge/Aufschlag is then [infinity * 0.0], a NaN. *)
Lemma breakdown_with_nan :
  all_fields nonneg overflowing_inputs /\ all_fields finite overflowing_inputs /\
  ~ breakdown_nonneg overflowing_inputs.
Proof.
  split; [repeat split; reflexivity|]. split; [repeat split; reflexivity|].
  intros (b & m & H & Hall).
  apply Ok_inj in H. apply (f_equal fst) in H. cbn [fst] in H. subst b.
  specialize (Hall "Marge/Aufschlag"%string nan).
  assert (Hn : nonneg nan); [apply Hall | vm_compute in Hn; discriminate].
  vm_compute. do 7 right. left. reflexivity.
Qed.

(** C5 (amended): for every record whose fields are all non-negative and
    finite and whose pre-discount total does not overflow (is finite), every
    value stored in the breakdown, Freundschaftsrabatt included, is
    non-negative. *)
Theorem breakdown_nonneg_without_overflow (i : PricingInputs) (l : Locals) :
  all_fields nonneg i -> all_fields finite i ->
  compute_locals i = Ok l -> finite l.(pre_discount_total) ->
  breakdown_nonneg i.
Proof.
  intros HN HF Hl Fpre.
  pose proof (Ok_eq _ _ _ Hl (compute_locals_eq i)) as El. subst l.
  pose proof (locals_nonneg i HN HF Fpre)
    as (N1 & N2 & N3 & N4 & N5 & N6 & N7 & N8 & N9 & N10 & N11 & N12).
  destruct (compute_cost_returns i)
    as (b1 & b2 & b3 & b4 & b5 & b6 & b7 & b8 & b9 & b10 & b11 & b12 & m1 & m2
        & H & H1 & H2 & H3 & H4 & H5 & H6 & H7 & H8 & H9 & H10 & H11 & H12 & _).
  eexists _, _. split; [exact H|].
  intros k v Hin. cbn [In] in Hin.
  repeat (destruct Hin as [Hin|Hin];
          [apply (f_equal snd) in Hin; cbn [snd] in Hin; subst v;
           eapply round_money_nonneg; [|eassumption]; assumption|]).
  contradiction.
Qed.

(** The statement above at the scenario. *)
Lemma breakdown_nonneg_without_overflow_witness :
  all_fields nonneg scenario /\ all_fields finite scenario /\
  compute_locals scenario = Ok (locals_of_derivation (Spec.derive scenario)) /\
  finite (locals_of_derivation (Spec.derive scenario)).(pre_discount_total) /\
  breakdown_nonneg scenario.
Proof.
  split; [repeat split; reflexivity|]. split; [repeat split; reflexivity|].
  split; [reflexivity|]. split; [reflexivity|].
  apply (breakdown_nonneg_without_overflow scenario
           (locals_of_derivation (Spec.derive scenario))).
  - repeat split; reflexivity.
  - repeat split; reflexivity.
  - reflexivity.
  - reflexivity.
Defined.

(** C6: the meta dictionary holds [round(avg_power_w * print_time_h / 1000, 3)]
    under kwh and [round(filament_used_g + purge_waste_g, 1)] under
    filament_total_g, by the plain [round], with no epsilon added. *)
Theorem meta_is_plain_rounding (i : PricingInputs) :
  exists breakdown k g,
    compute_cost i = Ok (breakdown, [("kwh", k); ("filament_total_g", g)]%string) /\
    Py.round (i.(avg_power_w) * i.(print_time_h) / 1000) 3 = Ok k /\
    Py.round (i.(filament_used_g) + i.(purge_waste_g)) 1 = Ok g.
Proof.
  destruct (compute_cost_returns i)
    as (b1 & b2 & b3 & b4 & b5 & b6 & b7 & b8 & b9 & b10 & b11 & b12 & m1 & m2
        & H & _ & _ & _ & _ & _ & _ & _ & _ & _ & _ & _ & _ & Hk & Hg).
  eexists _, m1, m2. split; [exact H|]. split; assumption.
Qed.

(** On records of floats, the fields as annotated, [compute_cost] is
    total: whatever the floats, finite or not and of any sign, it returns a
    pair; neither the division by 1000.0 nor any call of [round] raises. *)
Lemma compute_cost_total_on_floats (i : PricingInputs) :
  exists breakdown meta, compute_cost i = Ok (breakdown, meta).
Proof.
  destruct (compute_cost_returns i)
    as (b1 & b2 & b3 & b4 & b5 & b6 & b7 & b8 & b9 & b10 & b11 & b12 & m1 & m2
        & H & _).
  eauto.
Qed.




(** The bound is within a factor of two of the best one for all fields
    alike: with ints of magnitude [2^512] for the power and the print time,
    the division by 1000.0 of line 53 raises [OverflowError]. *)
Lemma compute_cost_raises_on_huge_product :
  all_number_fields (within (2 ^ 512)) page_scenario_huge_product /\
  Dyn.compute_cost page_scenario_huge_product = Raise OverflowError.
Proof.
  split; [|vm_compute; reflexivity].
  repeat split; try exact I;
    cbn [within page_scenario_huge_product Dyn.filament_used_g Dyn.print_time_h
         Dyn.avg_power_w Dyn.purge_waste_g]; vm_compute; discriminate.
Qed.




(** C9: with the scenario's friend_discount_ratio set to 1.0 the pre-floor
    total is at most zero and the stored recommended price is exactly
    min_fee_eur, 10.0. *)
Theorem full_discount_hits_floor :
  exists l breakdown meta,
    compute_locals full_discount = Ok l /\ (l.(total) <=? 0) = true /\
    compute_cost full_discount = Ok (breakdown, meta) /\
    Py.get breakdown "Empfohlener Preis" = Some full_discount.(min_fee_eur) /\
    full_discount.(min_fee_eur) = 10.0.
Proof.
  eexists _, _, _.
  split; [vm_compute; reflexivity|].
  split; [vm_compute; reflexivity|].
  split; [vm_compute; reflexivity|].
  split; vm_compute; reflexivity.
Qed.




(** ** Zeros *)

Lemma is_zero_SF x : is_zero x = true <-> exists s, Prim2SF x = S754_zero s.
Proof.
  unfold is_zero. rewrite FloatAxioms.eqb_spec. change (Prim2SF zero) with (S754_zero false).
  destruct (Prim2SF x) as [s|s| |s m e]; unfold SFeqb; cbn [SFcompare].
  - split; [eauto | reflexivity].
  - split; [destruct s; discriminate | intros [? H]; discriminate].
  - split; [discriminate | intros [? H]; discriminate].
  - split; [destruct s; discriminate | intros [? H]; discriminate].
Qed.

Lemma zero_mul_l x y : is_zero x = true -> finite y -> is_zero (x * y) = true.
Proof.
  rewrite !is_zero_SF, finite_fin, mul_spec. intros [s Hx] Fy. rewrite Hx.
  destruct (Prim2SF y) as [t|t| |t m e]; try discriminate; cbn; eauto.
Qed.

Lemma zero_mul_r x y : finite x -> is_zero y = true -> is_zero (x * y) = true.
Proof.
  rewrite !is_zero_SF, finite_fin, mul_spec. intros Fx [s Hy]. rewrite Hy.
  destruct (Prim2SF x) as [t|t| |t m e]; try discriminate; cbn; eauto.
Qed.

Lemma zero_add x y : is_zero x = true -> is_zero y = true -> is_zero (x + y) = true.
Proof.
  rewrite !is_zero_SF, add_spec. intros [s Hx] [t Hy]. rewrite Hx, Hy.
  destruct s, t; cbn; eauto.
Qed.

Lemma zero_sub x y : is_zero x = true -> is_zero y = true -> is_zero (x - y) = true.
Proof.
  rewrite !is_zero_SF, sub_spec. intros [s Hx] [t Hy]. rewrite Hx, Hy.
  destruct s, t; cbn; eauto.
Qed.

Lemma zero_div_1000 x : is_zero x = true -> is_zero (x / 1000) = true.
Proof.
  rewrite !is_zero_SF, div_spec, Prim2SF_1000. intros [s Hx]. rewrite Hx. cbn. eauto.
Qed.

(** A zero of either sign plus [1e-9] is [1e-9], which rounds to [0.0]. *)
Lemma round_money_zero x : is_zero x = true -> round_money x = Ok 0.
Proof.
  rewrite is_zero_SF. intros [s Hx]. unfold round_money.
  assert (E : x + 1e-9 = 1e-9).
  { apply Prim2SF_inj. rewrite add_spec, Hx. reflexivity. }
  rewrite E. vm_compute. reflexivity.
Qed.

(** [max(t, fee)] for a zero [t]: the fee when it is greater than zero. *)
Lemma max_zero t fee : is_zero t = true -> Py.max t fee = if 0 <? fee then fee else t.
Proof.
  rewrite is_zero_SF. intros [s Ht]. unfold Py.max.
  rewrite !FloatAxioms.ltb_spec, Ht. change (Prim2SF 0) with (S754_zero false).
  reflexivity.
Qed.

(** ** Sums and their parts *)

(** A non-negative float is its own rounding. *)
Lemma RN_Ord x : nonneg x -> RN (Ord x) 1 = Ord x.
Proof.
  intros Hx. apply nonneg_nn in Hx. unfold Ord.
  pose proof (Prim2SF_valid x) as Hv.
  destruct (Prim2SF x) as [s|s| |s m e]; cbn [nn ord] in *; try discriminate.
  - apply RN_0. lia.
  - apply RN_TOP.
  - apply RN_representable. exact Hv.
Qed.

Lemma add_ge_l a b : nonneg a -> nonneg b -> (a <=? a + b) = true.
Proof.
  intros Ha Hb. destruct (add_Ord a b Ha Hb) as [Hn Ho].
  apply le_Ord; try assumption. rewrite Ho, <- (RN_Ord a Ha) at 1.
  pose proof (Ord_range a). pose proof (Ord_range b).
  apply RN_mono; lia.
Qed.

Lemma add_ge_r a b : nonneg a -> nonneg b -> (b <=? a + b) = true.
Proof.
  intros Ha Hb. destruct (add_Ord a b Ha Hb) as [Hn Ho].
  apply le_Ord; try assumption. rewrite Ho, <- (RN_Ord b Hb) at 1.
  pose proof (Ord_range a). pose proof (Ord_range b).
  apply RN_mono; lia.
Qed.

Lemma leb_trans_nonneg a b c :
  nonneg a -> nonneg b -> nonneg c ->
  (a <=? b) = true -> (b <=? c) = true -> (a <=? c) = true.
Proof.
  intros Ha Hb Hc Hab Hbc.
  apply le_Ord in Hab; try assumption. apply le_Ord in Hbc; try assumption.
  apply le_Ord; try assumption. lia.
Qed.

(** What is at least a non-negative float is non-negative. *)
Lemma nonneg_of_le x y : nonneg x -> (x <=? y) = true -> nonneg y.
Proof.
  intros Hx Hle. apply nonneg_nn. apply nonneg_nn in Hx.
  rewrite FloatAxioms.leb_spec in Hle.
  destruct (Prim2SF x) as [s|s| |s m e], (Prim2SF y) as [t|t| |t m' e'];
    cbn [nn] in *; try discriminate; try reflexivity;
    try (destruct s; try discriminate); try (destruct t; try discriminate);
    try reflexivity; try discriminate.
Qed.

(** A product with a factor of at most one is at most the other factor. *)
Lemma mul_le_1 a r :
  nonneg a -> nonneg r -> finite a -> (r <=? 1) = true -> (a * r <=? a) = true.
Proof.
  intros Ha Hr Fa Hr1.
  assert (N1 : nonneg 1) by reflexivity.
  assert (F1 : finite 1) by reflexivity.
  destruct (mul_mono a a r 1 Ha Ha Hr N1 Fa F1 (leb_refl_nonneg a Ha) Hr1)
    as (Hle & _ & Fr).
  destruct (mul_Ord a r Ha Hr Fa Fr) as [Hn _].
  destruct (mul_Ord a 1 Ha N1 Fa F1) as [Hn1 Ho1].
  apply le_Ord in Hle; try assumption. apply le_Ord; try assumption.
  assert (E : Ord (a * 1) = Ord a).
  { rewrite Ho1. change (Ord 1) with (2 ^ 1074)%Z. rewrite <- (RN_Ord a Ha) at 2.
    assert (0 < 2 ^ 1074)%Z by (apply Z.pow_pos_nonneg; lia).
    pose proof (Ord_range a). apply RN_ext; lia. }
  lia.
Qed.

(** ** Differences and maxima in units *)

Local Open Scope Z_scope.

(** The difference of two non-negative floats, the smaller one taken from
    a finite larger one, is the rounding of the exact difference. *)
Lemma SFsub_units a b :
  valid_binary a = true -> valid_binary b = true -> nn a = true -> nn b = true ->
  fin a = true -> ord b <= ord a ->
  let r := SFsub prec emax a b in
  ord r = RN (ord a - ord b) 1 /\ nn r = true.
Proof.
  intros Va Vb Na Nb Fa Hle. cbv zeta.
  destruct a as [sa|sa| |sa ma ea]; try discriminate;
  destruct b as [sb|sb| |sb mb eb]; try discriminate;
  cbn [nn] in Na, Nb; try (destruct sa; try discriminate);
  try (destruct sb; try discriminate); cbn [SFsub ord valid_binary nn negb] in *;
  try (pose proof (bounded_ord _ _ Va)); try (pose proof (bounded_ord _ _ Vb));
  try (unfold TOP in *; lia).
  all: try (split; [|reflexivity]; cbn [ord]; rewrite RN_0 by lia; reflexivity).
  all: try (split; [|reflexivity]; cbn [ord]; rewrite Z.sub_0_r; symmetry;
            apply RN_representable; assumption).
  pose proof (valid_exp_ge false _ _ Va) as Hea. pose proof (valid_exp_ge false _ _ Vb) as Heb.
  pose proof (shl_align_spec ma ea (Z.min ea eb)) as Sa.
  pose proof (shl_align_spec mb eb (Z.min ea eb)) as Sb.
  destruct (shl_align ma ea (Z.min ea eb)) as [ma' ea'].
  destruct (shl_align mb eb (Z.min ea eb)) as [mb' eb'].
  destruct Sa as [Hea' Hma]. destruct Sb as [Heb' Hmb].
  cbn [fst cond_Zopp].
  assert (Ea' : ea' = Z.min ea eb) by lia. assert (Eb' : eb' = Z.min ea eb) by lia.
  rewrite Ea' in Hma. rewrite Eb' in Hmb. clear Hea' Heb' Ea' Eb'.
  set (ez := Z.min ea eb) in *.
  assert (Ea : 2 ^ (ea + 1074) = 2 ^ (ea - ez) * 2 ^ (ez + 1074)).
  { rewrite <- Z.pow_add_r by lia. f_equal. lia. }
  assert (Eb : 2 ^ (eb + 1074) = 2 ^ (eb - ez) * 2 ^ (ez + 1074)).
  { rewrite <- Z.pow_add_r by lia. f_equal. lia. }
  assert (HU : 0 < 2 ^ (ez + 1074)) by (apply Z.pow_pos_nonneg; lia).
  assert (Hdiff : Z.pos ma * 2 ^ (ea + 1074) - Z.pos mb * 2 ^ (eb + 1074)
                  = (Z.pos ma' - Z.pos mb') * 2 ^ (ez + 1074)).
  { rewrite Ea, Eb, Hma, Hmb. ring. }
  rewrite Hdiff.
  assert (Hm : Z.pos mb' <= Z.pos ma') by nia.
  destruct (Z.pos ma' - Z.pos mb') as [|d|d] eqn:Hd; try lia; cbn [binary_normalize].
  - split; [|reflexivity]. cbn [ord]. rewrite Z.mul_0_l, RN_0 by lia. reflexivity.
  - pose proof (binary_round_units d ez ltac:(lia)) as Hr. cbv zeta in Hr.
    destruct Hr as (Ho & Hn & _). split; assumption.
Qed.

Local Open Scope float_scope.

Lemma sub_Ord a b :
  nonneg a -> nonneg b -> finite a -> (b <=? a) = true ->
  nonneg (a - b) /\ Ord (a - b) = RN (Ord a - Ord b) 1.
Proof.
  intros Ha Hb Fa Hle. apply le_Ord in Hle; try assumption.
  apply nonneg_nn in Ha, Hb. apply finite_fin in Fa.
  pose proof (SFsub_units _ _ (Prim2SF_valid a) (Prim2SF_valid b) Ha Hb Fa Hle) as H.
  cbv zeta in H. destruct H as (Ho & Hn).
  unfold Ord. rewrite nonneg_nn, sub_spec. split; assumption.
Qed.

Lemma sub_nonneg a b :
  nonneg a -> nonneg b -> finite a -> (b <=? a) = true -> nonneg (a - b).
Proof. intros Ha Hb Fa Hle. apply sub_Ord; assumption. Qed.

(** Taking more away leaves less. *)
Lemma sub_mono a b1 b2 :
  nonneg a -> nonneg b1 -> nonneg b2 -> finite a ->
  (b1 <=? b2) = true -> (b2 <=? a) = true ->
  (a - b2 <=? a - b1) = true.
Proof.
  intros Ha H1 H2 Fa H12 H2a.
  assert (H1a : (b1 <=? a) = true) by (apply (leb_trans_nonneg b1 b2 a); assumption).
  destruct (sub_Ord a b1 Ha H1 Fa H1a) as [N1 O1].
  destruct (sub_Ord a b2 Ha H2 Fa H2a) as [N2 O2].
  apply le_Ord in H12; try assumption. apply le_Ord in H2a; try assumption.
  apply le_Ord; try assumption. rewrite O1, O2.
  apply RN_mono; lia.
Qed.

(** [max(a, b)] is at least [a]. *)
Lemma max_ge_l a b : nonneg a -> nonneg b -> (a <=? Py.max a b) = true.
Proof.
  intros Ha Hb. unfold Py.max. destruct (a <? b) eqn:Hlt.
  - rewrite ltb_Ord in Hlt by assumption. apply Z.ltb_lt in Hlt.
    apply le_Ord; [assumption..|lia].
  - apply leb_refl_nonneg. assumption.
Qed.

(** When [max(a, b)] keeps a non-NaN [a], then [a >= b >= 0]. *)
Lemma max_keeps a b :
  is_nan a = false -> nonneg b -> (a <? b) = false -> nonneg a /\ (b <=? a) = true.
Proof.
  intros Na Hb Hlt.
  assert (Ha : nonneg a).
  { apply nonneg_nn. rewrite is_nan_notnan in Na. apply negb_false_iff in Na.
    rewrite FloatAxioms.ltb_spec in Hlt.
    apply (SFltb_false_nn _ (Prim2SF b)); [assumption | apply nonneg_nn; assumption | assumption]. }
  split; [assumption|].
  rewrite ltb_Ord in Hlt by assumption. apply le_Ord; [assumption..|].
  apply Z.ltb_ge in Hlt. exact Hlt.
Qed.

(** [max(t, .)] is monotone on non-negative floors, for any non-NaN [t]. *)
Lemma max_mono_r t f1 f2 :
  is_nan t = false -> nonneg f1 -> (f1 <=? f2) = true ->
  nonneg (Py.max t f1) /\ nonneg (Py.max t f2) /\
  (Py.max t f1 <=? Py.max t f2) = true.
Proof.
  intros Nt H1 Hle. pose proof (nonneg_of_le f1 f2 H1 Hle) as H2.
  split; [apply max_floor; assumption|]. split; [apply max_floor; assumption|].
  unfold Py.max.
  destruct (t <? f1) eqn:L1, (t <? f2) eqn:L2.
  - exact Hle.
  - destruct (max_keeps t f2 Nt H2 L2) as [Ht Hf2].
    apply (leb_trans_nonneg f1 f2 t); assumption.
  - destruct (max_keeps t f1 Nt H1 L1) as [Ht _].
    rewrite ltb_Ord in L2 by assumption. apply Z.ltb_lt in L2.
    apply le_Ord; [assumption..|lia].
  - destruct (max_keeps t f1 Nt H1 L1) as [Ht _]. apply leb_refl_nonneg. assumption.
Qed.

(** [max(., f)] is monotone on non-negative floats. *)
Lemma max_mono_l t1 t2 f :
  nonneg t1 -> nonneg t2 -> nonneg f -> (t1 <=? t2) = true ->
  nonneg (Py.max t1 f) /\ nonneg (Py.max t2 f) /\
  (Py.max t1 f <=? Py.max t2 f) = true.
Proof.
  intros H1 H2 Hf Hle.
  split; [apply max_floor; [apply nonneg_not_nan|]; assumption|].
  split; [apply max_floor; [apply nonneg_not_nan|]; assumption|].
  unfold Py.max.
  destruct (t1 <? f) eqn:L1, (t2 <? f) eqn:L2.
  - apply leb_refl_nonneg. assumption.
  - rewrite ltb_Ord in L2 by assumption. apply Z.ltb_ge in L2.
    apply le_Ord; [assumption..|lia].
  - apply le_Ord in Hle; try assumption.
    rewrite ltb_Ord in L1, L2 by assumption. apply Z.ltb_ge in L1. apply Z.ltb_lt in L2.
    apply le_Ord; [assumption..|lia].
  - exact Hle.
Qed.

(** ** A rounded amount read back in decimal *)

Local Open Scope Z_scope.

(** [half_even P Q] is the integer that [P / Q] is less than a half away from. *)
Lemma half_even_close n P Q : 0 < Q -> 2 * Z.abs (P - n * Q) < Q -> half_even P Q = n.
Proof.
  intros HQ Hn. unfold half_even.
  pose proof (Z_div_mod P Q ltac:(lia)) as H.
  destruct (Z.div_eucl P Q) as [d r]. destruct H as [HP Hr].
  destruct (Z_le_gt_dec (n * Q) P) as [Hle|Hgt].
  - assert (d = n) by nia. subst d.
    destruct (Z.compare_spec (2 * r) Q); [lia | reflexivity | lia].
  - assert (d = n - 1) by nia. subst d.
    destruct (Z.compare_spec (2 * r) Q); [lia | lia | lia].
Qed.

(** [half_even P Q] is at most a half away from [P / Q]. *)
Lemma half_even_err P Q : 0 < Q -> 2 * Z.abs (half_even P Q * Q - P) <= Q.
Proof.
  intros HQ. unfold half_even.
  pose proof (Z_div_mod P Q ltac:(lia)) as H.
  destruct (Z.div_eucl P Q) as [d r]. destruct H as [HP Hr].
  destruct (Z.compare_spec (2 * r) Q); [destruct (Z.even d)| |]; nia.
Qed.

(** The decimal fraction [n / T] with [T * 2^c < 2^52], at most [2^c]:
    the binary64 value nearest to it is less than half a unit of [1 / T]
    away, so that the conversion back to decimal finds [n] again. *)
Lemma RN_decimal_fixed n T c :
  0 <= n -> 0 < T -> 0 <= c -> n <= T * 2 ^ c -> T * 2 ^ c < 2 ^ 52 ->
  half_even (RN (n * 2 ^ 1074) T * T) (2 ^ 1074) = n.
Proof.
  intros Hn HT Hc Hle Hlt.
  assert (H2c : 0 < 2 ^ c) by (apply Z.pow_pos_nonneg; lia).
  assert (HU : 0 < 2 ^ 1074) by (apply Z.pow_pos_nonneg; lia).
  assert (Hc52 : c < 52).
  { destruct (Z_lt_ge_dec c 52) as [|Hge]; [assumption|].
    assert (2 ^ 52 <= 2 ^ c) by (apply Z.pow_le_mono_r; lia). nia. }
  set (N := n * 2 ^ 1074).
  assert (HN : 0 <= N) by (unfold N; nia).
  assert (Hq0 : 0 <= N / T) by (apply Z.div_pos; lia).
  assert (Hq : N / T < 2 ^ (c + 1075)).
  { apply Z.div_lt_upper_bound; [lia|].
    replace (c + 1075) with (c + 1 + 1074) by lia.
    rewrite (Z.pow_add_r 2 (c + 1) 1074), (Z.pow_add_r 2 c 1) by lia.
    change (2 ^ 1) with 2. unfold N. nia. }
  pose proof (Zdigits2_lt_pow _ (c + 1075) Hq0 ltac:(lia) Hq) as Hd.
  unfold RN. fold N.
  set (k := Z.max (Zdigits2 (N / T) - 53) 0).
  assert (Hk : 0 <= k <= c + 1022) by (unfold k; lia).
  assert (HA : 0 < 2 ^ k) by (apply Z.pow_pos_nonneg; lia).
  assert (HAle : 2 ^ k <= 2 ^ (c + 1022)) by (apply Z.pow_le_mono_r; lia).
  assert (Hsplit : 2 ^ (c + 1022) = 2 ^ c * 2 ^ 1022) by (apply Z.pow_add_r; lia).
  assert (H1074 : 2 ^ 1074 = 2 ^ 52 * 2 ^ 1022) by reflexivity.
  assert (H1022 : 0 < 2 ^ 1022) by (apply Z.pow_pos_nonneg; lia).
  pose proof (half_even_err N (T * 2 ^ k) ltac:(nia)) as Herr.
  set (h := half_even N (T * 2 ^ k)) in *.
  assert (HTA : T * 2 ^ k < 2 ^ 1074).
  { rewrite H1074. apply Z.le_lt_trans with (T * 2 ^ (c + 1022)).
    - apply Z.mul_le_mono_nonneg_l; lia.
    - rewrite Hsplit, Z.mul_assoc. apply Z.mul_lt_mono_pos_r; lia. }
  assert (Hh : h * 2 ^ k < TOP).
  { assert (HhT : h * 2 ^ k * T <= N + T * 2 ^ k) by lia.
    assert (HNle : N <= T * 2 ^ c * 2 ^ 1074) by (unfold N; nia).
    assert (Hb : h * 2 ^ k * T < T * (2 ^ 52 * 2 ^ 1074 + 2 ^ 1074)) by nia.
    assert (h * 2 ^ k < 2 ^ 52 * 2 ^ 1074 + 2 ^ 1074) by nia.
    assert (2 ^ 52 * 2 ^ 1074 + 2 ^ 1074 < TOP) by (vm_compute; reflexivity).
    lia. }
  rewrite Z.min_l by lia.
  apply half_even_close; [lia|]. fold N.
  replace (h * 2 ^ k * T) with (h * (T * 2 ^ k)) by ring. lia.
Qed.

(** The decimal conversion of a non-negative float, from its value in units. *)
Lemma dtoa3_Ord m e nd :
  bounded prec emax m e = true -> 0 <= nd ->
  dtoa3 nd m e = half_even (Z.pos m * 2 ^ (e + 1074) * 10 ^ nd) (2 ^ 1074).
Proof.
  intros Hb Hnd. destruct (bounded_inv m e Hb) as (_ & _ & _ & He).
  unfold dtoa3. replace (Z.max (- nd) 0) with 0 by lia.
  replace (Z.max nd 0) with nd by lia. change (10 ^ 0) with 1.
  assert (0 < 2 ^ Z.max (- e) 0) by (apply Z.pow_pos_nonneg; lia).
  assert (0 < 10 ^ nd) by (apply Z.pow_pos_nonneg; lia).
  assert (0 < 2 ^ Z.max e 0) by (apply Z.pow_pos_nonneg; lia).
  assert (0 < 2 ^ 1074) by (apply Z.pow_pos_nonneg; lia).
  apply half_even_ext; try lia; try nia.
  assert (Hp2 : 2 ^ Z.max e 0 * 2 ^ 1074 = 2 ^ (e + 1074) * 2 ^ Z.max (- e) 0).
  { rewrite <- !Z.pow_add_r by lia. f_equal. lia. }
  transitivity (Z.pos m * 10 ^ nd * (2 ^ Z.max e 0 * 2 ^ 1074)); [ring|].
  rewrite Hp2. ring.
Qed.

(** What [format] prints of a float that is [+0.0] or positive and finite. *)
Lemma decimal_of_Ord (nd : nat) x :
  nonneg x -> finite x -> x <> neg_zero ->
  decimal_of nd x = Some (false, half_even (Ord x * 10 ^ Z.of_nat nd) (2 ^ 1074)).
Proof.
  intros Hx Fx Hnz. apply nonneg_nn in Hx. apply finite_fin in Fx.
  pose proof (Prim2SF_valid x) as Hv. unfold decimal_of, Ord.
  destruct (Prim2SF x) as [s|s| |s m e] eqn:Hp; cbn [nn fin ord] in *; try discriminate.
  - destruct s.
    + exfalso. apply Hnz. apply Prim2SF_inj. rewrite Hp. reflexivity.
    + rewrite Z.mul_0_l, half_even_0 by (apply Z.pow_pos_nonneg; lia). reflexivity.
  - destruct s; [discriminate|]. cbn [valid_binary] in Hv.
    rewrite dtoa3_Ord by (assumption || lia). reflexivity.
Qed.

Lemma decimal_of_finite (nd : nat) x :
  finite x -> exists sn, decimal_of nd x = Some sn.
Proof.
  intros Fx. apply finite_fin in Fx. unfold decimal_of.
  destruct (Prim2SF x) as [s|s| |s m e]; try discriminate; eauto.
Qed.

Local Open Scope float_scope.

(** Floats with the same value in units, not zero, are the same float. *)
Lemma Ord_inj x y : nonneg x -> nonneg y -> Ord x = Ord y -> (0 < Ord x)%Z -> x = y.
Proof.
  intros Hx Hy E Hpos. apply nonneg_nn in Hx, Hy.
  pose proof (Prim2SF_valid x) as Vx. pose proof (Prim2SF_valid y) as Vy.
  apply Prim2SF_inj. unfold Ord in *.
  destruct (Prim2SF x) as [s|s| |s m e], (Prim2SF y) as [t|t| |t m' e'];
    cbn [nn ord valid_binary] in *; try discriminate; try lia;
    try (destruct s; [discriminate|]); try (destruct t; [discriminate|]);
    try reflexivity;
    try (pose proof (bounded_ord _ _ Vx)); try (pose proof (bounded_ord _ _ Vy)); try lia.
  destruct (Z.compare_spec e e') as [He|He|He].
  - subst e'. destruct (bounded_inv _ _ Vx) as (_ & _ & _ & Hlo).
    assert (0 < 2 ^ (e + 1074))%Z by (apply Z.pow_pos_nonneg; lia).
    assert (Z.pos m = Z.pos m') by nia. congruence.
  - pose proof (bounded_lt_exp m e m' e' Vx Vy He). lia.
  - pose proof (bounded_lt_exp m' e' m e Vy Vx He). lia.
Qed.

(** The place [round] takes a non-negative float to is a fixed point of
    [round], and [format] prints the same digits of both. *)
Lemma round_settled (nd : nat) (c : Z) x p :
  nonneg x -> (Z.of_nat nd <= 323)%Z -> (0 <= c)%Z ->
  (10 ^ Z.of_nat nd * 2 ^ c < 2 ^ 52)%Z -> (Ord x <= 2 ^ c * 2 ^ 1074)%Z ->
  Py.round x (Z.of_nat nd) = Ok p ->
  Py.round p (Z.of_nat nd) = Ok p /\ decimal_of nd p = decimal_of nd x.
Proof.
  intros Hx Hnd Hc HT Hb Hp.
  assert (HT0 : (0 < 10 ^ Z.of_nat nd)%Z) by (apply Z.pow_pos_nonneg; lia).
  assert (HU : (0 < 2 ^ 1074)%Z) by (apply Z.pow_pos_nonneg; lia).
  assert (H2c : (0 < 2 ^ c)%Z) by (apply Z.pow_pos_nonneg; lia).
  assert (Hfin : (Ord x < TOP)%Z).
  { assert (c < 52)%Z.
    { destruct (Z_lt_ge_dec c 52) as [|Hge]; [assumption|].
      assert (2 ^ 52 <= 2 ^ c)%Z by (apply Z.pow_le_mono_r; lia). nia. }
    assert (2 ^ c <= 2 ^ 52)%Z by (apply Z.pow_le_mono_r; lia).
    assert (2 ^ 52 * 2 ^ 1074 < TOP)%Z by (vm_compute; reflexivity). nia. }
  pose proof (proj1 (nonneg_nn x) Hx) as Hn.
  pose proof (Prim2SF_valid x) as Hv.
  destruct (Prim2SF x) as [s|s| |s m e] eqn:Hsf; cbn [nn] in Hn; try discriminate.
  - (* a zero rounds to itself *)
    assert (E : p = x).
    { unfold Py.round in Hp. rewrite Hsf in Hp. apply Ok_inj in Hp. congruence. }
    subst p. split; [|reflexivity]. unfold Py.round. rewrite Hsf. reflexivity.
  - exfalso. unfold Ord in Hfin. rewrite Hsf in Hfin. cbn [ord] in Hfin. lia.
  - destruct s; [discriminate|].
    destruct (round_finite x false m e (Z.of_nat nd) Hsf ltac:(lia)) as (r & Hr & Hvr & Hshape).
    pose proof (Ok_eq _ _ _ Hp Hr) as Ep.
    assert (Hpr : Prim2SF p = r) by (rewrite Ep; apply Prim2SF_SF2Prim; assumption).
    destruct (round_Ord x (Z.of_nat nd) Hx ltac:(lia)) as (p' & Hp' & Np & Op).
    pose proof (Ok_eq _ _ _ Hp' Hp) as E'. subst p'.
    unfold round_units in Op.
    destruct (Z.ltb_spec (Ord x) TOP) as [_|]; [|lia].
    set (n := half_even (Ord x * 10 ^ Z.of_nat nd) (2 ^ 1074)) in *.
    pose proof (Ord_range x) as Hox.
    assert (Hn0 : (0 <= n)%Z) by (apply half_even_ge_bound; [lia | nia]).
    assert (Hnle : (n <= 10 ^ Z.of_nat nd * 2 ^ c)%Z).
    { apply half_even_le_bound; [lia|]. nia. }
    pose proof (RN_decimal_fixed n (10 ^ Z.of_nat nd) c Hn0 HT0 Hc Hnle HT) as Hfix.
    rewrite <- Op in Hfix.
    assert (Fp : finite p).
    { apply finite_fin. rewrite Hpr. destruct Hshape as [->|(m' & e' & ->)]; reflexivity. }
    assert (Hnz : p <> neg_zero).
    { intros E. rewrite E in Hpr. change (Prim2SF neg_zero) with (S754_zero true) in Hpr.
      destruct Hshape as [Hz|(m' & e' & Hf)]; rewrite <- Hpr in *; discriminate. }
    assert (Fx : finite x) by (apply finite_fin; rewrite Hsf; reflexivity).
    assert (Hxnz : x <> neg_zero).
    { intros E. rewrite E in Hsf. discriminate. }
    split.
    + destruct (round_Ord p (Z.of_nat nd) Np ltac:(lia)) as (q & Hq & Nq & Oq).
      rewrite Hq. f_equal.
      unfold round_units in Oq.
      assert (Hpfin : (Ord p < TOP)%Z) by (apply finite_Ord; assumption).
      destruct (Z.ltb_spec (Ord p) TOP) as [_|]; [|lia].
      rewrite Hfix, <- Op in Oq.
      destruct (Z_le_gt_dec (Ord p) 0) as [Hz|Hpos].
      * (* [p] is [+0.0] *)
        assert (Ez : Prim2SF p = S754_zero false).
        { pose proof (Ord_range p). unfold Ord in Hz. rewrite Hpr in *.
          destruct Hshape as [->|(m' & e' & ->)]; [reflexivity|].
          cbn [ord] in Hz. cbn [valid_binary] in Hvr.
          pose proof (bounded_inv m' e' Hvr) as (_ & _ & _ & He').
          assert (0 < 2 ^ (e' + 1074))%Z by (apply Z.pow_pos_nonneg; lia). nia. }
        unfold Py.round in Hq. rewrite Ez in Hq. apply Ok_inj in Hq. symmetry. exact Hq.
      * apply Ord_inj; [assumption | assumption | exact Oq | lia].
    + rewrite !decimal_of_Ord by assumption. fold n. rewrite Hfix. reflexivity.
Qed.

(** ** Dictionaries of the page *)

Lemma Value_inj {A : Type} (a b : A) : Value a = Value b -> a = b.
Proof. intros H. exact (f_equal (fun r => match r with Value x => x | KeyError _ => a end) H). Qed.

Lemma KeyError_inj {A : Type} (j k : string) : @KeyError A j = KeyError k -> j = k.
Proof. intros H. exact (f_equal (fun r => match r with Value _ => j | KeyError x => x end) H). Qed.

Lemma lookup_setitem d k v k' :
  lookup (setitem d k v) k' = if String.eqb k' k then Some v else lookup d k'.
Proof.
  induction d as [|[k0 v0] d IH]; cbn [setitem lookup].
  - reflexivity.
  - destruct (String.eqb_spec k k0) as [->|Hk]; cbn [lookup].
    + destruct (String.eqb k' k0); reflexivity.
    + rewrite IH. destruct (String.eqb_spec k' k0) as [->|Hk0]; [|reflexivity].
      destruct (String.eqb_spec k0 k) as [E|_]; [congruence | reflexivity].
Qed.

Lemma lookup_app d e k :
  lookup (d ++ e)%list k = match lookup d k with Some v => Some v | None => lookup e k end.
Proof.
  induction d as [|[k0 v0] d IH]; cbn [app lookup]; [reflexivity|].
  destruct (String.eqb k k0); [reflexivity | exact IH].
Qed.

(** After [d.update(e)] a key has the value of its last entry in [e], and
    its old value when [e] has none. *)
Lemma lookup_update d e k :
  lookup (update d e) k = match lookup (rev e) k with Some v => Some v | None => lookup d k end.
Proof.
  unfold update. revert d. induction e as [|[k0 v0] e IH]; intros d; cbn [fold_left rev].
  - reflexivity.
  - rewrite IH, lookup_app, lookup_setitem. cbn [fst snd lookup].
    destruct (lookup (rev e) k); [reflexivity|].
    destruct (String.eqb k k0); reflexivity.
Qed.

Lemma lookup_of_dict d k :
  lookup (of_dict d) k = option_map VFloat (get d k).
Proof.
  induction d as [|[k0 v0] d IH]; cbn [of_dict map lookup get fst snd option_map];
    [reflexivity|].
  destruct (String.eqb k k0); [reflexivity | exact IH].
Qed.

Lemma lookup_None_not_In d k : ~ In k (map fst d) -> lookup d k = None.
Proof.
  induction d as [|[k0 v0] d IH]; cbn [map fst In lookup]; [reflexivity|].
  intros H. destruct (String.eqb_spec k k0) as [->|_]; [tauto|]. apply IH. tauto.
Qed.

(** In a dictionary without duplicate keys the last entry of a key is its
    only one. *)
Lemma lookup_rev d k : NoDup (map fst d) -> lookup (rev d) k = lookup d k.
Proof.
  induction d as [|[k0 v0] d IH]; cbn [map fst rev lookup]; [reflexivity|].
  intros H. inversion H as [|? ? Hn Hd]; subst.
  rewrite lookup_app. cbn [lookup].
  destruct (String.eqb_spec k k0) as [->|Hk].
  - rewrite lookup_None_not_In; [reflexivity|].
    rewrite map_rev. rewrite <- in_rev. exact Hn.
  - rewrite IH by assumption. destruct (lookup d k); reflexivity.
Qed.

Lemma In_keys_setitem d k v x :
  In x (map fst (setitem d k v)) <-> In x (map fst d) \/ x = k.
Proof.
  induction d as [|[k0 v0] d IH]; cbn [setitem map fst In].
  - split; [intros [H|[]]; auto | intros [[]|H]; auto].
  - destruct (String.eqb_spec k k0) as [->|Hk]; cbn [map fst In].
    + split; [tauto | intros [H|H]; [exact H | left; congruence]].
    + rewrite IH. tauto.
Qed.

(** Storing an entry keeps the keys of a dictionary distinct. *)
Lemma NoDup_setitem d k v : NoDup (map fst d) -> NoDup (map fst (setitem d k v)).
Proof.
  induction d as [|[k0 v0] d IH]; cbn [setitem map fst]; intros H.
  - constructor; [intros [] | constructor].
  - inversion H as [|? ? Hn Hd]; subst.
    destruct (String.eqb_spec k k0) as [->|Hk]; cbn [map fst].
    + constructor; assumption.
    + constructor; [|apply IH; assumption].
      rewrite In_keys_setitem. intros [Hin|E]; [contradiction | congruence].
Qed.

Lemma NoDup_update d e : NoDup (map fst d) -> NoDup (map fst (update d e)).
Proof.
  unfold update. revert d. induction e as [|[k0 v0] e IH]; intros d H; cbn [fold_left].
  - exact H.
  - apply IH, NoDup_setitem, H.
Qed.

Lemma keys_of_dict d : map fst (of_dict d) = map fst d.
Proof. unfold of_dict. rewrite map_map. reflexivity. Qed.

(** [-abs(x)] is never greater than zero. *)
Lemma opp_abs_not_positive x : (0 <? - abs x) = false.
Proof.
  rewrite FloatAxioms.ltb_spec, opp_spec, abs_spec. change (Prim2SF 0) with (S754_zero false).
  destruct (Prim2SF x) as [s|s| |s m e]; reflexivity.
Qed.

(** ** Further properties of the engine *)

(** X1: a job without work costs the minimum fee.  With zero filament,
    purge, print time, labour hours and packaging, and finite rates and
    ratios of any sign, every line of the breakdown before the price is
    exactly [0.0], and the price is the rounded minimum fee when that is
    greater than zero and [0.0] otherwise. *)
Theorem no_work_costs_the_min_fee (i : PricingInputs) :
  is_zero i.(filament_used_g) = true -> is_zero i.(purge_waste_g) = true ->
  is_zero i.(print_time_h) = true -> is_zero i.(labor_hours) = true ->
  is_zero i.(packaging_shipping_eur) = true ->
  finite i.(filament_eur_per_kg) -> finite i.(electricity_eur_per_kwh) ->
  finite i.(avg_power_w) -> finite i.(depreciation_eur_per_h) ->
  finite i.(labor_rate_eur_per_h) -> finite i.(consumables_ratio) ->
  finite i.(risk_ratio) -> finite i.(markup_ratio) -> finite i.(friend_discount_ratio) ->
  exists price meta,
    compute_cost i =
      Ok ([("Material", 0); ("Energie", 0); ("Maschine/Verschleiß", 0);
           ("Arbeit", 0); ("Verbrauchsmaterial-Puffer", 0);
           ("Risiko-Puffer", 0); ("Zwischensumme", 0);
           ("Marge/Aufschlag", 0); ("Summe vor Rabatt", 0);
           ("Freundschaftsrabatt", 0); ("Verpackung/Versand", 0);
           ("Empfohlener Preis", price)], meta) /\
    round_money (if 0 <? i.(min_fee_eur) then i.(min_fee_eur) else 0) = Ok price.
Proof.
  intros Zg Zpurge Zt Zlh Zpack Fprice Fel Fpw Fdep Flr Fcr Frr Fmr Ffr.
  destruct (compute_cost_returns i)
    as (b1 & b2 & b3 & b4 & b5 & b6 & b7 & b8 & b9 & b10 & b11 & b12 & m1 & m2
        & H & H1 & H2 & H3 & H4 & H5 & H6 & H7 & H8 & H9 & H10 & H11 & H12 & _).
  cbn [locals_of_derivation Spec.derive material_eur energy_eur machine_eur labor_eur
       consumables_eur risk_buffer_eur subtotal_before_markup markup_eur
       pre_discount_total friend_discount_eur final_total_eur
       Spec.material Spec.energy Spec.machine Spec.labor Spec.consumables Spec.risk
       Spec.subtotal Spec.markup Spec.pre_discount_total Spec.friend_discount
       Spec.final_total] in *.
  set (mat := (filament_used_g i + purge_waste_g i) / 1000 * filament_eur_per_kg i) in *.
  set (en := avg_power_w i * print_time_h i / 1000 * electricity_eur_per_kwh i) in *.
  set (mach := print_time_h i * depreciation_eur_per_h i) in *.
  set (lab := labor_hours i * labor_rate_eur_per_h i) in *.
  set (cons := (mat + en) * consumables_ratio i) in *.
  set (risk := (mat + en + mach) * risk_ratio i) in *.
  set (sub := mat + en + mach + lab + cons + risk) in *.
  set (markup := sub * markup_ratio i) in *.
  set (pre := sub + markup) in *.
  set (friend := pre * friend_discount_ratio i) in *.
  set (tot := pre - friend + packaging_shipping_eur i) in *.
  assert (Zmat : is_zero mat = true)
    by (apply zero_mul_l; [apply zero_div_1000, zero_add|]; assumption).
  assert (Zen : is_zero en = true)
    by (apply zero_mul_l; [apply zero_div_1000, zero_mul_r|]; assumption).
  assert (Zmach : is_zero mach = true) by (apply zero_mul_l; assumption).
  assert (Zlab : is_zero lab = true) by (apply zero_mul_l; assumption).
  assert (Z2 : is_zero (mat + en) = true) by (apply zero_add; assumption).
  assert (Zcons : is_zero cons = true) by (apply zero_mul_l; assumption).
  assert (Z3 : is_zero (mat + en + mach) = true) by (apply zero_add; assumption).
  assert (Zrisk : is_zero risk = true) by (apply zero_mul_l; assumption).
  assert (Zsub : is_zero sub = true) by (repeat apply zero_add; assumption).
  assert (Zmarkup : is_zero markup = true) by (apply zero_mul_l; assumption).
  assert (Zpre : is_zero pre = true) by (apply zero_add; assumption).
  assert (Zfriend : is_zero friend = true) by (apply zero_mul_l; assumption).
  assert (Ztot : is_zero tot = true)
    by (apply zero_add; [apply zero_sub|]; assumption).
  rewrite round_money_zero in H1, H2, H3, H4, H5, H6, H7, H8, H9, H10, H11 by assumption.
  apply Ok_inj in H1, H2, H3, H4, H5, H6, H7, H8, H9, H10, H11.
  subst b1 b2 b3 b4 b5 b6 b7 b8 b9 b10 b11.
  exists b12, [("kwh", m1); ("filament_total_g", m2)]. split; [exact H|].
  rewrite max_zero in H12 by assumption.
  destruct (0 <? min_fee_eur i); [exact H12|].
  rewrite round_money_zero in H12 by assumption. exact H12.
Qed.

(** The statement above for an order of nothing at the default rates. *)
Lemma no_work_costs_the_min_fee_witness :
  let i := {| filament_used_g := 0; print_time_h := 0; filament_eur_per_kg := 22.0;
              electricity_eur_per_kwh := 0.25; avg_power_w := 80.0;
              depreciation_eur_per_h := 0.50; consumables_ratio := 0.05;
              labor_hours := 0; labor_rate_eur_per_h := 30.0; risk_ratio := 0.10;
              markup_ratio := 0.0; friend_discount_ratio := 0.20;
              packaging_shipping_eur := 0.0; min_fee_eur := 10.0;
              purge_waste_g := 0.0 |} in
  exists price meta,
    compute_cost i =
      Ok ([("Material", 0); ("Energie", 0); ("Maschine/Verschleiß", 0);
           ("Arbeit", 0); ("Verbrauchsmaterial-Puffer", 0);
           ("Risiko-Puffer", 0); ("Zwischensumme", 0);
           ("Marge/Aufschlag", 0); ("Summe vor Rabatt", 0);
           ("Freundschaftsrabatt", 0); ("Verpackung/Versand", 0);
           ("Empfohlener Preis", price)], meta) /\
    round_money (if 0 <? i.(min_fee_eur) then i.(min_fee_eur) else 0) = Ok price.
Proof.
  intros i. apply (no_work_costs_the_min_fee i); reflexivity.
Defined.

(** X2: no part exceeds its sum.  For non-negative finite fields and a
    finite pre-discount total, each of the six cost lines of the breakdown
    is at most the line Zwischensumme, which is at most the line Summe vor
    Rabatt, and so is the line Marge/Aufschlag: the rounding of every line
    on its own never turns these orders around. *)
Theorem components_within_subtotal (i : PricingInputs) (l : Locals) :
  all_fields nonneg i -> all_fields finite i ->
  compute_locals i = Ok l -> finite l.(pre_discount_total) ->
  exists breakdown meta sub pre,
    compute_cost i = Ok (breakdown, meta) /\
    get breakdown "Zwischensumme" = Some sub /\
    get breakdown "Summe vor Rabatt" = Some pre /\
    (sub <=? pre) = true /\
    (forall k v, In k component_keys -> get breakdown k = Some v -> (v <=? sub) = true) /\
    (forall v, get breakdown "Marge/Aufschlag" = Some v -> (v <=? pre) = true).
Proof.
  intros HN HF Hl Fpre.
  pose proof (Ok_eq _ _ _ Hl (compute_locals_eq i)) as El. subst l.
  pose proof (locals_nonneg i HN HF Fpre)
    as (N1 & N2 & N3 & N4 & N5 & N6 & N7 & N8 & N9 & _).
  destruct (compute_cost_returns i)
    as (b1 & b2 & b3 & b4 & b5 & b6 & b7 & b8 & b9 & b10 & b11 & b12 & m1 & m2
        & H & H1 & H2 & H3 & H4 & H5 & H6 & H7 & H8 & H9 & _).
  cbn [locals_of_derivation Spec.derive material_eur energy_eur machine_eur labor_eur
       consumables_eur risk_buffer_eur subtotal_before_markup markup_eur
       pre_discount_total
       Spec.material Spec.energy Spec.machine Spec.labor Spec.consumables Spec.risk
       Spec.subtotal Spec.markup Spec.pre_discount_total] in *.
  set (mat := (filament_used_g i + purge_waste_g i) / 1000 * filament_eur_per_kg i) in *.
  set (en := avg_power_w i * print_time_h i / 1000 * electricity_eur_per_kwh i) in *.
  set (mach := print_time_h i * depreciation_eur_per_h i) in *.
  set (lab := labor_hours i * labor_rate_eur_per_h i) in *.
  set (cons := (mat + en) * consumables_ratio i) in *.
  set (risk := (mat + en + mach) * risk_ratio i) in *.
  set (markup := (mat + en + mach + lab + cons + risk) * markup_ratio i) in *.
  assert (S2 : nonneg (mat + en)) by (apply add_nonneg; assumption).
  assert (S3 : nonneg (mat + en + mach)) by (apply add_nonneg; assumption).
  assert (S4 : nonneg (mat + en + mach + lab)) by (apply add_nonneg; assumption).
  assert (S5 : nonneg (mat + en + mach + lab + cons)) by (apply add_nonneg; assumption).
  assert (L5 : (mat + en + mach + lab + cons <=? mat + en + mach + lab + cons + risk) = true)
    by (apply add_ge_l; assumption).
  assert (L4 : (mat + en + mach + lab <=? mat + en + mach + lab + cons + risk) = true).
  { eapply leb_trans_nonneg; [| | | |exact L5]; try assumption. apply add_ge_l; assumption. }
  assert (L3 : (mat + en + mach <=? mat + en + mach + lab + cons + risk) = true).
  { eapply leb_trans_nonneg; [| | | |exact L4]; try assumption. apply add_ge_l; assumption. }
  assert (L2 : (mat + en <=? mat + en + mach + lab + cons + risk) = true).
  { eapply leb_trans_nonneg; [| | | |exact L3]; try assumption. apply add_ge_l; assumption. }
  assert (Lmat : (mat <=? mat + en + mach + lab + cons + risk) = true).
  { eapply leb_trans_nonneg; [| | | |exact L2]; try assumption. apply add_ge_l; assumption. }
  assert (Len : (en <=? mat + en + mach + lab + cons + risk) = true).
  { eapply leb_trans_nonneg; [| | | |exact L2]; try assumption. apply add_ge_r; assumption. }
  assert (Lmach : (mach <=? mat + en + mach + lab + cons + risk) = true).
  { eapply leb_trans_nonneg; [| | | |exact L3]; try assumption. apply add_ge_r; assumption. }
  assert (Llab : (lab <=? mat + en + mach + lab + cons + risk) = true).
  { eapply leb_trans_nonneg; [| | | |exact L4]; try assumption. apply add_ge_r; assumption. }
  assert (Lcons : (cons <=? mat + en + mach + lab + cons + risk) = true).
  { eapply leb_trans_nonneg; [| | | |exact L5]; try assumption. apply add_ge_r; assumption. }
  assert (Lrisk : (risk <=? mat + en + mach + lab + cons + risk) = true)
    by (apply add_ge_r; assumption).
  assert (Lsub : (mat + en + mach + lab + cons + risk
                  <=? mat + en + mach + lab + cons + risk + markup) = true)
    by (apply add_ge_l; assumption).
  assert (Lmarkup : (markup <=? mat + en + mach + lab + cons + risk + markup) = true)
    by (apply add_ge_r; assumption).
  eexists _, _, b7, b9. split; [exact H|]. split; [reflexivity|]. split; [reflexivity|].
  split; [apply (round_money_mono _ _ _ _ N7 N9 Lsub H7 H9)|]. split.
  - intros k v Hin Hk. cbn [component_keys In] in Hin.
    destruct Hin as [<-|[<-|[<-|[<-|[<-|[<-|[]]]]]]]; cbn in Hk;
      apply Some_float_inj in Hk; subst v.
    + apply (round_money_mono _ _ _ _ N1 N7 Lmat H1 H7).
    + apply (round_money_mono _ _ _ _ N2 N7 Len H2 H7).
    + apply (round_money_mono _ _ _ _ N3 N7 Lmach H3 H7).
    + apply (round_money_mono _ _ _ _ N4 N7 Llab H4 H7).
    + apply (round_money_mono _ _ _ _ N5 N7 Lcons H5 H7).
    + apply (round_money_mono _ _ _ _ N6 N7 Lrisk H6 H7).
  - intros v Hv. cbn in Hv. apply Some_float_inj in Hv. subst v.
    apply (round_money_mono _ _ _ _ N8 N9 Lmarkup H8 H9).
Qed.

(** The statement above at the scenario. *)
Lemma components_within_subtotal_witness :
  exists breakdown meta sub pre,
    compute_cost scenario = Ok (breakdown, meta) /\
    get breakdown "Zwischensumme" = Some sub /\
    get breakdown "Summe vor Rabatt" = Some pre /\
    (sub <=? pre) = true /\
    (forall k v, In k component_keys -> get breakdown k = Some v -> (v <=? sub) = true) /\
    (forall v, get breakdown "Marge/Aufschlag" = Some v -> (v <=? pre) = true).
Proof.
  apply (components_within_subtotal scenario
           (locals_of_derivation (Spec.derive scenario))).
  - repeat split; reflexivity.
  - repeat split; reflexivity.
  - reflexivity.
  - reflexivity.
Defined.

(** X3: with a discount ratio of at most one (and non-negative finite
    fields, finite pre-discount total) the line Freundschaftsrabatt is at
    most the line Summe vor Rabatt: the stored discount never exceeds what
    it is taken from. *)
Theorem discount_within_pre_discount_total (i : PricingInputs) (l : Locals) :
  all_fields nonneg i -> all_fields finite i ->
  compute_locals i = Ok l -> finite l.(pre_discount_total) ->
  (i.(friend_discount_ratio) <=? 1) = true ->
  exists breakdown meta d pre,
    compute_cost i = Ok (breakdown, meta) /\
    get breakdown "Freundschaftsrabatt" = Some d /\
    get breakdown "Summe vor Rabatt" = Some pre /\
    (d <=? pre) = true.
Proof.
  intros HN HF Hl Fpre Hr.
  pose proof (Ok_eq _ _ _ Hl (compute_locals_eq i)) as El. subst l.
  pose proof (locals_nonneg i HN HF Fpre)
    as (_ & _ & _ & _ & _ & _ & _ & _ & N9 & N10 & _).
  destruct (compute_cost_returns i)
    as (b1 & b2 & b3 & b4 & b5 & b6 & b7 & b8 & b9 & b10 & b11 & b12 & m1 & m2
        & H & _ & _ & _ & _ & _ & _ & _ & _ & H9 & H10 & _).
  assert (Nfr : nonneg i.(friend_discount_ratio)) by (split_fields HN; assumption).
  eexists _, _, b10, b9. split; [exact H|]. split; [reflexivity|]. split; [reflexivity|].
  refine (proj2 (proj2 (round_money_mono _ _ _ _ N10 N9 _ H10 H9))).
  apply mul_le_1; assumption.
Qed.

(** The statement above at the scenario, whose ratio is 0.20. *)
Lemma discount_within_pre_discount_total_witness :
  exists breakdown meta d pre,
    compute_cost scenario = Ok (breakdown, meta) /\
    get breakdown "Freundschaftsrabatt" = Some d /\
    get breakdown "Summe vor Rabatt" = Some pre /\
    (d <=? pre) = true.
Proof.
  apply (discount_within_pre_discount_total scenario
           (locals_of_derivation (Spec.derive scenario))).
  - repeat split; reflexivity.
  - repeat split; reflexivity.
  - reflexivity.
  - reflexivity.
  - reflexivity.
Defined.

(** X4: the price covers packaging and shipping.  For non-negative
    finite fields, a finite pre-discount total and a discount ratio of at
    most one, the total before the floor is non-negative and the line
    Empfohlener Preis is at least the line Verpackung/Versand. *)
Theorem price_covers_packaging (i : PricingInputs) (l : Locals) :
  all_fields nonneg i -> all_fields finite i ->
  compute_locals i = Ok l -> finite l.(pre_discount_total) ->
  (i.(friend_discount_ratio) <=? 1) = true ->
  nonneg l.(total) /\
  exists breakdown meta pack price,
    compute_cost i = Ok (breakdown, meta) /\
    get breakdown "Verpackung/Versand" = Some pack /\
    get breakdown "Empfohlener Preis" = Some price /\
    (pack <=? price) = true.
Proof.
  intros HN HF Hl Fpre Hr.
  pose proof (Ok_eq _ _ _ Hl (compute_locals_eq i)) as El. subst l.
  pose proof (locals_nonneg i HN HF Fpre)
    as (_ & _ & _ & _ & _ & _ & _ & _ & N9 & N10 & N11 & N12).
  destruct (compute_cost_returns i)
    as (b1 & b2 & b3 & b4 & b5 & b6 & b7 & b8 & b9 & b10 & b11 & b12 & m1 & m2
        & H & _ & _ & _ & _ & _ & _ & _ & _ & _ & _ & H11 & H12 & _).
  assert (Nfr : nonneg i.(friend_discount_ratio)) by (split_fields HN; assumption).
  assert (Nfee : nonneg i.(min_fee_eur)) by (split_fields HN; assumption).
  cbn [locals_of_derivation Spec.derive pre_discount_total friend_discount_eur total
       final_total_eur Spec.pre_discount_total Spec.friend_discount Spec.total
       Spec.final_total] in *.
  set (pre := Spec.subtotal (Spec.derive i) + Spec.markup (Spec.derive i)) in *.
  cbn [Spec.derive Spec.subtotal Spec.markup] in pre.
  fold pre in Fpre, N9, N10, H12 |- *.
  assert (Nd : nonneg (pre - pre * friend_discount_ratio i)).
  { apply sub_nonneg; try assumption. apply mul_le_1; assumption. }
  assert (Nt : nonneg (pre - pre * friend_discount_ratio i + packaging_shipping_eur i))
    by (apply add_nonneg; assumption).
  split; [exact Nt|].
  eexists _, _, b11, b12. split; [exact H|]. split; [reflexivity|]. split; [reflexivity|].
  refine (proj2 (proj2 (round_money_mono _ _ _ _ N11 N12 _ H11 H12))).
  eapply leb_trans_nonneg; [exact N11 | exact Nt | exact N12 | |].
  - apply add_ge_r; assumption.
  - apply max_ge_l; assumption.
Qed.

(** The statement above at the scenario. *)
Lemma price_covers_packaging_witness :
  nonneg (locals_of_derivation (Spec.derive scenario)).(total) /\
  exists breakdown meta pack price,
    compute_cost scenario = Ok (breakdown, meta) /\
    get breakdown "Verpackung/Versand" = Some pack /\
    get breakdown "Empfohlener Preis" = Some price /\
    (pack <=? price) = true.
Proof.
  apply (price_covers_packaging scenario
           (locals_of_derivation (Spec.derive scenario)));
    try reflexivity; repeat split; reflexivity.
Defined.

(** X5: raising the minimum fee never lowers the price.  For non-negative
    finite fields and a finite pre-discount total (any discount ratio), a
    minimum fee that is at least as large gives an Empfohlener Preis that is
    at least as large. *)
Theorem raising_min_fee_never_lowers_price (i : PricingInputs) (l : Locals) (fee2 : float) :
  all_fields nonneg i -> all_fields finite i ->
  compute_locals i = Ok l -> finite l.(pre_discount_total) ->
  (i.(min_fee_eur) <=? fee2) = true ->
  exists b1 m1 b2 m2 p1 p2,
    compute_cost i = Ok (b1, m1) /\
    compute_cost (with_min_fee_eur i fee2) = Ok (b2, m2) /\
    get b1 "Empfohlener Preis" = Some p1 /\
    get b2 "Empfohlener Preis" = Some p2 /\
    (p1 <=? p2) = true.
Proof.
  intros HN HF Hl Fpre Hle.
  pose proof (Ok_eq _ _ _ Hl (compute_locals_eq i)) as El. subst l.
  pose proof (locals_nonneg i HN HF Fpre)
    as (_ & _ & _ & _ & _ & _ & _ & _ & N9 & N10 & N11 & _).
  destruct (compute_cost_returns i)
    as (b1 & b2 & b3 & b4 & b5 & b6 & b7 & b8 & b9 & b10 & b11 & b12 & m1 & m2
        & H & _ & _ & _ & _ & _ & _ & _ & _ & _ & _ & _ & H12 & _).
  destruct (compute_cost_returns (with_min_fee_eur i fee2))
    as (c1 & c2 & c3 & c4 & c5 & c6 & c7 & c8 & c9 & c10 & c11 & c12 & n1 & n2
        & H' & _ & _ & _ & _ & _ & _ & _ & _ & _ & _ & _ & H12' & _).
  assert (Nfee : nonneg i.(min_fee_eur)) by (split_fields HN; assumption).
  assert (Fpack : finite i.(packaging_shipping_eur)) by (split_fields HF; assumption).
  cbn [locals_of_derivation Spec.derive pre_discount_total friend_discount_eur
       final_total_eur Spec.pre_discount_total Spec.friend_discount Spec.total
       Spec.final_total with_min_fee_eur
       filament_used_g print_time_h filament_eur_per_kg electricity_eur_per_kwh
       avg_power_w depreciation_eur_per_h consumables_ratio labor_hours
       labor_rate_eur_per_h risk_ratio markup_ratio friend_discount_ratio
       packaging_shipping_eur min_fee_eur purge_waste_g] in *.
  match type of H12 with
  | round_money (Py.max ?t _) = _ => set (tot := t) in *
  end.
  assert (Nt : is_nan tot = false).
  { unfold tot. apply add_not_nan; [|assumption]. apply sub_not_nan; [assumption|].
    apply nonneg_not_nan; assumption. }
  destruct (max_mono_r tot _ fee2 Nt Nfee Hle) as (M1 & M2 & M12).
  eexists _, _, _, _, b12, c12. split; [exact H|]. split; [exact H'|].
  split; [reflexivity|]. split; [reflexivity|].
  exact (proj2 (proj2 (round_money_mono _ _ _ _ M1 M2 M12 H12 H12'))).
Qed.

(** The statement above at the scenario, the fee raised from 10 to 40. *)
Lemma raising_min_fee_never_lowers_price_witness :
  exists b1 m1 b2 m2 p1 p2,
    compute_cost scenario = Ok (b1, m1) /\
    compute_cost (with_min_fee_eur scenario 40) = Ok (b2, m2) /\
    get b1 "Empfohlener Preis" = Some p1 /\
    get b2 "Empfohlener Preis" = Some p2 /\
    (p1 <=? p2) = true.
Proof.
  apply (raising_min_fee_never_lowers_price scenario
           (locals_of_derivation (Spec.derive scenario)) 40);
    try reflexivity; repeat split; reflexivity.
Defined.

(** X6: raising packaging and shipping never lowers the price.  For
    non-negative finite fields, a finite pre-discount total and a discount
    ratio of at most one, a packaging cost that is at least as large gives
    an Empfohlener Preis that is at least as large. *)
Theorem raising_packaging_never_lowers_price (i : PricingInputs) (l : Locals) (pack2 : float) :
  all_fields nonneg i -> all_fields finite i ->
  compute_locals i = Ok l -> finite l.(pre_discount_total) ->
  (i.(friend_discount_ratio) <=? 1) = true ->
  (i.(packaging_shipping_eur) <=? pack2) = true ->
  exists b1 m1 b2 m2 p1 p2,
    compute_cost i = Ok (b1, m1) /\
    compute_cost (with_packaging_shipping_eur i pack2) = Ok (b2, m2) /\
    get b1 "Empfohlener Preis" = Some p1 /\
    get b2 "Empfohlener Preis" = Some p2 /\
    (p1 <=? p2) = true.
Proof.
  intros HN HF Hl Fpre Hr Hle.
  pose proof (Ok_eq _ _ _ Hl (compute_locals_eq i)) as El. subst l.
  pose proof (locals_nonneg i HN HF Fpre)
    as (_ & _ & _ & _ & _ & _ & _ & _ & N9 & N10 & N11 & _).
  destruct (compute_cost_returns i)
    as (b1 & b2 & b3 & b4 & b5 & b6 & b7 & b8 & b9 & b10 & b11 & b12 & m1 & m2
        & H & _ & _ & _ & _ & _ & _ & _ & _ & _ & _ & _ & H12 & _).
  destruct (compute_cost_returns (with_packaging_shipping_eur i pack2))
    as (c1 & c2 & c3 & c4 & c5 & c6 & c7 & c8 & c9 & c10 & c11 & c12 & n1 & n2
        & H' & _ & _ & _ & _ & _ & _ & _ & _ & _ & _ & _ & H12' & _).
  assert (Nfee : nonneg i.(min_fee_eur)) by (split_fields HN; assumption).
  assert (Nfr : nonneg i.(friend_discount_ratio)) by (split_fields HN; assumption).
  pose proof (nonneg_of_le _ _ N11 Hle) as N11'.
  cbn [locals_of_derivation Spec.derive pre_discount_total friend_discount_eur
       final_total_eur Spec.pre_discount_total Spec.friend_discount Spec.total
       Spec.final_total with_packaging_shipping_eur
       filament_used_g print_time_h filament_eur_per_kg electricity_eur_per_kwh
       avg_power_w depreciation_eur_per_h consumables_ratio labor_hours
       labor_rate_eur_per_h risk_ratio markup_ratio friend_discount_ratio
       packaging_shipping_eur min_fee_eur purge_waste_g] in *.
  match type of H12 with
  | round_money (Py.max (?d + _) _) = _ => set (rest := d) in *
  end.
  assert (Nd : nonneg rest).
  { unfold rest. apply sub_nonneg; try assumption. apply mul_le_1; assumption. }
  assert (Ht : (rest + packaging_shipping_eur i <=? rest + pack2) = true).
  { apply add_mono; try assumption. apply leb_refl_nonneg. assumption. }
  destruct (max_mono_l _ _ (min_fee_eur i)
              (add_nonneg _ _ Nd N11) (add_nonneg _ _ Nd N11') Nfee Ht) as (M1 & M2 & M12).
  eexists _, _, _, _, b12, c12. split; [exact H|]. split; [exact H'|].
  split; [reflexivity|]. split; [reflexivity|].
  exact (proj2 (proj2 (round_money_mono _ _ _ _ M1 M2 M12 H12 H12'))).
Qed.

(** The statement above at the scenario, packaging raised from 0 to 4.90. *)
Lemma raising_packaging_never_lowers_price_witness :
  exists b1 m1 b2 m2 p1 p2,
    compute_cost scenario = Ok (b1, m1) /\
    compute_cost (with_packaging_shipping_eur scenario 4.9) = Ok (b2, m2) /\
    get b1 "Empfohlener Preis" = Some p1 /\
    get b2 "Empfohlener Preis" = Some p2 /\
    (p1 <=? p2) = true.
Proof.
  apply (raising_packaging_never_lowers_price scenario
           (locals_of_derivation (Spec.derive scenario)) 4.9);
    try reflexivity; repeat split; reflexivity.
Defined.

(** X7: a larger discount never raises the price.  For non-negative
    finite fields, a finite pre-discount total and two discount ratios
    [r1 <= r2 <= 1], the Empfohlener Preis with [r2] is at most the one with
    [r1], and the line Freundschaftsrabatt with [r1] is at most the one with
    [r2]. *)
Theorem larger_discount_never_raises_price (i : PricingInputs) (l : Locals) (r2 : float) :
  all_fields nonneg i -> all_fields finite i ->
  compute_locals i = Ok l -> finite l.(pre_discount_total) ->
  (i.(friend_discount_ratio) <=? r2) = true -> (r2 <=? 1) = true ->
  exists b1 m1 b2 m2 p1 p2 d1 d2,
    compute_cost i = Ok (b1, m1) /\
    compute_cost (with_friend_discount_ratio i r2) = Ok (b2, m2) /\
    get b1 "Empfohlener Preis" = Some p1 /\
    get b2 "Empfohlener Preis" = Some p2 /\
    (p2 <=? p1) = true /\
    get b1 "Freundschaftsrabatt" = Some d1 /\
    get b2 "Freundschaftsrabatt" = Some d2 /\
    (d1 <=? d2) = true.
Proof.
  intros HN HF Hl Fpre Hle Hr2.
  pose proof (Ok_eq _ _ _ Hl (compute_locals_eq i)) as El. subst l.
  pose proof (locals_nonneg i HN HF Fpre)
    as (_ & _ & _ & _ & _ & _ & _ & _ & N9 & N10 & N11 & _).
  destruct (compute_cost_returns i)
    as (b1 & b2 & b3 & b4 & b5 & b6 & b7 & b8 & b9 & b10 & b11 & b12 & m1 & m2
        & H & _ & _ & _ & _ & _ & _ & _ & _ & _ & H10 & _ & H12 & _).
  destruct (compute_cost_returns (with_friend_discount_ratio i r2))
    as (c1 & c2 & c3 & c4 & c5 & c6 & c7 & c8 & c9 & c10 & c11 & c12 & n1 & n2
        & H' & _ & _ & _ & _ & _ & _ & _ & _ & _ & H10' & _ & H12' & _).
  assert (Nfee : nonneg i.(min_fee_eur)) by (split_fields HN; assumption).
  assert (Nfr : nonneg i.(friend_discount_ratio)) by (split_fields HN; assumption).
  pose proof (nonneg_of_le _ _ Nfr Hle) as Nr2.
  assert (Fr2 : finite r2).
  { apply finite_Ord; [assumption|]. apply le_Ord in Hr2; [|assumption|reflexivity].
    eapply Z.le_lt_trans; [exact Hr2 | vm_compute; reflexivity]. }
  cbn [locals_of_derivation Spec.derive pre_discount_total friend_discount_eur
       final_total_eur Spec.pre_discount_total Spec.friend_discount Spec.total
       Spec.final_total with_friend_discount_ratio
       filament_used_g print_time_h filament_eur_per_kg electricity_eur_per_kwh
       avg_power_w depreciation_eur_per_h consumables_ratio labor_hours
       labor_rate_eur_per_h risk_ratio markup_ratio friend_discount_ratio
       packaging_shipping_eur min_fee_eur purge_waste_g] in *.
  match type of H10 with
  | round_money (?p * _) = _ => set (pre := p) in *
  end.
  assert (Hf : (pre * friend_discount_ratio i <=? pre * r2) = true).
  { apply mul_mono; try assumption. apply leb_refl_nonneg. assumption. }
  assert (Nf2 : nonneg (pre * r2)) by (apply mul_nonneg; assumption).
  assert (Hf2 : (pre * r2 <=? pre) = true) by (apply mul_le_1; assumption).
  assert (Hf1 : (pre * friend_discount_ratio i <=? pre) = true)
    by (apply (leb_trans_nonneg _ (pre * r2) _); assumption).
  assert (Hd : (pre - pre * r2 <=? pre - pre * friend_discount_ratio i) = true)
    by (apply sub_mono; assumption).
  assert (Nd1 : nonneg (pre - pre * friend_discount_ratio i))
    by (apply sub_nonneg; assumption).
  assert (Nd2 : nonneg (pre - pre * r2)) by (apply sub_nonneg; assumption).
  assert (Ht : (pre - pre * r2 + packaging_shipping_eur i
                <=? pre - pre * friend_discount_ratio i + packaging_shipping_eur i) = true).
  { apply add_mono; try assumption. apply leb_refl_nonneg. assumption. }
  destruct (max_mono_l _ _ (min_fee_eur i)
              (add_nonneg _ _ Nd2 N11) (add_nonneg _ _ Nd1 N11) Nfee Ht) as (M2 & M1 & M21).
  eexists _, _, _, _, b12, c12, b10, c10. split; [exact H|]. split; [exact H'|].
  split; [reflexivity|]. split; [reflexivity|].
  split; [exact (proj2 (proj2 (round_money_mono _ _ _ _ M2 M1 M21 H12' H12)))|].
  split; [reflexivity|]. split; [reflexivity|].
  exact (proj2 (proj2 (round_money_mono _ _ _ _ N10 Nf2 Hf H10 H10'))).
Qed.

(** The statement above at the scenario, the ratio raised from 0.20 to 0.87. *)
Lemma larger_discount_never_raises_price_witness :
  exists b1 m1 b2 m2 p1 p2 d1 d2,
    compute_cost scenario = Ok (b1, m1) /\
    compute_cost (with_friend_discount_ratio scenario 0.87) = Ok (b2, m2) /\
    get b1 "Empfohlener Preis" = Some p1 /\
    get b2 "Empfohlener Preis" = Some p2 /\
    (p2 <=? p1) = true /\
    get b1 "Freundschaftsrabatt" = Some d1 /\
    get b2 "Freundschaftsrabatt" = Some d2 /\
    (d1 <=? d2) = true.
Proof.
  apply (larger_discount_never_raises_price scenario
           (locals_of_derivation (Spec.derive scenario)) 0.87);
    try reflexivity; repeat split; reflexivity.
Defined.



(** X9: [round_money] keeps the order of non-negative amounts: of two
    amounts [0 <= x <= y] (infinity included) the rounded [x] is at most the
    rounded [y], and both are non-negative. *)
Theorem round_money_keeps_order (x y rx ry : float) :
  nonneg x -> (x <=? y) = true ->
  round_money x = Ok rx -> round_money y = Ok ry ->
  nonneg rx /\ (rx <=? ry) = true.
Proof.
  intros Hx Hle Hrx Hry.
  pose proof (nonneg_of_le x y Hx Hle) as Hy.
  destruct (round_money_mono x y rx ry Hx Hy Hle Hrx Hry) as (H1 & _ & H3).
  split; assumption.
Qed.

(** The statement above at 0.124999999 and 0.125. *)
Lemma round_money_keeps_order_witness :
  nonneg 0.12 /\ (0.12 <=? 0.13) = true.
Proof.
  apply (round_money_keeps_order 0.124999999 0.125 0.12 0.13); reflexivity.
Defined.

(** X10: an amount stored by [round_money] is settled.  For [0 <= x <= 2^45]
    the value that [round_money(x)] returns is a fixed point of
    [round(., 2)]: rounding a breakdown value to two places again, as a
    reader of the export may do, never moves it. *)
Theorem round_money_result_is_settled (x p : float) :
  nonneg x -> (x <=? 35184372088832) = true ->
  round_money x = Ok p -> Py.round p 2 = Ok p.
Proof.
  intros Hx Hle Hp. unfold round_money in Hp.
  destruct (add_Ord x 1e-9 Hx nonneg_eps) as [Hn _].
  assert (Hb : (x + 1e-9 <=? 35184372088832) = true).
  { change 35184372088832 with (35184372088832 + 1e-9).
    apply add_mono; try assumption; try reflexivity. }
  apply le_Ord in Hb; [|assumption|reflexivity].
  apply (round_settled 2 45 (x + 1e-9) p); try assumption; try lia; try reflexivity.
Qed.

(** The statement above at the amount 28.767200000000003, which is
    rounded to 28.77. *)
Lemma round_money_result_is_settled_witness : Py.round 28.77 2 = Ok 28.77.
Proof.
  apply (round_money_result_is_settled 28.767200000000003 28.77); reflexivity.
Defined.

(** X11: the price on the first header card.  For non-negative finite
    fields, a finite pre-discount total and a price of at most [2^45], the
    card shows the unrounded price plus [1e-9], correctly rounded to two
    places once: passing through the stored float of the breakdown on the
    way to the text changes no digit. *)
Theorem price_text_of_compute_cost (i : PricingInputs) (l : Locals) :
  all_fields nonneg i -> all_fields finite i ->
  compute_locals i = Ok l -> finite l.(pre_discount_total) ->
  (l.(final_total_eur) <=? 35184372088832) = true ->
  exists breakdown meta,
    compute_cost i = Ok (breakdown, meta) /\
    price_text breakdown = Value ("€ " ++ format_f 2 (l.(final_total_eur) + 1e-9)).
Proof.
  intros HN HF Hl Fpre Hle.
  pose proof (Ok_eq _ _ _ Hl (compute_locals_eq i)) as El. subst l.
  pose proof (locals_nonneg i HN HF Fpre) as (_ & _ & _ & _ & _ & _ & _ & _ & _ & _ & _ & N12).
  destruct (compute_cost_returns i)
    as (b1 & b2 & b3 & b4 & b5 & b6 & b7 & b8 & b9 & b10 & b11 & b12 & m1 & m2
        & H & _ & _ & _ & _ & _ & _ & _ & _ & _ & _ & _ & H12 & _).
  eexists _, _. split; [exact H|].
  unfold price_text, item. cbn [get String.eqb Ascii.eqb Bool.eqb and_then].
  do 2 f_equal. unfold format_f.
  set (y := final_total_eur (locals_of_derivation (Spec.derive i)) + 1e-9) in *.
  unfold round_money in H12. fold y in H12.
  destruct (add_Ord _ 1e-9 N12 nonneg_eps) as [Hn _]. fold y in Hn.
  assert (Hb : (y <=? 35184372088832) = true).
  { unfold y. change 35184372088832 with (35184372088832 + 1e-9).
    apply add_mono; try assumption; try reflexivity. }
  apply le_Ord in Hb; [|assumption|reflexivity].
  assert (Fy : finite y).
  { apply finite_Ord; [assumption|].
    eapply Z.le_lt_trans; [exact Hb | vm_compute; reflexivity]. }
  assert (E : decimal_of 2 b12 = decimal_of 2 y).
  { apply (round_settled 2 45 y b12); try assumption; try lia; try reflexivity. }
  rewrite E. destruct (decimal_of_finite 2 y Fy) as [[s n] D]. rewrite D. reflexivity.
Qed.

(** The statement above at the scenario: the card shows 28.77. *)
Lemma price_text_of_compute_cost_witness :
  exists breakdown meta,
    compute_cost scenario = Ok (breakdown, meta) /\
    price_text breakdown = Value "€ 28.77".
Proof.
  apply (price_text_of_compute_cost scenario
           (locals_of_derivation (Spec.derive scenario)));
    try reflexivity; repeat split; reflexivity.
Defined.

(** ** Further properties of the page *)

(** X12: the detail table of lines 210 to 222 needs exactly its eleven keys.
    A [KeyError] names a key of the table that the breakdown lacks, and
    one is raised as soon as any of the eleven is missing; the price entry
    is not read. *)
Theorem df_raises_iff_key_missing (breakdown : dict) :
  (forall k, df breakdown = KeyError k -> In k table_keys /\ get breakdown k = None) /\
  ((exists k, In k table_keys /\ get breakdown k = None) ->
   exists k, df breakdown = KeyError k).
Proof.
  unfold df, item.
  destruct (get breakdown "Material") eqn:H1;
    [|split; [intros k H; apply KeyError_inj in H; subst k; split;
                [cbn; tauto | assumption]
             | intros _; eexists; reflexivity]].
  destruct (get breakdown "Energie") eqn:H2;
    [|split; [intros k H; apply KeyError_inj in H; subst k; split;
                [cbn; tauto | assumption]
             | intros _; eexists; reflexivity]].
  destruct (get breakdown "Maschine/Verschleiß") eqn:H3;
    [|split; [intros k H; apply KeyError_inj in H; subst k; split;
                [cbn; tauto | assumption]
             | intros _; eexists; reflexivity]].
  destruct (get breakdown "Arbeit") eqn:H4;
    [|split; [intros k H; apply KeyError_inj in H; subst k; split;
                [cbn; tauto | assumption]
             | intros _; eexists; reflexivity]].
  destruct (get breakdown "Verbrauchsmaterial-Puffer") eqn:H5;
    [|split; [intros k H; apply KeyError_inj in H; subst k; split;
                [cbn; tauto | assumption]
             | intros _; eexists; reflexivity]].
  destruct (get breakdown "Risiko-Puffer") eqn:H6;
    [|split; [intros k H; apply KeyError_inj in H; subst k; split;
                [cbn; tauto | assumption]
             | intros _; eexists; reflexivity]].
  destruct (get breakdown "Zwischensumme") eqn:H7;
    [|split; [intros k H; apply KeyError_inj in H; subst k; split;
                [cbn; tauto | assumption]
             | intros _; eexists; reflexivity]].
  destruct (get breakdown "Marge/Aufschlag") eqn:H8;
    [|split; [intros k H; apply KeyError_inj in H; subst k; split;
                [cbn; tauto | assumption]
             | intros _; eexists; reflexivity]].
  destruct (get breakdown "Summe vor Rabatt") eqn:H9;
    [|split; [intros k H; apply KeyError_inj in H; subst k; split;
                [cbn; tauto | assumption]
             | intros _; eexists; reflexivity]].
  destruct (get breakdown "Freundschaftsrabatt") eqn:H10;
    [|split; [intros k H; apply KeyError_inj in H; subst k; split;
                [cbn; tauto | assumption]
             | intros _; eexists; reflexivity]].
  destruct (get breakdown "Verpackung/Versand") eqn:H11;
    [|split; [intros k H; apply KeyError_inj in H; subst k; split;
                [cbn; tauto | assumption]
             | intros _; eexists; reflexivity]].
  cbn [and_then]. split; [discriminate|].
  intros (k & Hin & Hk). cbn [table_keys In] in Hin.
  repeat (destruct Hin as [Hin|Hin]; [subst k; congruence|]). contradiction.
Qed.

(** X13: on what [compute_cost] returns the table is always built.  Its rows
    are the first eleven entries of the breakdown in their order, the price
    left out, each with the stored value except the discount, which is
    shown as [-abs] of the stored value. *)
Theorem df_of_compute_cost (i : PricingInputs) :
  exists breakdown meta rows,
    compute_cost i = Ok (breakdown, meta) /\
    df breakdown = Value rows /\
    map fst rows = removelast (map fst breakdown) /\
    (forall k v, In (k, v) rows -> k <> "Freundschaftsrabatt" -> In (k, v) breakdown) /\
    (forall v, get breakdown "Freundschaftsrabatt" = Some v ->
               get rows "Freundschaftsrabatt" = Some (- abs v)).
Proof.
  destruct (compute_cost_returns i)
    as (b1 & b2 & b3 & b4 & b5 & b6 & b7 & b8 & b9 & b10 & b11 & b12 & m1 & m2
        & H & _).
  eexists _, _, _. split; [exact H|]. split; [reflexivity|].
  split; [reflexivity|]. split.
  - intros k v Hin Hk. cbn [In] in Hin |- *.
    repeat (destruct Hin as [Hin|Hin]; [first [tauto | apply (f_equal fst) in Hin; cbn [fst] in Hin; congruence]|]).
    contradiction.
  - intros v Hv. cbn in Hv. apply Some_float_inj in Hv. subst v. reflexivity.
Qed.

(** X14: whatever the breakdown holds, the discount row of the table is
    [-abs] of the stored discount and is never greater than zero: a stored
    negative discount (a surcharge) is shown with the same sign as a real
    discount. *)
Theorem df_discount_row_never_positive (breakdown rows : dict) :
  df breakdown = Value rows ->
  exists d, get breakdown "Freundschaftsrabatt" = Some d /\
            get rows "Freundschaftsrabatt" = Some (- abs d) /\
            (0 <? - abs d) = false.
Proof.
  unfold df, item.
  destruct (get breakdown "Material"); [|discriminate].
  destruct (get breakdown "Energie"); [|discriminate].
  destruct (get breakdown "Maschine/Verschleiß"); [|discriminate].
  destruct (get breakdown "Arbeit"); [|discriminate].
  destruct (get breakdown "Verbrauchsmaterial-Puffer"); [|discriminate].
  destruct (get breakdown "Risiko-Puffer"); [|discriminate].
  destruct (get breakdown "Zwischensumme"); [|discriminate].
  destruct (get breakdown "Marge/Aufschlag"); [|discriminate].
  destruct (get breakdown "Summe vor Rabatt"); [|discriminate].
  destruct (get breakdown "Freundschaftsrabatt") as [d|]; [|discriminate].
  destruct (get breakdown "Verpackung/Versand"); [|discriminate].
  cbn [and_then]. intros H. apply Value_inj in H. subst rows.
  exists d. split; [reflexivity|]. split; [reflexivity|]. apply opp_abs_not_positive.
Qed.

(** The statement above on a breakdown with a negative discount. *)
Lemma df_discount_row_never_positive_witness :
  let b := [("Material", 1); ("Energie", 1); ("Maschine/Verschleiß", 1); ("Arbeit", 1);
            ("Verbrauchsmaterial-Puffer", 1); ("Risiko-Puffer", 1); ("Zwischensumme", 6);
            ("Marge/Aufschlag", 0); ("Summe vor Rabatt", 6);
            ("Freundschaftsrabatt", -1.5); ("Verpackung/Versand", 0);
            ("Empfohlener Preis", 10)]%float in
  exists rows, df b = Value rows /\
  exists d, get b "Freundschaftsrabatt" = Some d /\
            get rows "Freundschaftsrabatt" = Some (- abs d) /\
            (0 <? - abs d) = false.
Proof.
  intros b. eexists. split; [reflexivity|].
  apply (df_discount_row_never_positive b). reflexivity.
Defined.

(** X15: the order of precedence in the exported dictionary of line 232.  A
    key of [meta] shows the value of [meta]; otherwise [breakdown] is the
    nested breakdown; otherwise the key is a field of the inputs or absent.
    An input field is therefore hidden by a [meta] entry of the same name. *)
Theorem export_lookup (inputs : PricingInputs) (breakdown meta : dict) (k : string) :
  NoDup (map fst meta) ->
  lookup (export inputs breakdown meta) k =
    match get meta k with
    | Some v => Some (VFloat v)
    | None => if String.eqb k "breakdown" then Some (VDict breakdown)
              else lookup (asdict inputs) k
    end.
Proof.
  intros Hm. unfold export.
  rewrite lookup_update, lookup_rev
    by (apply NoDup_update; cbn [map fst]; constructor; [intros [] | constructor]).
  rewrite lookup_update, lookup_rev by (rewrite keys_of_dict; assumption).
  rewrite lookup_of_dict, lookup_update.
  destruct (get meta k) as [v|]; cbn [option_map]; [reflexivity|].
  cbn [lookup]. destruct (String.eqb k "breakdown"); [reflexivity|].
  set (r := rev (asdict inputs)). cbn [rev asdict app] in r. subst r. cbn [lookup asdict].
  repeat match goal with
         | |- context [String.eqb k ?s] => destruct (String.eqb_spec k s) as [->|?]
         end; cbn; try reflexivity; congruence.
Qed.

(** The statement above for a [meta] that reuses the name of a field. *)
Lemma export_lookup_witness :
  NoDup (map fst [("kwh", 0.48); ("print_time_h", 7)]%float) /\
  lookup (export scenario [] [("kwh", 0.48); ("print_time_h", 7)]%float) "print_time_h"
  = Some (VFloat 7).
Proof.
  assert (H : NoDup (map fst [("kwh", 0.48); ("print_time_h", 7)]%float)).
  { cbn [map fst]. repeat constructor; cbn [In]; intros H;
      repeat (destruct H as [H|H]; [discriminate|]); contradiction. }
  split; [exact H|].
  rewrite (export_lookup scenario [] [("kwh", 0.48); ("print_time_h", 7)]%float
             "print_time_h" H).
  reflexivity.
Defined.

(** X16: the export of what [compute_cost] returns is the fifteen fields of
    the inputs in their order, then [breakdown], then the entries of
    [meta]: eighteen different keys, so that no entry is overwritten. *)
Theorem export_of_compute_cost (i : PricingInputs) :
  exists breakdown meta,
    compute_cost i = Ok (breakdown, meta) /\
    export i breakdown meta
    = (asdict i ++ ("breakdown", VDict breakdown) :: of_dict meta)%list /\
    NoDup (map fst (export i breakdown meta)) /\
    List.length (export i breakdown meta) = 18%nat.
Proof.
  destruct (compute_cost_returns i)
    as (b1 & b2 & b3 & b4 & b5 & b6 & b7 & b8 & b9 & b10 & b11 & b12 & m1 & m2
        & H & _).
  eexists _, _. split; [exact H|]. split; [reflexivity|]. split; [|reflexivity].
  cbn. repeat constructor; cbn [In]; intros Hin;
    repeat (destruct Hin as [Hin|Hin]; [discriminate|]); contradiction.
Qed.

(** X17: what the presets PETG and ABS/ASA store.  After PETG the session
    state holds 26.0 under Filament €/kg, the int 90 under Ø Leistung (W)
    and 0.12 under Risiko‑Anteil, after ABS/ASA 28.0, the int 110 and 0.18,
    whatever it held before, and every other key is as it was.  Both store
    the same three keys, so of two clicks the later one decides every key,
    and a second click on the same preset changes nothing. *)
Theorem preset_petg_abs_later_wins (session_state : object) (k : string) :
  lookup (preset_petg session_state) k
  = (if String.eqb k "Filament €/kg" then Some (VFloat 26.0)
     else if String.eqb k "Ø Leistung (W)" then Some (VInt 90)
     else if String.eqb k "Risiko‑Anteil" then Some (VFloat 0.12)
     else lookup session_state k) /\
  lookup (preset_abs session_state) k
  = (if String.eqb k "Filament €/kg" then Some (VFloat 28.0)
     else if String.eqb k "Ø Leistung (W)" then Some (VInt 110)
     else if String.eqb k "Risiko‑Anteil" then Some (VFloat 0.18)
     else lookup session_state k) /\
  lookup (preset_petg (preset_abs session_state)) k = lookup (preset_petg session_state) k /\
  lookup (preset_abs (preset_petg session_state)) k = lookup (preset_abs session_state) k /\
  lookup (preset_petg (preset_petg session_state)) k = lookup (preset_petg session_state) k /\
  lookup (preset_abs (preset_abs session_state)) k = lookup (preset_abs session_state) k.
Proof.
  unfold preset_petg, preset_abs. rewrite !lookup_update. cbn [rev app lookup].
  destruct (String.eqb_spec k "Filament €/kg") as [->|_]; [repeat split; reflexivity|].
  destruct (String.eqb_spec k "Ø Leistung (W)") as [->|_]; [repeat split; reflexivity|].
  destruct (String.eqb k "Risiko‑Anteil"); repeat split; reflexivity.
Qed.

(** X18: what the preset PLA stores.  After PLA the session state holds
    22.0 under Filament €/kg, 0.25 under Strompreis €/kWh, the int 80 under
    Ø Leistung (W), 0.5 under Verschleiß/Abschreibung €/h and 0.05 under
    Verbrauchsmaterial‑Anteil, whatever it held before, and every other key
    is as it was.  The risk ratio is not among the five, so that after PETG
    or ABS/ASA the preset PLA keeps their 0.12 or 0.18, while the filament
    price and the power are those of PLA again. *)
Theorem preset_pla_keeps_other_keys (session_state : object) (k : string) :
  lookup (preset_pla session_state) k
  = (if String.eqb k "Filament €/kg" then Some (VFloat 22.0)
     else if String.eqb k "Strompreis €/kWh" then Some (VFloat 0.25)
     else if String.eqb k "Ø Leistung (W)" then Some (VInt 80)
     else if String.eqb k "Verschleiß/Abschreibung €/h" then Some (VFloat 0.5)
     else if String.eqb k "Verbrauchsmaterial‑Anteil" then Some (VFloat 0.05)
     else lookup session_state k) /\
  lookup (preset_pla (preset_petg session_state)) "Risiko‑Anteil" = Some (VFloat 0.12) /\
  lookup (preset_pla (preset_abs session_state)) "Risiko‑Anteil" = Some (VFloat 0.18) /\
  lookup (preset_pla (preset_petg session_state)) "Filament €/kg" = Some (VFloat 22.0) /\
  lookup (preset_pla (preset_abs session_state)) "Filament €/kg" = Some (VFloat 22.0) /\
  lookup (preset_pla (preset_petg session_state)) "Ø Leistung (W)" = Some (VInt 80) /\
  lookup (preset_pla (preset_abs session_state)) "Ø Leistung (W)" = Some (VInt 80).
Proof.
  unfold preset_pla, preset_petg, preset_abs. rewrite !lookup_update.
  cbn [rev app lookup]. split; [|repeat split; reflexivity].
  destruct (String.eqb_spec k "Filament €/kg") as [->|_]; [reflexivity|].
  destruct (String.eqb_spec k "Strompreis €/kWh") as [->|_]; [reflexivity|].
  destruct (String.eqb_spec k "Ø Leistung (W)") as [->|_]; [reflexivity|].
  destruct (String.eqb_spec k "Verschleiß/Abschreibung €/h") as [->|_]; [reflexivity|].
  destruct (String.eqb k "Verbrauchsmaterial‑Anteil"); reflexivity.
Qed.
